(** * Code-execution adapter: direct-invocation tool and transcript action

    A shallow embedding of [UnsafeCodeExecutionTool.py] (class [Tools]) and
    of [open-webui/functions/run_code.py] (class [Action]), with the
    [EventEmitter] and [CodeExecutionTracker] classes both files share.

    - Python [str] values are modelled as [string]; a character is a code
      point below 256.  A [bytes] value is a list of [byte]s.  [None] is
      modelled with [option].
    - A request is a computation in a state-and-exception monad.  The
      state holds the notifier's fields, the local variable
      [execution_tracker], and the record of the calls made to the sink
      and to [subprocess.run].
    - What lies outside the two classes is a [Host]: the run of the
      interpreter, the temporary directory, [sys.executable].  The sink is
      a function of the events it received so far; a call returns or
      raises.
    - The exceptions of the host derive from [Exception]; a sink call may
      also raise one that does not (a cancellation, an interrupt), which
      [except Exception] lets through.  [async]/[await] is sequential, an
      awaited sink call being one step. *)

From Stdlib Require Import String Ascii List Bool Arith ZArith Lia
  DecimalString.
From Stdlib.Strings Require Import Byte.
Import ListNotations.
Local Open Scope list_scope.
Local Open Scope string_scope.

(** ** Python string methods *)

Module PyStr.

(** Code points below 256 for which [str.isspace] is true:
    TAB, LF, VT, FF, CR, FS, GS, RS, US, SPACE, NEL and NBSP. *)
Definition is_space (c : ascii) : bool :=
  let n := nat_of_ascii c in
  (((9 <=? n) && (n <=? 13)) || ((28 <=? n) && (n <=? 32))
   || (n =? 133) || (n =? 160))%nat.

(** First and last character tests; both are false on the empty string. *)
Definition first_sat (p : ascii -> bool) (s : string) : bool :=
  match s with
  | EmptyString => false
  | String c _ => p c
  end.

Fixpoint last_sat (p : ascii -> bool) (s : string) : bool :=
  match s with
  | EmptyString => false
  | String c EmptyString => p c
  | String _ r => last_sat p r
  end.

(** [s.lstrip(chars)], with the character set given as a predicate. *)
Fixpoint lstrip_by (p : ascii -> bool) (s : string) : string :=
  match s with
  | EmptyString => EmptyString
  | String c r => if p c then lstrip_by p r else s
  end.

(** [s.rstrip(chars)]. *)
Fixpoint rstrip_by (p : ascii -> bool) (s : string) : string :=
  match s with
  | EmptyString => EmptyString
  | String c r =>
      match rstrip_by p r with
      | EmptyString => if p c then EmptyString else String c EmptyString
      | r' => String c r'
      end
  end.

(** [s.strip(chars)]: both ends. *)
Definition strip_by (p : ascii -> bool) (s : string) : string :=
  rstrip_by p (lstrip_by p s).

(** [s.strip()]. *)
Definition strip (s : string) : string := strip_by is_space s.

(** [s.strip("`")]. *)
Definition strip_chars (chars : string) (s : string) : string :=
  strip_by (fun c => existsb (Ascii.eqb c) (list_ascii_of_string chars)) s.

(** [s.startswith(p)]. *)
Fixpoint startswith (p s : string) : bool :=
  match p, s with
  | EmptyString, _ => true
  | String _ _, EmptyString => false
  | String a p', String b s' => Ascii.eqb a b && startswith p' s'
  end.

(** Drop the first [n] characters: [s[n:]]. *)
Fixpoint drop (n : nat) (s : string) : string :=
  match n, s with
  | O, _ => s
  | S _, EmptyString => EmptyString
  | S m, String _ r => drop m r
  end.

(** [s.removeprefix(p)]. *)
Definition removeprefix (p s : string) : string :=
  if startswith p s then drop (String.length p) s else s.

(** [s.endswith(suf)]. *)
Fixpoint endswith (suf s : string) : bool :=
  match s with
  | EmptyString => String.eqb suf EmptyString
  | String _ r => String.eqb s suf || endswith suf r
  end.

(** [s.removesuffix(suf)]. *)
Fixpoint removesuffix (suf s : string) : string :=
  match s with
  | EmptyString => EmptyString
  | String c r =>
      if String.eqb s suf then EmptyString
      else if endswith suf r then String c (removesuffix suf r)
      else s
  end.

(** [sub in s]. *)
Fixpoint contains (sub s : string) : bool :=
  match s with
  | EmptyString => String.eqb sub EmptyString
  | String _ r => startswith sub s || contains sub r
  end.

(** [s.split(sep)] for a non-empty separator: a left-to-right scan for
    non-overlapping occurrences.  [skip] counts the characters of a matched
    separator still to be passed over; [cur] is the segment being read, in
    reverse. *)
Definition of_rev (cur : list ascii) : string :=
  string_of_list_ascii (rev cur).

Fixpoint split_scan (sep : string) (skip : nat) (cur : list ascii)
    (s : string) : list string :=
  match s with
  | EmptyString => [of_rev cur]
  | String c r =>
      match skip with
      | S k => split_scan sep k cur r
      | O =>
          if startswith sep s
          then of_rev cur :: split_scan sep (String.length sep - 1) [] r
          else split_scan sep 0 (c :: cur) r
      end
  end.

Definition split (sep s : string) : list string := split_scan sep 0 [] s.

(** [s.split("\n")[0]]: the text before the first line feed. *)
Fixpoint first_line (s : string) : string :=
  match s with
  | EmptyString => EmptyString
  | String c r => if Ascii.eqb c "010" then EmptyString else String c (first_line r)
  end.

(** ASCII letters and their case mappings, as [str.title] needs them. *)
Definition is_upper (c : ascii) : bool :=
  let n := nat_of_ascii c in ((65 <=? n) && (n <=? 90))%nat.
Definition is_lower (c : ascii) : bool :=
  let n := nat_of_ascii c in ((97 <=? n) && (n <=? 122))%nat.
Definition to_upper (c : ascii) : ascii :=
  if is_lower c then ascii_of_nat (nat_of_ascii c - 32) else c.
Definition to_lower (c : ascii) : ascii :=
  if is_upper c then ascii_of_nat (nat_of_ascii c + 32) else c.

(** [s.title()] on ASCII text: a letter that follows a letter is lowered,
    any other letter is raised. *)
Fixpoint title_from (prev_cased : bool) (s : string) : string :=
  match s with
  | EmptyString => EmptyString
  | String c r =>
      let cased := is_upper c || is_lower c in
      String (if prev_cased then to_lower c else to_upper c) (title_from cased r)
  end.

Definition title (s : string) : string := title_from false s.

(** [str(n)] for an integer. *)
Definition str_of_int (n : Z) : string := NilZero.string_of_int (Z.to_int n).

End PyStr.

Import PyStr.

Definition LF : string := String "010" EmptyString.

(** ** Code normalizer ([Tools._run_code], lines 99-102) *)

Definition normalize (language code : string) : string :=
  let code := strip code in
  let code :=
    removesuffix "```"
      (removeprefix "```" (removeprefix ("```" ++ language) code)) in
  let code := strip code in
  strip (strip_chars "`" code).

(** ** Captured output: [str] or [bytes]

    [subprocess.run(..., text=True)] returns the two streams as [str].
    When the run times out, [TimeoutExpired.stderr] holds what was read
    until then as it was read: a [bytes] object on POSIX, whatever
    [text] says, or [None] when nothing was read.  The variable [output]
    of both files therefore holds a [str], a [bytes] or [None]. *)

Definition bytes : Type := list byte.

Inductive str_or_bytes : Type :=
| Str (s : string)
| Bytes (b : bytes).

(** The white space of [bytes.strip()]: space, TAB, LF, VT, FF and CR. *)
Definition is_bytes_space (c : ascii) : bool :=
  let n := nat_of_ascii c in
  (((9 <=? n) && (n <=? 13)) || (n =? 32))%nat.

(** [b.strip()]. *)
Definition bytes_strip (b : bytes) : bytes :=
  list_byte_of_string (strip_by is_bytes_space (string_of_list_byte b)).

Definition hex_digit (n : nat) : ascii :=
  nth n (list_ascii_of_string "0123456789abcdef") "0"%char.

(** One byte inside [repr(b)], for the quote character in use; ["092"] is
    the backslash. *)
Definition repr_byte (quote : ascii) (c : ascii) : string :=
  let n := nat_of_ascii c in
  if Ascii.eqb c quote || Ascii.eqb c "092"
  then String "092" (String c EmptyString)
  else if Ascii.eqb c "009" then String "092" "t"
  else if Ascii.eqb c "010" then String "092" "n"
  else if Ascii.eqb c "013" then String "092" "r"
  else if ((n <? 32) || (127 <=? n))%nat
  then String "092" (String "x" (String (hex_digit (n / 16))
                                   (String (hex_digit (n mod 16)) EmptyString)))
  else String c EmptyString.

(** [repr(b)], which is also [str(b)] and what an f-string shows: the
    bytes between single quotes (["039"]) after [b], or between double
    quotes (["034"]) when they hold a single quote and no double quote. *)
Definition repr_bytes (b : bytes) : string :=
  let l := list_ascii_of_string (string_of_list_byte b) in
  let quote : ascii :=
    if existsb (Ascii.eqb "039") l && negb (existsb (Ascii.eqb "034") l)
    then "034"%char else "039"%char in
  String "b" (String quote EmptyString)
  ++ String.concat "" (map (repr_byte quote) l)
  ++ String quote EmptyString.

(** [v.strip()]. *)
Definition strip_value (v : str_or_bytes) : str_or_bytes :=
  match v with
  | Str s => Str (strip s)
  | Bytes b => Bytes (bytes_strip b)
  end.

(** ** Exceptions, events and the host

    The exception classes the two files raise or catch.  All but the
    last derive from [Exception]; [BaseException] stands for one that
    does not ([KeyboardInterrupt], [SystemExit], [asyncio.CancelledError]),
    which [except Exception] does not catch. *)

Inductive exn : Type :=
| TimeoutExpired (stderr : option str_or_bytes) (text : string)
| CalledProcessError (returncode : Z) (cmd : list string)
    (stdout stderr : string) (text : string)
| RuntimeError (text : string)
| OtherException (text : string)
| BaseException (text : string).

(** [isinstance(e, Exception)]. *)
Definition is_Exception (e : exn) : bool :=
  match e with
  | BaseException _ => false
  | _ => true
  end.

(** [str(e)], as the f-strings use it. *)
Definition str_exn (e : exn) : string :=
  match e with
  | TimeoutExpired _ t => t
  | CalledProcessError _ _ _ _ t => t
  | RuntimeError t => t
  | OtherException t => t
  | BaseException t => t
  end.

(** [CodeExecutionTracker._result]: a dict with keys ["output"] and
    ["error"], kept in insertion order; a value is a [str], a [bytes] or
    [None]. *)
Definition dict : Type := list (string * option str_or_bytes).

Fixpoint dict_set (k : string) (v : option str_or_bytes) (d : dict) : dict :=
  match d with
  | [] => [(k, v)]
  | (k', v') :: r =>
      if String.eqb k' k then (k, v) :: r else (k', v') :: dict_set k v r
  end.

Definition dict_has (k : string) (d : dict) : bool :=
  existsb (fun kv => String.eqb (fst kv) k) d.

Definition dict_get (k : string) (d : dict) : option (option str_or_bytes) :=
  option_map snd (find (fun kv => String.eqb (fst kv) k) d).

(** The payload handed to the sink: [{"type": typ, "data": data}]. *)
Inductive event_data : Type :=
| StatusData (status description : string) (done : bool)
| MessageData (content : string)
| CitationData (id name code language : string) (result : option dict).

Record event : Type := Event { ev_type : string; ev_data : event_data }.

(** What one call of the sink does: it returns (a plain value, or an
    awaitable that the notifier awaits to a value), or it raises (in the
    call itself or while the awaitable is awaited). *)
Inductive sink_reply : Type :=
| Plain
| Awaited (value : option string)
| Raised (e : exn).

(** A sink sees the event and may depend on the events it received
    before. *)
Definition sink : Type := list event -> event -> sink_reply.

(** What [subprocess.run(..., check=False)] does: the process ends, or
    the time limit passes, or the call raises something else (an
    [OSError], a [UnicodeDecodeError]), all of which derive from
    [Exception]. *)
Inductive run_outcome : Type :=
| Completed (returncode : Z) (stdout stderr : string)
| TimedOut (stderr : option str_or_bytes) (text : string)
| RunRaised (text : string).

(** The transcript the action receives: [body.get("messages")] is [None]
    when the key is missing; a message is a dict with keys ["role"] and
    ["content"], both holding a [str].  (On a message without these keys,
    or whose content is no [str], lines 43-48 raise before the [try]
    statement is entered; such transcripts are outside this type.) *)
Record message : Type := { role : string; content : string }.
Record Body : Type := { messages : option (list message) }.

(** Everything outside the two classes that a request depends on. *)
Record Host : Type := {
  subprocess_run : list string -> string -> Z -> run_outcome;
  (** [tempfile.TemporaryDirectory]: [None] when the directory is made,
      the error text when it raises. *)
  mkdtemp : option string;
  sys_executable : option string;
  (** [str(id(self))] of the tracker the request creates. *)
  object_id : string;
  (** [str(e)] of the [CalledProcessError] built from an exit code and a
      command line. *)
  str_CalledProcessError : Z -> list string -> string;
  (** [str(body)] of the transcript dict. *)
  repr_body : Body -> string
}.

Record Valves : Type := {
  MAX_RUNTIME_SECONDS : Z;
  DEBUG : bool
}.

Definition default_valves : Valves :=
  {| MAX_RUNTIME_SECONDS := 30; DEBUG := false |}.

Definition str_bool (b : bool) : string := if b then "True" else "False".

(** [str(valves)] of the pydantic model. *)
Definition str_valves (v : Valves) : string :=
  "MAX_RUNTIME_SECONDS=" ++ str_of_int (MAX_RUNTIME_SECONDS v)
  ++ " DEBUG=" ++ str_bool (DEBUG v).

(** [f"{output}"]. *)
Definition str_opt (o : option str_or_bytes) : string :=
  match o with
  | Some (Str s) => s
  | Some (Bytes b) => repr_bytes b
  | None => "None"
  end.

(** Truth value of [output]: [None], [""] and [b""] are false. *)
Definition truthy_value (o : option str_or_bytes) : bool :=
  match o with
  | Some (Str (String _ _)) => true
  | Some (Bytes (_ :: _)) => true
  | _ => false
  end.

(** Truth value of an optional string: [None] and [""] are false. *)
Definition truthy (o : option string) : bool :=
  match o with
  | Some (String _ _) => true
  | _ => false
  end.

(** ** Execution tracker *)

Module CodeExecutionTracker.

Record t : Type := {
  _uuid : string;
  name : string;
  code : string;
  language : string;
  _result : dict
}.

Definition init (uuid name code language : string) : t :=
  {| _uuid := uuid; name := name; code := code; language := language;
     _result := [] |}.

Definition set_error (error : string) (self : t) : t :=
  {| _uuid := _uuid self; name := name self; code := code self;
     language := language self;
     _result := dict_set "error" (Some (Str error)) (_result self) |}.

Definition set_output (output : option str_or_bytes) (self : t) : t :=
  {| _uuid := _uuid self; name := name self; code := code self;
     language := language self;
     _result := dict_set "output" output (_result self) |}.

(** The payload carries the [_result] dict itself; it is modelled by its
    contents at the time of the call. *)
Definition _citation_data (self : t) : event_data :=
  CitationData (_uuid self) (name self) (code self) (language self)
    (if dict_has "output" (_result self) || dict_has "error" (_result self)
     then Some (_result self) else None).

End CodeExecutionTracker.

(** ** Request state and its monad

    One request owns an [EventEmitter] (the sink, the debug flag, the
    status prefix and the emitted-status flag), the local variable
    [execution_tracker], and is observed through the calls it makes to the
    sink and to [subprocess.run]. *)

Record EventEmitter : Type := {
  event_emitter : option sink;
  _debug : bool;
  _status_prefix : option string;
  _emitted_status : bool
}.

Record state : Type := {
  emitter : EventEmitter;
  execution_tracker : option CodeExecutionTracker.t;
  sink_calls : list event;
  spawned : list (list string * string * Z)
}.

Inductive res (A : Type) : Type :=
| Val (a : A)
| Exc (e : exn).
Arguments Val {A} a.
Arguments Exc {A} e.

Definition M (A : Type) : Type := state -> res A * state.

Definition ret {A} (a : A) : M A := fun st => (Val a, st).

Definition bind {A B} (c : M A) (k : A -> M B) : M B :=
  fun st =>
    match c st with
    | (Val a, st') => k a st'
    | (Exc e, st') => (Exc e, st')
    end.

Definition raise {A} (e : exn) : M A := fun st => (Exc e, st).

(** [try: c  except ...: handler e]; [handler e = None] when no [except]
    clause matches [e]. *)
Definition try_except {A} (c : M A) (handler : exn -> option (M A)) : M A :=
  fun st =>
    match c st with
    | (Val a, st') => (Val a, st')
    | (Exc e, st') =>
        match handler e with
        | Some h => h st'
        | None => (Exc e, st')
        end
    end.

(** The clause [except Exception as e: handler e]. *)
Definition except_Exception {A} (handler : exn -> M A) : exn -> option (M A) :=
  fun e => if is_Exception e then Some (handler e) else None.

Declare Scope monad_scope.
Delimit Scope monad_scope with monad.
Notation "x <- c ;; k" := (bind c (fun x => k))
  (at level 61, c at next level, right associativity) : monad_scope.
Notation "c ;; k" := (bind c (fun _ => k))
  (at level 61, right associativity) : monad_scope.
Local Open Scope monad_scope.

Definition get_emitter : M EventEmitter := fun st => (Val (emitter st), st).

Definition set_emitted_status (b : bool) : M unit :=
  fun st =>
    (Val tt,
     {| emitter := {| event_emitter := event_emitter (emitter st);
                      _debug := _debug (emitter st);
                      _status_prefix := _status_prefix (emitter st);
                      _emitted_status := b |};
        execution_tracker := execution_tracker st;
        sink_calls := sink_calls st;
        spawned := spawned st |}).

Definition get_tracker : M (option CodeExecutionTracker.t) :=
  fun st => (Val (execution_tracker st), st).

Definition set_tracker (t : option CodeExecutionTracker.t) : M unit :=
  fun st =>
    (Val tt,
     {| emitter := emitter st;
        execution_tracker := t;
        sink_calls := sink_calls st;
        spawned := spawned st |}).

(** One call [self.event_emitter({...})], awaited when it is awaitable;
    the value is [Some v] when [v] was awaited. *)
Definition call_sink (f : sink) (ev : event) : M (option (option string)) :=
  fun st =>
    let st' :=
      {| emitter := emitter st;
         execution_tracker := execution_tracker st;
         sink_calls := sink_calls st ++ [ev];
         spawned := spawned st |} in
    match f (sink_calls st) ev with
    | Plain => (Val None, st')
    | Awaited v => (Val (Some v), st')
    | Raised e => (Exc e, st')
    end.

(** [subprocess.run([interpreter, "/dev/stdin"], input=..., timeout=...)]. *)
Definition run_subprocess (h : Host) (argv : list string) (input : string)
    (timeout : Z) : M (Z * string * string) :=
  fun st =>
    let st' :=
      {| emitter := emitter st;
         execution_tracker := execution_tracker st;
         sink_calls := sink_calls st;
         spawned := spawned st ++ [(argv, input, timeout)] |} in
    match subprocess_run h argv input timeout with
    | Completed rc out err => (Val (rc, out, err), st')
    | TimedOut err text => (Exc (TimeoutExpired err text), st')
    | RunRaised text => (Exc (OtherException text), st')
    end.

(** [with tempfile.TemporaryDirectory(...)]: the body runs when the
    directory could be made. *)
Definition with_tmpdir {A} (h : Host) (body : M A) : M A :=
  match mkdtemp h with
  | None => body
  | Some text => raise (OtherException text)
  end.

(** [self._status_prefix = status_prefix]. *)
Definition put_status_prefix (p : option string) : M unit :=
  fun st =>
    (Val tt,
     {| emitter := {| event_emitter := event_emitter (emitter st);
                      _debug := _debug (emitter st);
                      _status_prefix := p;
                      _emitted_status := _emitted_status (emitter st) |};
        execution_tracker := execution_tracker st;
        sink_calls := sink_calls st;
        spawned := spawned st |}).

(** ** Event notifier: the methods of class [EventEmitter] *)

Module Emitter.

(** The loop of [_emit]; [result] is the last awaited value. *)
Fixpoint _emit_loop (n : nat) (f : sink) (ev : event) (result : option string)
    : M (option string) :=
  match n with
  | O => ret result
  | S k =>
      v <- call_sink f ev ;;
      _emit_loop k f ev (match v with Some r => r | None => result end)
  end.

(** The line printed on standard error in debug mode is no sink call and
    is left out. *)
Definition _emit (typ : string) (data : event_data) (twice : bool)
    : M (option string) :=
  self <- get_emitter ;;
  match event_emitter self with
  | None => ret None
  | Some f =>
      _emit_loop (if twice then 2 else 1) f
        {| ev_type := typ; ev_data := data |} None
  end.

(** [UnsafeCodeExecutionTool.py] tests the prefix for truth and
    [run_code.py] for [is not None]; both leave the description as it is
    for an empty prefix. *)
Definition status (description status_ : string) (done : bool) : M unit :=
  set_emitted_status true ;;
  self <- get_emitter ;;
  let description :=
    match _status_prefix self with
    | Some p => p ++ description
    | None => description
    end in
  _emit "status" (StatusData status_ description done)
    (negb done && (String.length description <=? 1024)%nat) ;;
  ret tt.

Definition fail (description : string) : M unit :=
  status description "error" true.

Definition clear_status : M unit :=
  self <- get_emitter ;;
  if negb (_emitted_status self) then ret tt
  else
    set_emitted_status false ;;
    _emit "status" (StatusData "complete" "" true) true ;;
    ret tt.

Definition message (content : string) : M unit :=
  _emit "message" (MessageData content) false ;;
  ret tt.

Definition code_execution (code_execution_tracker : CodeExecutionTracker.t)
    : M unit :=
  _emit "citation"
    (CodeExecutionTracker._citation_data code_execution_tracker) true ;;
  ret tt.

Definition set_status_prefix (status_prefix : option string) : M unit :=
  put_status_prefix status_prefix.

(** [status] as [UnsafeCodeExecutionTool.py] writes it (lines 220-234):
    the prefix is prepended when it is true, that is neither [None] nor
    empty. *)
Definition status_if_prefix (description status_ : string) (done : bool)
    : M unit :=
  set_emitted_status true ;;
  self <- get_emitter ;;
  let description :=
    match _status_prefix self with
    | Some (String c p) => String c p ++ description
    | _ => description
    end in
  _emit "status" (StatusData status_ description done)
    (negb done && (String.length description <=? 1024)%nat) ;;
  ret tt.

End Emitter.

(** The state a request starts in: [EventEmitter(event_emitter, debug)],
    no tracker yet. *)
Definition initial_state (event_emitter : option sink) (debug : bool) : state :=
  {| emitter := {| event_emitter := event_emitter; _debug := debug;
                   _status_prefix := None; _emitted_status := false |};
     execution_tracker := None;
     sink_calls := [];
     spawned := [] |}.

(** The [{status, output}] dict both variants return. *)
Record Result : Type := {
  res_status : string;
  res_output : option str_or_bytes
}.

(** [if output: output = output.strip()]. *)
Definition trim_output (output : option str_or_bytes) : option str_or_bytes :=
  if truthy_value output then option_map strip_value output else output.

(** Interpreter selection, the same in both files. *)
Definition interpreter_for (h : Host) (language : string) : option string :=
  if String.eqb language "bash" then Some "/bin/bash"
  else if String.eqb language "python" then sys_executable h
  else None.

Definition timed_out_text (valves : Valves) : string :=
  "Code timed out after " ++ str_of_int (MAX_RUNTIME_SECONDS valves)
  ++ " seconds".

(** The tracker variable is always bound where these two are used. *)
Definition tracker_update (f : CodeExecutionTracker.t -> CodeExecutionTracker.t)
    : M unit :=
  t <- get_tracker ;;
  set_tracker (option_map f t).

Definition publish_tracker : M unit :=
  t <- get_tracker ;;
  match t with
  | Some t => Emitter.code_execution t
  | None => ret tt
  end.

Definition debug_status (valves : Valves) (status : string)
    (output : option str_or_bytes) : M unit :=
  if DEBUG valves then
    Emitter.status
      ("[DEBUG MODE] status=" ++ status ++ "; output=" ++ str_opt output
       ++ "; valves=[" ++ str_valves valves ++ "]")
      (if String.eqb status "OK" then "complete" else "error") true
  else ret tt.

(** The final messages for [TIMEOUT] and [ERROR], the same text in both
    files; any other status raises. *)
Definition report_failure (valves : Valves) (language_title status : string)
    (output : option str_or_bytes) : M unit :=
  if String.eqb status "TIMEOUT" then
    if truthy_value output then
      Emitter.message
        (LF ++ LF ++ "---" ++ LF ++ "I executed this " ++ language_title
         ++ " code and it timed out after "
         ++ str_of_int (MAX_RUNTIME_SECONDS valves) ++ " seconds:" ++ LF
         ++ "```Error" ++ LF ++ str_opt output ++ LF ++ "```" ++ LF)
    else
      Emitter.message
        (LF ++ LF ++ "---" ++ LF ++ "I executed this " ++ language_title
         ++ " code and it timed out after "
         ++ str_of_int (MAX_RUNTIME_SECONDS valves) ++ " seconds." ++ LF)
  else if String.eqb status "ERROR" && truthy_value output then
    Emitter.message
      (LF ++ LF ++ "---" ++ LF ++ "I executed this " ++ language_title
       ++ " code and got the following error:" ++ LF ++ "```Error" ++ LF
       ++ str_opt output ++ LF ++ "```" ++ LF)
  else if String.eqb status "ERROR" then
    Emitter.message
      (LF ++ LF ++ "---" ++ LF ++ "I executed this " ++ language_title
       ++ " code but got an unexplained error." ++ LF)
  else
    raise (RuntimeError
             ("Unexplained status: " ++ status ++ " (output: "
              ++ str_opt output ++ ")")).

(** ** Direct invocation: [UnsafeCodeExecutionTool.py] *)

Module Tools.

(** [_fail]; [language] and [code] are the variables of [_run_code] as
    they stand when the handler runs. *)
Definition _fail (valves : Valves) (language code : string)
    (error_message status : string) : M Result :=
  t <- get_tracker ;;
  match t with
  | Some _ =>
      tracker_update (CodeExecutionTracker.set_error error_message) ;;
      publish_tracker
  | None => ret tt
  end ;;
  (if DEBUG valves then
     Emitter.fail
       ("[DEBUG MODE] " ++ error_message ++ "; language=" ++ language
        ++ "; code=" ++ code ++ "; valves=[" ++ str_valves valves ++ "]")
   else Emitter.fail error_message) ;;
  ret {| res_status := status; res_output := Some (Str error_message) |}.

(** Lines 120-143: run the interpreter and classify. *)
Definition execute (h : Host) (valves : Valves) (interpreter_path code : string)
    : M (string * option str_or_bytes) :=
  try_except
    (r <- run_subprocess h [interpreter_path; "/dev/stdin"] (code ++ LF)
           (MAX_RUNTIME_SECONDS valves) ;;
     let '(returncode, stdout, stderr) := r in
     if negb (returncode =? 0)%Z then ret ("ERROR", Some (Str stderr))
     else ret ("OK", Some (Str stdout)))
    (fun e =>
       match e with
       | TimeoutExpired stderr _ =>
           Some (Emitter.fail (timed_out_text valves) ;;
                 tracker_update
                   (CodeExecutionTracker.set_error (timed_out_text valves)) ;;
                 ret ("TIMEOUT", stderr))
       | _ => None
       end).

(** Lines 154-176: the final message; [output.strip()] in the f-string
    of the [OK] branch needs an [output] that is not [None]. *)
Definition final_message (valves : Valves) (language language_title code : string)
    (status : string) (output : option str_or_bytes) : M unit :=
  if String.eqb status "OK" then
    match output with
    | Some out =>
        Emitter.message
          (LF ++ "<details>" ++ LF ++ "<summary>Code Execution</summary>" ++ LF
           ++ "I executed the following " ++ language ++ " code:" ++ LF
           ++ "```" ++ language ++ LF ++ code ++ LF ++ "```" ++ LF
           ++ "```Output" ++ LF ++ str_opt (Some (strip_value out)) ++ LF
           ++ "```" ++ LF ++ "</details>" ++ LF)
    | None => raise (OtherException
                       "'NoneType' object has no attribute 'strip'")
    end
  else report_failure valves language_title status output.

(** Lines 104-182, after the code was normalized. *)
Definition run_normalized (h : Host) (valves : Valves)
    (language language_title code : string) : M Result :=
  set_tracker
    (Some (CodeExecutionTracker.init (object_id h)
             (language_title ++ " tool execution") code language)) ;;
  Emitter.clear_status ;;
  publish_tracker ;;
  with_tmpdir h
    (match interpreter_for h language with
     | Some (String c p) =>
         so <- execute h valves (String c p) code ;;
         let '(status, output) := so in
         let output := trim_output output in
         tracker_update (CodeExecutionTracker.set_output output) ;;
         publish_tracker ;;
         debug_status valves status output ;;
         final_message valves language language_title code status output ;;
         publish_tracker ;;
         ret {| res_status := status; res_output := output |}
     | _ =>
         raise (RuntimeError
                  ("Cannot find interpreter for language: " ++ language))
     end).

(** The [try] statement of [_run_code] on normalized code. *)
Definition run_core (h : Host) (valves : Valves) (language code : string)
    (event_emitter : option sink) : res Result * state :=
  try_except
    (run_normalized h valves language (title language) code)
    (except_Exception
       (fun e =>
          _fail valves language code
            ("Unhandled exception: " ++ str_exn e) "SANDBOX_ERROR"))
    (initial_state event_emitter (DEBUG valves)).

Definition _run_code (h : Host) (valves : Valves) (language code : string)
    (event_emitter : option sink) : res Result * state :=
  run_core h valves language (normalize language code) event_emitter.

(** The JSON object that [json.dumps] writes: keys in order, each value
    a string or [null]. *)
Definition json_object : Type := list (string * option string).

(** [json.dumps(obj, ensure_ascii=False)] on a dict of this shape: it
    raises [TypeError] on the first value that is a [bytes]. *)
Fixpoint json_dumps (obj : list (string * option str_or_bytes))
    : res json_object :=
  match obj with
  | [] => Val []
  | (k, Some (Bytes _)) :: _ =>
      Exc (OtherException "Object of type bytes is not JSON serializable")
  | (k, v) :: rest =>
      match json_dumps rest with
      | Val j =>
          Val ((k, match v with Some (Str s) => Some s | _ => None end) :: j)
      | Exc e => Exc e
      end
  end.

Definition run_bash_command (h : Host) (valves : Valves) (bash_command : string)
    (event_emitter : option sink) : res json_object * state :=
  match _run_code h valves "bash" bash_command event_emitter with
  | (Val result, st) =>
      (json_dumps [("bash_command", Some (Str bash_command));
                   ("status", Some (Str (res_status result)));
                   ("output", res_output result)], st)
  | (Exc e, st) => (Exc e, st)
  end.

Definition run_python_code (h : Host) (valves : Valves) (python_code : string)
    (event_emitter : option sink) : res json_object * state :=
  match _run_code h valves "python" python_code event_emitter with
  | (Val result, st) =>
      (json_dumps [("python_code", Some (Str python_code));
                   ("status", Some (Str (res_status result)));
                   ("output", res_output result)], st)
  | (Exc e, st) => (Exc e, st)
  end.

(** The debug utility of lines 295-331: the parsed options, the sink that
    prints each event, and [_local_run] on the text read from standard
    input; its value is the text handed to [print].  The [--debug] option
    is parsed and not used. *)
Record Args : Type := { arg_language : string; arg_debug : bool }.

Definition _dummy_emitter : sink := fun _ _ => Plain.

Definition _local_run (h : Host) (args : Args) (code : string)
    : res json_object * state :=
  if String.eqb (arg_language args) "bash"
  then run_bash_command h default_valves code (Some _dummy_emitter)
  else run_python_code h default_valves code (Some _dummy_emitter).

End Tools.

(** ** Transcript invocation: [open-webui/functions/run_code.py] *)

Module Action.

Definition _fail (h : Host) (valves : Valves) (body : Body)
    (error_message status : string) : M Result :=
  (if DEBUG valves then
     Emitter.fail
       ("[DEBUG MODE] " ++ error_message ++ "; body=" ++ repr_body h body
        ++ "; valves=[" ++ str_valves valves ++ "]")
   else Emitter.fail error_message) ;;
  ret {| res_status := status; res_output := Some (Str error_message) |}.

(** *** Source selector (lines 41-90) *)

Definition python_tagged (code_block : string) : bool :=
  startswith ("python" ++ LF) code_block
  || startswith ("python3" ++ LF) code_block.

Definition shell_tagged (code_block : string) : bool :=
  startswith ("bash" ++ LF) code_block
  || startswith ("sh" ++ LF) code_block
  || startswith ("shell" ++ LF) code_block.

(** [l[i], l[i-2], ...] while the index is positive. *)
Fixpoint slice_down (i : nat) (l : list string) : list string :=
  match i with
  | O => []
  | S O => [nth 1 l ""]
  | S (S j) => nth i l "" :: slice_down j l
  end.

(** [l[-2:0:-2]]. *)
Definition candidates (l : list string) : list string :=
  if (length l <? 2)%nat then [] else slice_down (length l - 2) l.

(** The [for] loop of lines 56-63 over the blocks still to visit;
    [chosen] holds [chosen_code_block] and [language]. *)
Fixpoint scan (blocks : list string) (chosen : option string * option string)
    : option string * option string :=
  match blocks with
  | [] => chosen
  | code_block :: rest =>
      if python_tagged code_block
      then scan rest (Some code_block, Some "python")
      else if shell_tagged code_block
      then (Some code_block, Some "bash")
      else scan rest chosen
  end.

(** Lines 65-86: the heuristics on the last block. *)
Definition fallback (last_code_block : string)
    (chosen : option string * option string) : option string * option string :=
  let first_line := first_line (strip last_code_block) in
  if startswith "#!" first_line
     && (endswith "python" first_line || endswith "python3" first_line)
  then (Some last_code_block, Some "python")
  else if startswith "#!" first_line && endswith "sh" first_line
  then (Some last_code_block, Some "bash")
  else if existsb (fun python_like => contains python_like last_code_block)
            ["import "; "print("; "print "]
  then (Some last_code_block, Some "python")
  else if existsb (fun bash_like => contains bash_like last_code_block)
            ["echo "; "if ["; "; do"; "esac" ++ LF]
  then (Some last_code_block, Some "bash")
  else chosen.

Definition select (split_three_backticks : list string)
    : option string * option string :=
  let chosen := scan (candidates split_three_backticks) (None, None) in
  if negb (truthy (fst chosen))
  then fallback (nth (length split_three_backticks - 2)
                   split_three_backticks "") chosen
  else chosen.

(** Lines 93-98. *)
Definition strip_marker (language : option string) (code : string) : string :=
  let code :=
    match language with
    | Some l =>
        if String.eqb l "python"
        then removeprefix "python" (removeprefix "python3" code)
        else if String.eqb l "bash"
        then removeprefix "sh" (removeprefix "bash" (removeprefix "shell" code))
        else code
    | None => code
    end in
  strip code.

(** *** Execution (lines 99-184) *)

(** Lines 108-144. *)
Definition execute (h : Host) (valves : Valves) (language language_title code : string)
    : M (string * option str_or_bytes) :=
  try_except
    (match interpreter_for h language with
     | Some (String c p) =>
         let interpreter_path := String c p in
         r <- run_subprocess h [interpreter_path; "/dev/stdin"] (code ++ LF)
                (MAX_RUNTIME_SECONDS valves) ;;
         let '(returncode, stdout, stderr) := r in
         if negb (returncode =? 0)%Z then
           raise (CalledProcessError returncode
                    [interpreter_path; "/dev/stdin"] stdout stderr
                    (str_CalledProcessError h returncode
                       [interpreter_path; "/dev/stdin"]))
         else ret ("OK", Some (Str stdout))
     | _ =>
         raise (RuntimeError
                  ("Cannot find interpreter for language: " ++ language))
     end)
    (fun e =>
       match e with
       | TimeoutExpired stderr _ =>
           Some (Emitter.fail (timed_out_text valves) ;;
                 tracker_update
                   (CodeExecutionTracker.set_error (timed_out_text valves)) ;;
                 ret ("TIMEOUT", stderr))
       | CalledProcessError _ _ _ stderr _ =>
           Some (Emitter.fail (language_title ++ ": " ++ str_exn e) ;;
                 tracker_update
                   (CodeExecutionTracker.set_error
                      (language_title ++ ": " ++ str_exn e)) ;;
                 ret ("ERROR", Some (Str stderr)))
       | _ => None
       end).

(** Lines 99-184 for a language and the code to run. *)
Definition run_normalized (h : Host) (valves : Valves)
    (language language_title code : string) : M Result :=
  set_tracker
    (Some (CodeExecutionTracker.init (object_id h)
             (language_title ++ " code block") code language)) ;;
  Emitter.clear_status ;;
  publish_tracker ;;
  with_tmpdir h
    (so <- execute h valves language language_title code ;;
     let '(status, output) := so in
     let output := trim_output output in
     tracker_update (CodeExecutionTracker.set_output output) ;;
     publish_tracker ;;
     debug_status valves status output ;;
     if String.eqb status "OK" then
       Emitter.message
         (LF ++ LF ++ "---" ++ LF ++ "I executed this " ++ language_title
          ++ " code and got:" ++ LF ++ "```Output" ++ LF ++ str_opt output
          ++ LF ++ "```" ++ LF) ;;
       ret {| res_status := status; res_output := output |}
     else
       report_failure valves language_title status output ;;
       ret {| res_status := status; res_output := output |}).

(** The [try] statement of [action] once a block and its language are
    chosen. *)
Definition run_core (h : Host) (valves : Valves) (body : Body)
    (language : option string) (code : string) (event_emitter : option sink)
    : res Result * state :=
  try_except
    (match language with
     | Some language =>
         run_normalized h valves language (title language) code
     | None =>
         raise (OtherException "'NoneType' object has no attribute 'title'")
     end)
    (except_Exception
       (fun e =>
          _fail h valves body
            ("Unhandled exception: " ++ str_exn e) "SANDBOX_ERROR"))
    (initial_state event_emitter (DEBUG valves)).

(** Lines 41-90: either the arguments of the [_fail] call that ends the
    request, or the chosen block and its language. *)
Definition source_selector (body : Body)
    : (string * string) + (string * option string) :=
  match messages body with
  | None | Some [] => inl ("No messages in conversation.", "INVALID_INPUT")
  | Some (m :: ms) =>
      let last_message := last (m :: ms) m in
      if negb (String.eqb (role last_message) "assistant") then
        inl ("Last message was not from the AI model.", "INVALID_INPUT")
      else
        let split_three_backticks := split "```" (content last_message) in
        if (length split_three_backticks <? 3)%nat
           || negb (length split_three_backticks mod 2 =? 1)%nat
        then
          inl ("Last message did not contain well-formed code blocks.",
               "INVALID_INPUT")
        else
          let '(chosen_code_block, language) := select split_three_backticks in
          match chosen_code_block with
          | Some (String c b) => inr (String c b, language)
          | _ =>
              inl ("Message does not contain code blocks detected as Python or Bash.",
                   "SANDBOX_ERROR")
          end
  end.

Definition action (h : Host) (valves : Valves) (body : Body)
    (event_emitter : option sink) : res Result * state :=
  match source_selector body with
  | inl (error_message, status) =>
      _fail h valves body error_message status
        (initial_state event_emitter (DEBUG valves))
  | inr (chosen_code_block, language) =>
      run_core h valves body language
        (strip_marker language chosen_code_block) event_emitter
  end.

End Action.

(** ** Sample hosts and sinks *)

Module Samples.

(** A host whose interpreter prints ["hello"] for every program. *)
Definition hello_host : Host :=
  {| subprocess_run := fun _ _ _ => Completed 0 ("hello" ++ LF) "";
     mkdtemp := None;
     sys_executable := Some "/usr/bin/python3";
     object_id := "140001";
     str_CalledProcessError := fun _ _ => "Command returned non-zero exit status.";
     repr_body := fun _ => "{...}" |}.

(** A host whose interpreter fails with ["boom"] on standard error. *)
Definition boom_host : Host :=
  {| subprocess_run := fun _ _ _ => Completed 1 "" ("boom" ++ LF);
     mkdtemp := None;
     sys_executable := Some "/usr/bin/python3";
     object_id := "140002";
     str_CalledProcessError := fun _ _ => "Command returned non-zero exit status 1.";
     repr_body := fun _ => "{...}" |}.

(** A host whose interpreter runs out of time. *)
Definition slow_host : Host :=
  {| subprocess_run := fun _ _ _ => TimedOut None "timed out";
     mkdtemp := None;
     sys_executable := Some "/usr/bin/python3";
     object_id := "140003";
     str_CalledProcessError := fun _ _ => "";
     repr_body := fun _ => "{...}" |}.

(** A host whose interpreter runs out of time after it wrote
    [" partial"] and a line feed on standard error. *)
Definition stalled_host : Host :=
  {| subprocess_run :=
       fun _ _ _ =>
         TimedOut (Some (Bytes (list_byte_of_string (" partial" ++ LF))))
           "timed out";
     mkdtemp := None;
     sys_executable := Some "/usr/bin/python3";
     object_id := "140004";
     str_CalledProcessError := fun _ _ => "";
     repr_body := fun _ => "{...}" |}.

Definition plain_sink : sink := fun _ _ => Plain.
Definition async_sink : sink := fun _ _ => Awaited None.

(** A sink whose transport is closed: every call raises. *)
Definition broken_sink : sink :=
  fun _ _ => Raised (OtherException "connection closed").

(** A sink that refuses status notifications. *)
Definition no_status_sink : sink :=
  fun _ ev =>
    if String.eqb (ev_type ev) "status"
    then Raised (OtherException "status refused") else Plain.

(** A sink that refuses message notifications. *)
Definition no_message_sink : sink :=
  fun _ ev =>
    if String.eqb (ev_type ev) "message"
    then Raised (OtherException "message refused") else Plain.

(** A sink whose awaited call is cancelled, every time. *)
Definition cancelled_sink : sink :=
  fun _ _ => Raised (BaseException "CancelledError").

Definition fenced (tag code : string) : string :=
  "```" ++ tag ++ LF ++ code ++ LF ++ "```".

Definition assistant_says (text : string) : Body :=
  {| messages := Some [{| role := "assistant"; content := text |}] |}.

End Samples.

Import Samples.

(** ** Vocabulary of the statements *)

(** *** Outcomes of steps

    [triple I c Q]: from a state that satisfies [I], running [c] ends in a
    state that satisfies [I] with an outcome that satisfies [Q]. *)
Definition triple {A} (I : state -> Prop) (c : M A) (Q : res A -> Prop) : Prop :=
  forall st, I st -> Q (fst (c st)) /\ I (snd (c st)).

(** The step ended normally, or raised when [E] allows a sink call to
    raise. *)
Definition ok_or {A} (E : Prop) (r : res A) : Prop :=
  match r with
  | Val _ => True
  | Exc _ => E
  end.

(** *** Sinks that return *)

(** The call came back to the notifier: a plain value or an awaited
    one. *)
Definition returns (r : sink_reply) : Prop :=
  match r with
  | Raised _ => False
  | _ => True
  end.

(** Once the sink received [log0], none of its later calls raises; an
    absent sink is never called. *)
Definition sink_returns_after (log0 : list event) (f : option sink) : Prop :=
  match f with
  | None => True
  | Some g => forall more ev, returns (g (log0 ++ more)%list ev)
  end.

(** The sink contract: no call raises. *)
Definition sink_returns (f : option sink) : Prop := sink_returns_after [] f.

(** The invariant that goes with [sink_returns_after]: the calls made so
    far extend [log0]. *)
Definition quiet (log0 : list event) (st : state) : Prop :=
  (exists more, sink_calls st = (log0 ++ more)%list)
  /\ sink_returns_after log0 (event_emitter (emitter st)).

(** Every interpreter run of the request was fed [input]. *)
Definition fed (input : string) (st : state) : Prop :=
  Forall (fun call => snd (fst call) = input) (spawned st).

(** *** Classification of a request

    What a request returns when no sink call raises, as a function of the
    host alone: the directory, the interpreter, the run. *)

(** The result the outermost handler builds for an exception. *)
Definition sandbox_error (text : string) : Result :=
  {| res_status := "SANDBOX_ERROR";
     res_output := Some (Str ("Unhandled exception: " ++ text)) |}.

(** Status and untrimmed output of a run that ended or timed out. *)
Definition exec_value (o : run_outcome)
    : option (string * option str_or_bytes) :=
  match o with
  | Completed rc out err =>
      Some (if (rc =? 0)%Z then ("OK", Some (Str out))
            else ("ERROR", Some (Str err)))
  | TimedOut err _ => Some ("TIMEOUT", err)
  | RunRaised _ => None
  end.

Definition classify (o : run_outcome) : Result :=
  match o with
  | Completed rc out err =>
      if (rc =? 0)%Z
      then {| res_status := "OK"; res_output := trim_output (Some (Str out)) |}
      else {| res_status := "ERROR";
              res_output := trim_output (Some (Str err)) |}
  | TimedOut err _ =>
      {| res_status := "TIMEOUT"; res_output := trim_output err |}
  | RunRaised text => sandbox_error text
  end.

Definition outcome (h : Host) (valves : Valves) (language code : string)
    : Result :=
  match mkdtemp h with
  | Some text => sandbox_error text
  | None =>
      match interpreter_for h language with
      | Some (String c p) =>
          classify (subprocess_run h [String c p; "/dev/stdin"] (code ++ LF)
                      (MAX_RUNTIME_SECONDS valves))
      | _ => sandbox_error ("Cannot find interpreter for language: " ++ language)
      end
  end.

(** The body of the [try] returns the target, or raises an exception
    that the handler catches and whose report is the target, or a sink
    call raised. *)
Definition body_post (E : Prop) (target : Result) (r : res Result) : Prop :=
  match r with
  | Val x => x = target
  | Exc e =>
      E \/ (is_Exception e = true /\ sandbox_error (str_exn e) = target)
  end.

(** The request returns the target, or the report of a sink failure, or
    a sink call of the handler raised. *)
Definition run_post (E : Prop) (target : Result) (r : res Result) : Prop :=
  match r with
  | Val x => x = target \/ (E /\ res_status x = "SANDBOX_ERROR")
  | Exc _ => E
  end.

(** [execute] returns the status and output of the run, or raises what
    the run raised, or a sink call raised. *)
Definition exec_post (E : Prop) (o : run_outcome)
    (r : res (string * option str_or_bytes)) : Prop :=
  match r with
  | Val so => exec_value o = Some so
  | Exc e =>
      E \/ (is_Exception e = true /\ sandbox_error (str_exn e) = classify o)
  end.

(** The body of the inner [try] of [Tools.execute], before its handlers. *)
Definition raw_post (o : run_outcome)
    (r : res (string * option str_or_bytes)) : Prop :=
  match o with
  | Completed rc out err =>
      r = Val (if (rc =? 0)%Z then ("OK", Some (Str out))
               else ("ERROR", Some (Str err)))
  | TimedOut err text => r = Exc (TimeoutExpired err text)
  | RunRaised text => r = Exc (OtherException text)
  end.

(** The two [_fail] helpers return their arguments when the sink lets
    them report. *)
Definition fail_post (E : Prop) (status error_message : string)
    (r : res Result) : Prop :=
  match r with
  | Val x =>
      x = {| res_status := status; res_output := Some (Str error_message) |}
  | Exc _ => E
  end.

(** The directory was made, an interpreter was found, and the run ended
    as [o]. *)
Definition reaches_subprocess (h : Host) (valves : Valves)
    (language code : string) (o : run_outcome) : Prop :=
  mkdtemp h = None
  /\ exists c p,
       interpreter_for h language = Some (String c p)
       /\ subprocess_run h [String c p; "/dev/stdin"] (code ++ LF)
            (MAX_RUNTIME_SECONDS valves) = o.

(** White space by character code: what [str.strip()] removes among
    the code points below 256, and what [bytes.strip()] removes. *)
Definition str_blanks : list nat :=
  [9; 10; 11; 12; 13; 28; 29; 30; 31; 32; 133; 160]%nat.

Definition bytes_blanks : list nat := [9; 10; 11; 12; 13; 32]%nat.

(** [out] is [s] without the blank characters at its two ends: what was
    cut off is blank, and [out] neither starts nor ends with a blank. *)
Definition trimmed_of (blanks : list nat) (s out : string) : Prop :=
  exists before after,
    s = before ++ out ++ after
    /\ Forall (fun c => In (nat_of_ascii c) blanks) (list_ascii_of_string before)
    /\ Forall (fun c => In (nat_of_ascii c) blanks) (list_ascii_of_string after)
    /\ (forall c r, out = String c r -> ~ In (nat_of_ascii c) blanks)
    /\ (forall r c, out = r ++ String c "" -> ~ In (nat_of_ascii c) blanks).

(** The returned [output] for a captured one: [None] stays [None], a
    [str] is trimmed of the white space of [str], a [bytes] of the white
    space of [bytes]. *)
Definition trimmed_output (captured output : option str_or_bytes) : Prop :=
  match captured, output with
  | None, None => True
  | Some (Str s), Some (Str out) => trimmed_of str_blanks s out
  | Some (Bytes b), Some (Bytes out) =>
      trimmed_of bytes_blanks (string_of_list_byte b) (string_of_list_byte out)
  | _, _ => False
  end.

(** The request returned, with the status and the output the outcome of
    the run calls for: OK exactly for exit code 0, with the standard
    output; ERROR for another exit code, with the standard error; TIMEOUT
    with what was captured of the standard error; the output trimmed. *)
Definition classified_as (o : run_outcome) (r : res Result) : Prop :=
  exists x,
    r = Val x
    /\ (res_status x = "OK" <-> exists out err, o = Completed 0 out err)
    /\ match o with
       | Completed rc out err =>
           if (rc =? 0)%Z
           then res_status x = "OK"
                /\ trimmed_output (Some (Str out)) (res_output x)
           else res_status x = "ERROR"
                /\ trimmed_output (Some (Str err)) (res_output x)
       | TimedOut err _ =>
           res_status x = "TIMEOUT" /\ trimmed_output err (res_output x)
       | RunRaised text => res_status x = "SANDBOX_ERROR"
       end.

Definition final_statuses : list string :=
  ["OK"; "ERROR"; "TIMEOUT"; "INVALID_INPUT"; "SANDBOX_ERROR"].

(** *** Notifications *)

Definition citation_event (t : CodeExecutionTracker.t) : event :=
  {| ev_type := "citation"; ev_data := CodeExecutionTracker._citation_data t |}.

Definition message_event (content : string) : event :=
  {| ev_type := "message"; ev_data := MessageData content |}.

Definition complete_event : event :=
  {| ev_type := "status"; ev_data := StatusData "complete" "" true |}.

Definition fresh_tracker : CodeExecutionTracker.t :=
  CodeExecutionTracker.init "140001" "Python tool execution" "print(1)" "python".

(** A notifier that has emitted one status. *)
Definition after_status : state :=
  snd (Emitter.status "Running" "in_progress" false
         (initial_state (Some plain_sink) false)).

(** *** Normalizer *)

Definition is_backtick (c : ascii) : bool := Ascii.eqb c "`".

(** A backtick, a space, a backtick and a letter. *)
Definition nested_backticks : string := "` `a".

(** [f] only removes characters: its result is no longer than its
    argument, and as long only when nothing was removed. *)
Definition shrinks (f : string -> string) : Prop :=
  forall s,
    (String.length (f s) <= String.length s)%nat
    /\ (String.length (f s) = String.length s -> f s = s).

(** Lines 99-101: the steps of [normalize] before the backticks are
    stripped. *)
Definition unfence (language code : string) : string :=
  strip (removesuffix "```"
           (removeprefix "```" (removeprefix ("```" ++ language) (strip code)))).

(** *** Transcripts *)

(** The code blocks of a split message, oldest first: the segments at the
    odd positions. *)
Fixpoint code_blocks (l : list string) : list string :=
  match l with
  | _ :: b :: r => b :: code_blocks r
  | _ => []
  end.

Definition no_shell (l : list string) : Prop :=
  Forall (fun x => Action.shell_tagged x = false) l.

Definition no_python (l : list string) : Prop :=
  Forall (fun x => Action.python_tagged x = false) l.

(** A transcript that passes the checks of lines 41-53, with the segments
    of its last message. *)
Definition well_formed (body : Body) (segments : list string) : Prop :=
  exists m ms,
    messages body = Some (m :: ms)
    /\ role (last (m :: ms) m) = "assistant"
    /\ segments = split "```" (content (last (m :: ms) m))
    /\ (3 <= length segments)%nat
    /\ (length segments mod 2 = 1)%nat.

Definition boom_transcript : Body :=
  assistant_says (fenced "python" "import sys; sys.exit('boom')").

(** A well-fenced block with no language tag, no shebang and none of the
    tokens the heuristics look for. *)
Definition unrecognized_transcript : Body :=
  assistant_says (fenced "" "hello").

Definition block_A : string := "python" ++ LF ++ "print('A')" ++ LF.
Definition block_B : string := "python" ++ LF ++ "print('B')" ++ LF.
Definition block_sh : string := "bash" ++ LF ++ "echo hi" ++ LF.

(** Two Python blocks, [block_A] before [block_B]. *)
Definition two_python_blocks : Body :=
  assistant_says ("First:" ++ "```" ++ block_A ++ "```" ++ "then:"
                  ++ "```" ++ block_B ++ "```").

(** A shell block between two Python blocks. *)
Definition shell_between_python : Body :=
  assistant_says ("```" ++ block_A ++ "```" ++ "or" ++ "```" ++ block_sh
                  ++ "```" ++ "or" ++ "```" ++ block_B ++ "```").

(** *** Notifier and tracker, further vocabulary *)

Definition status_event (status_ description : string) (done : bool) : event :=
  {| ev_type := "status"; ev_data := StatusData status_ description done |}.

(** The [result] entry of a citation payload, when it has one. *)
Definition citation_result (d : event_data) : option dict :=
  match d with
  | CitationData _ _ _ _ r => r
  | _ => None
  end.

(** The description as [status] sends it: after the prefix, if one is
    set. *)
Definition prefixed (st : state) (description : string) : string :=
  match _status_prefix (emitter st) with
  | Some p => p ++ description
  | None => description
  end.

(** What [action] returns when no sink call raises: the arguments of the
    rejection, or the classified outcome of the chosen block. *)
Definition action_outcome (h : Host) (valves : Valves) (body : Body) : Result :=
  match Action.source_selector body with
  | inl (error_message, status) =>
      {| res_status := status; res_output := Some (Str error_message) |}
  | inr (chosen_code_block, Some language) =>
      outcome h valves language
        (Action.strip_marker (Some language) chosen_code_block)
  | inr (_, None) =>
      sandbox_error "'NoneType' object has no attribute 'title'"
  end.

(** [c] runs the interpreter at most [n] times. *)
Definition spawns {A} (n : nat) (c : M A) : Prop :=
  forall st,
    exists l, spawned (snd (c st)) = (spawned st ++ l)%list
              /\ (length l <= n)%nat.

(** No interpreter can be run for the language on this host. *)
Definition no_interpreter (h : Host) (language : string) : Prop :=
  interpreter_for h language = None \/ interpreter_for h language = Some "".

(** The description [Action._fail] sends. *)
Definition rejection_text (h : Host) (valves : Valves) (body : Body)
    (error_message : string) : string :=
  if DEBUG valves
  then "[DEBUG MODE] " ++ error_message ++ "; body=" ++ repr_body h body
       ++ "; valves=[" ++ str_valves valves ++ "]"
  else error_message.

(** *** Requests observed step by step *)

(** A sink none of whose calls raises. *)
Definition always_returns (g : sink) : Prop :=
  forall log ev, returns (g log ev).

(** A request state with a sink and no status prefix. *)
Definition St (g : sink) (debug flag : bool)
    (t : option CodeExecutionTracker.t) (calls : list event)
    (runs : list (list string * string * Z)) : state :=
  {| emitter := {| event_emitter := Some g; _debug := debug;
                   _status_prefix := None; _emitted_status := flag |};
     execution_tracker := t;
     sink_calls := calls;
     spawned := runs |}.

(** The types of the notifications sent, in order. *)
Definition notified (st : state) : list string := map ev_type (sink_calls st).

Definition timed_out (o : run_outcome) : bool :=
  match o with
  | TimedOut _ _ => true
  | _ => false
  end.

Definition exited_nonzero (o : run_outcome) : bool :=
  match o with
  | Completed rc _ _ => negb (rc =? 0)%Z
  | _ => false
  end.

(** The run ended or timed out: [subprocess.run] raised nothing else. *)
Definition ran (o : run_outcome) : Prop :=
  match o with
  | RunRaised _ => False
  | _ => True
  end.

(** The output a run leaves: standard output on exit code 0, standard
    error otherwise, trimmed. *)
Definition run_output (o : run_outcome) : option str_or_bytes :=
  match o with
  | Completed rc out err =>
      trim_output (Some (Str (if (rc =? 0)%Z then out else err)))
  | TimedOut err _ => trim_output err
  | RunRaised _ => None
  end.

(** The tracker the direct variant creates. *)
Definition tools_tracker (h : Host) (language code : string)
    : CodeExecutionTracker.t :=
  CodeExecutionTracker.init (object_id h)
    (title language ++ " tool execution") code language.

(** The tracker the transcript variant creates. *)
Definition action_tracker (h : Host) (language code : string)
    : CodeExecutionTracker.t :=
  CodeExecutionTracker.init (object_id h)
    (title language ++ " code block") code language.

(** The description of the status that [debug_status] sends. *)
Definition debug_text (valves : Valves) (status : string)
    (output : option str_or_bytes) : string :=
  "[DEBUG MODE] status=" ++ status ++ "; output=" ++ str_opt output
  ++ "; valves=[" ++ str_valves valves ++ "]".

(** The tracker once the run was recorded in it: the timeout text under
    ["error"] when the run timed out, then the output. *)
Definition tools_recorded (valves : Valves) (o : run_outcome)
    (t : CodeExecutionTracker.t) : CodeExecutionTracker.t :=
  CodeExecutionTracker.set_output (run_output o)
    (if timed_out o
     then CodeExecutionTracker.set_error (timed_out_text valves) t
     else t).

(** The notifications of a request of the direct variant whose run ended
    as [o], given the text of its final message. *)
Definition tools_notifications (h : Host) (valves : Valves)
    (language code : string) (o : run_outcome) (status content : string)
    : list event :=
  let t0 := tools_tracker h language code in
  let t1 := tools_recorded valves o t0 in
  ([citation_event t0; citation_event t0]
   ++ (if timed_out o
       then [status_event "error" (timed_out_text valves) true] else [])
   ++ [citation_event t1; citation_event t1]
   ++ (if DEBUG valves
       then [status_event (if String.eqb status "OK" then "complete" else "error")
               (debug_text valves status (run_output o)) true]
       else [])
   ++ [message_event content; citation_event t1; citation_event t1])%list.

(** The error text the transcript variant reports for a run: the timeout
    text, or the text of the [CalledProcessError] it raises for an exit
    code other than 0. *)
Definition action_failure_text (h : Host) (valves : Valves)
    (language_title interpreter_path : string) (o : run_outcome)
    : option string :=
  match o with
  | TimedOut _ _ => Some (timed_out_text valves)
  | Completed rc _ _ =>
      if (rc =? 0)%Z then None
      else Some (language_title ++ ": "
                 ++ str_CalledProcessError h rc
                      [interpreter_path; "/dev/stdin"])
  | RunRaised _ => None
  end.

Definition action_recorded (failure : option string) (o : run_outcome)
    (t : CodeExecutionTracker.t) : CodeExecutionTracker.t :=
  CodeExecutionTracker.set_output (run_output o)
    (match failure with
     | Some e => CodeExecutionTracker.set_error e t
     | None => t
     end).

(** The notifications of a request of the transcript variant whose run
    ended as [o], given the text of its final message. *)
Definition action_notifications (h : Host) (valves : Valves)
    (language code interpreter_path : string) (o : run_outcome)
    (status content : string) : list event :=
  let t0 := action_tracker h language code in
  let failure :=
    action_failure_text h valves (title language) interpreter_path o in
  let t1 := action_recorded failure o t0 in
  ([citation_event t0; citation_event t0]
   ++ (match failure with
       | Some e => [status_event "error" e true]
       | None => []
       end)
   ++ [citation_event t1; citation_event t1]
   ++ (if DEBUG valves
       then [status_event (if String.eqb status "OK" then "complete" else "error")
               (debug_text valves status (run_output o)) true]
       else [])
   ++ [message_event content])%list.

(** The types of the notifications of a request whose run ended, in
    order; [failed] says whether an error status reports the run. *)
Definition protocol (failed debug : bool) (closing : list string)
    : list string :=
  (["citation"; "citation"]
   ++ (if failed then ["status"] else [])
   ++ ["citation"; "citation"]
   ++ (if debug then ["status"] else [])
   ++ "message" :: closing)%list.

(** A text in which no fence starts: it holds no three backticks in a
    row and does not end in a backtick, so that a fence put after it
    starts where the text ends. *)
Definition fence_free (s : string) : bool :=
  negb (contains "```" s) && negb (last_sat is_backtick s).

(** The language markers of lines 57 and 60 with the language each one
    selects. *)
Definition fence_tags : list (string * string) :=
  [("python", "python"); ("python3", "python");
   ("bash", "bash"); ("sh", "bash"); ("shell", "bash")].

(** A conversation that ends with a message of the assistant. *)
Definition reply (earlier : list message) (text : string) : Body :=
  {| messages :=
       Some (earlier ++ [{| role := "assistant"; content := text |}])%list |}.

(** A message of the assistant with one fenced block. *)
Definition one_block (pre block post : string) : string :=
  pre ++ "```" ++ block ++ "```" ++ post.

(** The text before the first fence of [s], or all of [s] when it has
    none. *)
Fixpoint before_fence (s : string) : string :=
  match s with
  | EmptyString => EmptyString
  | String c r =>
      if startswith "```" s then EmptyString else String c (before_fence r)
  end.

(** *** The report of the outermost handler *)

(** The exception of the first call that raises when [evs] are sent in
    order to a sink that received [log] so far; [None] when every call
    returns, or when there is no sink. *)
Fixpoint first_raise (f : option sink) (log evs : list event) {struct evs}
    : option exn :=
  match f, evs with
  | Some g, ev :: rest =>
      match g log ev with
      | Raised e => Some e
      | _ => first_raise f (log ++ [ev])%list rest
      end
  | _, _ => None
  end.

(** The notifications [Tools._fail] sends for [error_message] from the
    state [st]: the citation of the tracker with the error recorded,
    twice, when a tracker exists; then the error status. *)
Definition Tools_report (valves : Valves) (language code error_message : string)
    (st : state) : list event :=
  (match execution_tracker st with
   | Some t =>
       [citation_event (CodeExecutionTracker.set_error error_message t);
        citation_event (CodeExecutionTracker.set_error error_message t)]
   | None => []
   end
   ++ [status_event "error"
         (prefixed st
            (if DEBUG valves
             then "[DEBUG MODE] " ++ error_message ++ "; language=" ++ language
                  ++ "; code=" ++ code ++ "; valves=[" ++ str_valves valves
                  ++ "]"
             else error_message))
         true])%list.

(** The one notification [Action._fail] sends. *)
Definition Action_report (h : Host) (valves : Valves) (body : Body)
    (error_message : string) (st : state) : list event :=
  [status_event "error"
     (prefixed st (rejection_text h valves body error_message)) true].

(** What the [try] statement gives once its body raised [e], given the
    exception, if any, that the sink raised while the handler reported:
    [except Exception] does not catch an [e] that is no [Exception]. *)
Definition handled (e : exn) (report : option exn) : res Result :=
  if is_Exception e then
    match report with
    | None => Val (sandbox_error (str_exn e))
    | Some e' => Exc e'
    end
  else Exc e.

(** *** Interpreter runs of a request whose sink returns *)

(** From a state whose sink returns from every call, [c] makes exactly
    the interpreter runs [l]. *)
Definition runs {A} (l : list (list string * string * Z)) (c : M A) : Prop :=
  forall st, quiet [] st -> spawned (snd (c st)) = (spawned st ++ l)%list.

(** A request state given by its fields. *)
Definition state_of (f : option sink) (debug : bool) (prefix : option string)
    (flag : bool) (t : option CodeExecutionTracker.t) (calls : list event)
    (runs : list (list string * string * Z)) : state :=
  {| emitter := {| event_emitter := f; _debug := debug;
                   _status_prefix := prefix; _emitted_status := flag |};
     execution_tracker := t;
     sink_calls := calls;
     spawned := runs |}.

(** The calls a sink has received once [evs] were sent to it; no call is
    made without a sink. *)
Definition sent (f : option sink) (calls evs : list event) : list event :=
  match f with
  | Some _ => (calls ++ evs)%list
  | None => calls
  end.

(** The notifier still has the sink [f] and no status prefix. *)
Definition keeps_sink (f : option sink) (st : state) : Prop :=
  event_emitter (emitter st) = f /\ _status_prefix (emitter st) = None.

(** ** Reasoning about requests *)

Section Triples.

Context (I : state -> Prop).

Lemma triple_ret {A} (a : A) (Q : res A -> Prop) :
  Q (Val a) -> triple I (ret a) Q.
Proof. intros HQ st HI. split; assumption. Qed.

Lemma triple_raise {A} (e : exn) (Q : res A -> Prop) :
  Q (Exc e) -> triple I (raise e) Q.
Proof. intros HQ st HI. split; assumption. Qed.

Lemma triple_weaken {A} (c : M A) (Q Q' : res A -> Prop) :
  triple I c Q -> (forall r, Q r -> Q' r) -> triple I c Q'.
Proof.
  intros Hc Himp st HI. destruct (Hc st HI) as [HQ HI']. auto.
Qed.

Lemma triple_bind {A B} (c : M A) (k : A -> M B) (R : res A -> Prop)
    (Q : res B -> Prop) :
  triple I c R ->
  (forall a, R (Val a) -> triple I (k a) Q) ->
  (forall e, R (Exc e) -> Q (Exc e)) ->
  triple I (bind c k) Q.
Proof.
  intros Hc Hk He st HI. unfold bind.
  destruct (Hc st HI) as [HR HI'].
  destruct (c st) as [[a | e] st']; cbn [fst snd] in *.
  - exact (Hk a HR st' HI').
  - split; auto.
Qed.

Lemma triple_try {A} (c : M A) (handler : exn -> option (M A))
    (R Q : res A -> Prop) :
  triple I c R ->
  (forall a, R (Val a) -> Q (Val a)) ->
  (forall e, R (Exc e) ->
     match handler e with
     | Some hd => triple I hd Q
     | None => Q (Exc e)
     end) ->
  triple I (try_except c handler) Q.
Proof.
  intros Hc Hv He st HI. unfold try_except.
  destruct (Hc st HI) as [HR HI'].
  destruct (c st) as [[a | e] st']; cbn [fst snd] in *.
  - split; auto.
  - specialize (He e HR). destruct (handler e) as [hd |].
    + exact (He st' HI').
    + split; auto.
Qed.

Lemma triple_with_tmpdir {A} (h : Host) (body : M A) (Q : res A -> Prop) :
  (mkdtemp h = None -> triple I body Q) ->
  (forall text, mkdtemp h = Some text -> Q (Exc (OtherException text))) ->
  triple I (with_tmpdir h body) Q.
Proof.
  intros Hb He. unfold with_tmpdir. destruct (mkdtemp h) as [text |].
  - apply triple_raise. auto.
  - auto.
Qed.

End Triples.

(** With no assumption on the state, nothing is known of an outcome. *)
Lemma triple_any {A} (c : M A) :
  triple (fun _ => True) c (fun _ => True).
Proof. intros st _. split; exact Logic.I. Qed.

(** *** Notifier and tracker steps under an invariant

    [I] is any invariant that the sink calls, the flag and the tracker
    variable keep.  [E] says whether a sink call may raise: the steps end
    normally, or raise when [E]. *)

Lemma ok_or_unit (E : Prop) (r : res unit) :
  ok_or E r -> forall Q : res unit -> Prop,
  Q (Val tt) -> (forall e, E -> Q (Exc e)) -> Q r.
Proof. destruct r as [[] | e]; cbn; auto. Qed.

Section Steps.

Context (I : state -> Prop) (E : Prop).

Hypothesis emit_ok : forall typ data twice,
  triple I (Emitter._emit typ data twice) (ok_or E).
Hypothesis flag_ok : forall b st, I st -> I (snd (set_emitted_status b st)).
Hypothesis tracker_ok : forall t st, I st -> I (snd (set_tracker t st)).

Lemma set_emitted_status_ok (b : bool) :
  triple I (set_emitted_status b) (ok_or E).
Proof. intros st HI. split; [exact Logic.I | apply flag_ok, HI]. Qed.

Lemma set_tracker_ok (t : option CodeExecutionTracker.t) :
  triple I (set_tracker t) (ok_or E).
Proof. intros st HI. split; [exact Logic.I | apply tracker_ok, HI]. Qed.

Lemma get_emitter_ok : triple I get_emitter (ok_or False).
Proof. intros st HI. split; [exact Logic.I | exact HI]. Qed.

Lemma get_tracker_ok : triple I get_tracker (ok_or False).
Proof. intros st HI. split; [exact Logic.I | exact HI]. Qed.

Lemma seq_ok {A B} (c : M A) (k : A -> M B) :
  triple I c (ok_or E) -> (forall a, triple I (k a) (ok_or E)) ->
  triple I (bind c k) (ok_or E).
Proof.
  intros Hc Hk. eapply triple_bind; [exact Hc | intros a _; apply Hk |].
  intros e He. exact He.
Qed.

Lemma read_ok {A B} (c : M A) (k : A -> M B) :
  triple I c (ok_or False) -> (forall a, triple I (k a) (ok_or E)) ->
  triple I (bind c k) (ok_or E).
Proof.
  intros Hc Hk. eapply triple_bind; [exact Hc | intros a _; apply Hk |].
  intros e He. destruct He.
Qed.

Lemma ret_ok {A} (a : A) : triple I (ret a) (ok_or E).
Proof. apply triple_ret. exact Logic.I. Qed.

Lemma emit_unit_ok (typ : string) (data : event_data) (twice : bool) :
  triple I (Emitter._emit typ data twice ;; ret tt) (ok_or E).
Proof. apply seq_ok; [apply emit_ok | intro; apply ret_ok]. Qed.

Lemma status_ok (description status_ : string) (done : bool) :
  triple I (Emitter.status description status_ done) (ok_or E).
Proof.
  unfold Emitter.status. apply seq_ok; [apply set_emitted_status_ok |].
  intros _. apply read_ok; [apply get_emitter_ok |].
  intros self. apply emit_unit_ok.
Qed.

Lemma fail_ok (description : string) :
  triple I (Emitter.fail description) (ok_or E).
Proof. apply status_ok. Qed.

Lemma clear_status_ok : triple I Emitter.clear_status (ok_or E).
Proof.
  unfold Emitter.clear_status. apply read_ok; [apply get_emitter_ok |].
  intros self. destruct (negb (_emitted_status self)).
  - apply ret_ok.
  - apply seq_ok; [apply set_emitted_status_ok |].
    intros _. apply emit_unit_ok.
Qed.

Lemma message_ok (content : string) :
  triple I (Emitter.message content) (ok_or E).
Proof. apply emit_unit_ok. Qed.

Lemma code_execution_ok (t : CodeExecutionTracker.t) :
  triple I (Emitter.code_execution t) (ok_or E).
Proof. apply emit_unit_ok. Qed.

Lemma tracker_update_ok f : triple I (tracker_update f) (ok_or E).
Proof.
  unfold tracker_update. apply read_ok; [apply get_tracker_ok |].
  intros t. apply set_tracker_ok.
Qed.

Lemma publish_tracker_ok : triple I publish_tracker (ok_or E).
Proof.
  unfold publish_tracker. apply read_ok; [apply get_tracker_ok |].
  intros [t |]; [apply code_execution_ok | apply ret_ok].
Qed.

Lemma debug_status_ok valves status output :
  triple I (debug_status valves status output) (ok_or E).
Proof.
  unfold debug_status. destruct (DEBUG valves);
    [apply status_ok | apply ret_ok].
Qed.

(** A step that ends normally or raises as [E] allows, followed by the
    rest of the request. *)
Lemma then_ok {B} (c : M unit) (k : M B) (Q : res B -> Prop) :
  triple I c (ok_or E) ->
  triple I k Q ->
  (forall e, E -> Q (Exc e)) ->
  triple I (c ;; k) Q.
Proof.
  intros Hc Hk HE. eapply triple_bind; [exact Hc | intros a _; exact Hk |].
  intros e He. apply HE, He.
Qed.

End Steps.

(** *** Steps with a sink that returns *)

Section Quiet.

Context (log0 : list event).

Lemma emit_loop_quiet (n : nat) (g : sink) (ev : event) (result : option string)
    (st : state) :
  event_emitter (emitter st) = Some g ->
  quiet log0 st ->
  ok_or False (fst (Emitter._emit_loop n g ev result st))
  /\ quiet log0 (snd (Emitter._emit_loop n g ev result st)).
Proof.
  revert result st. induction n as [| n IH]; intros result st Hg Hq.
  - cbn. split; [exact Logic.I | exact Hq].
  - cbn [Emitter._emit_loop]. unfold bind, call_sink.
    destruct Hq as [[more Hlog] Hs]. rewrite Hg in Hs. cbn in Hs.
    pose proof (Hs more ev) as Hr. rewrite <- Hlog in Hr.
    destruct (g (sink_calls st) ev) as [| v | e]; cbn in Hr; try contradiction.
    + apply IH; [exact Hg |]. split; cbn.
      * exists (more ++ [ev])%list. rewrite Hlog, app_assoc. reflexivity.
      * rewrite Hg. exact Hs.
    + apply IH; [exact Hg |]. split; cbn.
      * exists (more ++ [ev])%list. rewrite Hlog, app_assoc. reflexivity.
      * rewrite Hg. exact Hs.
Qed.

Lemma emit_quiet (typ : string) (data : event_data) (twice : bool) :
  triple (quiet log0) (Emitter._emit typ data twice) (ok_or False).
Proof.
  intros st Hq. unfold Emitter._emit, bind, get_emitter.
  destruct (event_emitter (emitter st)) as [g |] eqn:Hg.
  - apply emit_loop_quiet; assumption.
  - cbn. split; [exact Logic.I | exact Hq].
Qed.

Lemma flag_quiet b st : quiet log0 st -> quiet log0 (snd (set_emitted_status b st)).
Proof. intro Hq. exact Hq. Qed.

Lemma tracker_quiet t st : quiet log0 st -> quiet log0 (snd (set_tracker t st)).
Proof. intro Hq. exact Hq. Qed.

Lemma run_quiet h argv input timeout st :
  quiet log0 st -> quiet log0 (snd (run_subprocess h argv input timeout st)).
Proof.
  intro Hq. unfold run_subprocess.
  destruct (subprocess_run h argv input timeout); exact Hq.
Qed.

End Quiet.

Lemma initial_quiet (f : option sink) (debug : bool) :
  sink_returns f -> quiet [] (initial_state f debug).
Proof. intro Hf. split; [exists []; reflexivity | exact Hf]. Qed.

(** ** Classification of a request *)

Lemma exec_value_classify o s out :
  exec_value o = Some (s, out) ->
  classify o = {| res_status := s; res_output := trim_output out |}.
Proof.
  destruct o as [rc o1 e1 | err t | t]; cbn; intro H; try discriminate.
  - destruct (rc =? 0)%Z; inversion H; reflexivity.
  - inversion H; reflexivity.
Qed.

Lemma exec_value_status o s out :
  exec_value o = Some (s, out) ->
  (s = "OK" /\ exists x, out = Some x) \/ s = "ERROR" \/ s = "TIMEOUT".
Proof.
  destruct o as [rc o1 e1 | err t | t]; cbn; intro H; try discriminate.
  - destruct (rc =? 0)%Z; inversion H; eauto.
  - inversion H; auto.
Qed.

Section Runs.

Context (h : Host) (valves : Valves) (language code : string).
Context (I : state -> Prop) (E : Prop).

Hypothesis emit_ok : forall typ data twice,
  triple I (Emitter._emit typ data twice) (ok_or E).
Hypothesis flag_ok : forall b st, I st -> I (snd (set_emitted_status b st)).
Hypothesis tracker_ok : forall t st, I st -> I (snd (set_tracker t st)).
Hypothesis run_ok : forall argv timeout st,
  I st -> I (snd (run_subprocess h argv (code ++ LF) timeout st)).

Lemma run_subprocess_post argv timeout :
  triple I (run_subprocess h argv (code ++ LF) timeout)
    (fun r =>
       r = match subprocess_run h argv (code ++ LF) timeout with
           | Completed rc out err => Val (rc, out, err)
           | TimedOut err text => Exc (TimeoutExpired err text)
           | RunRaised text => Exc (OtherException text)
           end).
Proof.
  intros st HI. split; [| apply run_ok, HI].
  unfold run_subprocess.
  destruct (subprocess_run h argv (code ++ LF) timeout); reflexivity.
Qed.

Lemma report_then_ret {B} (c1 c2 : M unit) (b : B) (Q : res B -> Prop) :
  triple I c1 (ok_or E) -> triple I c2 (ok_or E) ->
  Q (Val b) -> (forall e, E -> Q (Exc e)) ->
  triple I (c1 ;; c2 ;; ret b) Q.
Proof.
  intros H1 H2 Hb HE.
  apply then_ok with (E := E); [exact H1 | | exact HE].
  apply then_ok with (E := E); [exact H2 | | exact HE].
  apply triple_ret, Hb.
Qed.

Lemma Tools_execute_post interpreter_path :
  triple I (Tools.execute h valves interpreter_path code)
    (exec_post E (subprocess_run h [interpreter_path; "/dev/stdin"] (code ++ LF)
                  (MAX_RUNTIME_SECONDS valves))).
Proof.
  unfold Tools.execute.
  set (o := subprocess_run h [interpreter_path; "/dev/stdin"] (code ++ LF)
              (MAX_RUNTIME_SECONDS valves)).
  apply (triple_try I _ _ (raw_post o)).
  - eapply triple_bind; [apply run_subprocess_post | |]; fold o.
    + intros [[rc out] err] Hr. unfold raw_post.
      destruct o as [rc' o1 e1 | |]; try discriminate.
      inversion Hr; subst rc' o1 e1.
      destruct (rc =? 0)%Z; cbn [negb]; apply triple_ret; reflexivity.
    + intros e He. unfold raw_post.
      destruct o; try discriminate; inversion He; reflexivity.
  - intros [s out] Hr. unfold raw_post in Hr. cbn.
    destruct o as [rc o1 e1 | |]; try discriminate.
    inversion Hr as [Hso]. cbn. rewrite Hso. reflexivity.
  - intros e Hr. unfold raw_post in Hr.
    destruct o as [rc o1 e1 | err text | text] eqn:Ho; try discriminate;
      inversion Hr; subst e.
    + apply report_then_ret;
        [apply fail_ok; assumption | apply tracker_update_ok; assumption | |].
      * reflexivity.
      * intros e' HE. left. exact HE.
    + right. split; reflexivity.
Qed.

Lemma Action_execute_post language_title :
  triple I (Action.execute h valves language language_title code)
    (fun r =>
       match interpreter_for h language with
       | Some (String c p) =>
           exec_post E (subprocess_run h [String c p; "/dev/stdin"] (code ++ LF)
                        (MAX_RUNTIME_SECONDS valves)) r
       | _ =>
           r = Exc (RuntimeError
                      ("Cannot find interpreter for language: " ++ language))
       end).
Proof.
  unfold Action.execute.
  destruct (interpreter_for h language) as [[| c p] |].
  - apply (triple_try I _ _
             (fun r => r = Exc (RuntimeError
                                  ("Cannot find interpreter for language: "
                                   ++ language))));
      [apply triple_raise; reflexivity | |].
    + intros a Ha. discriminate.
    + intros e He. inversion He. reflexivity.
  - set (o := subprocess_run h [String c p; "/dev/stdin"] (code ++ LF)
                (MAX_RUNTIME_SECONDS valves)).
    apply (triple_try I _ _
             (fun r =>
                match o with
                | Completed rc out err =>
                    if (rc =? 0)%Z then r = Val ("OK", Some (Str out))
                    else exists cmd stdout text,
                        r = Exc (CalledProcessError rc cmd stdout err text)
                | TimedOut err text => r = Exc (TimeoutExpired err text)
                | RunRaised text => r = Exc (OtherException text)
                end)).
    + eapply triple_bind; [apply run_subprocess_post | |]; fold o.
      * intros [[rc out] err] Hr.
        destruct o as [rc' o1 e1 | |]; try discriminate.
        inversion Hr; subst rc' o1 e1.
        destruct (rc =? 0)%Z; cbn [negb].
        -- apply triple_ret; reflexivity.
        -- apply triple_raise. eauto.
      * intros e He.
        destruct o as [rc o1 e1 | |]; try discriminate; inversion He;
          reflexivity.
    + intros [s out] Hr. cbn.
      destruct o as [rc o1 e1 | |]; try discriminate.
      destruct (rc =? 0)%Z eqn:Hrc.
      * inversion Hr. cbn. rewrite Hrc. reflexivity.
      * destruct Hr as (? & ? & ? & Hr). discriminate.
    + intros e Hr.
      destruct o as [rc o1 e1 | err text | text] eqn:Ho.
      * destruct (rc =? 0)%Z eqn:Hrc; [discriminate |].
        destruct Hr as (cmd & stdout & text & Hr). inversion Hr; subst e.
        apply report_then_ret;
          [apply fail_ok; assumption | apply tracker_update_ok; assumption | |].
        -- cbn. rewrite Hrc. reflexivity.
        -- intros e' HE. left. exact HE.
      * inversion Hr; subst e.
        apply report_then_ret;
          [apply fail_ok; assumption | apply tracker_update_ok; assumption | |].
        -- reflexivity.
        -- intros e' HE. left. exact HE.
      * inversion Hr; subst e. right. split; reflexivity.
  - apply (triple_try I _ _
             (fun r => r = Exc (RuntimeError
                                  ("Cannot find interpreter for language: "
                                   ++ language))));
      [apply triple_raise; reflexivity | |].
    + intros a Ha. discriminate.
    + intros e He. inversion He. reflexivity.
Qed.

Lemma eqb_OK_ERROR : String.eqb "ERROR" "OK" = false.
Proof. reflexivity. Qed.
Lemma eqb_OK_TIMEOUT : String.eqb "TIMEOUT" "OK" = false.
Proof. reflexivity. Qed.
Lemma eqb_TIMEOUT_ERROR : String.eqb "ERROR" "TIMEOUT" = false.
Proof. reflexivity. Qed.

Lemma trim_output_some x : exists y, trim_output (Some x) = Some y.
Proof. unfold trim_output. destruct (truthy_value (Some x)); cbn; eauto. Qed.

Lemma report_failure_ok language_title s output :
  s = "ERROR" \/ s = "TIMEOUT" ->
  triple I (report_failure valves language_title s output) (ok_or E).
Proof.
  intros [-> | ->]; unfold report_failure.
  - rewrite eqb_TIMEOUT_ERROR, String.eqb_refl. cbn [andb].
    destruct (truthy_value output); apply message_ok; assumption.
  - rewrite String.eqb_refl.
    destruct (truthy_value output); apply message_ok; assumption.
Qed.

Lemma Tools_final_message_ok language_title o s out :
  exec_value o = Some (s, out) ->
  triple I (Tools.final_message valves language language_title code s
              (trim_output out)) (ok_or E).
Proof.
  intro Hv. unfold Tools.final_message.
  destruct (exec_value_status _ _ _ Hv) as [[-> [x ->]] | [-> | ->]].
  - rewrite String.eqb_refl. destruct (trim_output_some x) as [y ->].
    apply message_ok; assumption.
  - rewrite eqb_OK_ERROR. apply report_failure_ok. auto.
  - rewrite eqb_OK_TIMEOUT. apply report_failure_ok. auto.
Qed.

Lemma body_post_E target e : E -> body_post E target (Exc e).
Proof. intro HE. left. exact HE. Qed.

Lemma Tools_run_normalized_post language_title :
  triple I (Tools.run_normalized h valves language language_title code)
    (body_post E (outcome h valves language code)).
Proof.
  unfold Tools.run_normalized, outcome.
  apply then_ok with (E := E);
    [apply set_tracker_ok; assumption | | apply body_post_E].
  apply then_ok with (E := E);
    [apply clear_status_ok; assumption | | apply body_post_E].
  apply then_ok with (E := E);
    [apply publish_tracker_ok; assumption | | apply body_post_E].
  apply triple_with_tmpdir.
  - intros ->. destruct (interpreter_for h language) as [[| c p] |].
    + apply triple_raise. right. split; reflexivity.
    + eapply triple_bind; [apply Tools_execute_post | |].
      * intros [s out] Hv. cbn in Hv. rewrite (exec_value_classify _ _ _ Hv).
        apply then_ok with (E := E);
          [apply tracker_update_ok; assumption | | apply body_post_E].
        apply then_ok with (E := E);
          [apply publish_tracker_ok; assumption | | apply body_post_E].
        apply then_ok with (E := E);
          [apply debug_status_ok; assumption | | apply body_post_E].
        apply then_ok with (E := E);
          [eapply Tools_final_message_ok; eassumption | | apply body_post_E].
        apply then_ok with (E := E);
          [apply publish_tracker_ok; assumption | | apply body_post_E].
        apply triple_ret. reflexivity.
      * intros e He. exact He.
    + apply triple_raise. right. split; reflexivity.
  - intros text ->. right. split; reflexivity.
Qed.

Lemma Action_run_normalized_post language_title :
  triple I (Action.run_normalized h valves language language_title code)
    (body_post E (outcome h valves language code)).
Proof.
  unfold Action.run_normalized, outcome.
  apply then_ok with (E := E);
    [apply set_tracker_ok; assumption | | apply body_post_E].
  apply then_ok with (E := E);
    [apply clear_status_ok; assumption | | apply body_post_E].
  apply then_ok with (E := E);
    [apply publish_tracker_ok; assumption | | apply body_post_E].
  apply triple_with_tmpdir.
  - intros ->.
    eapply triple_bind; [apply Action_execute_post | |].
    + intros [s out] Hv.
      destruct (interpreter_for h language) as [[| c p] |]; try discriminate.
      cbn in Hv. rewrite (exec_value_classify _ _ _ Hv).
      apply then_ok with (E := E);
        [apply tracker_update_ok; assumption | | apply body_post_E].
      apply then_ok with (E := E);
        [apply publish_tracker_ok; assumption | | apply body_post_E].
      apply then_ok with (E := E);
        [apply debug_status_ok; assumption | | apply body_post_E].
      destruct (exec_value_status _ _ _ Hv) as [[-> [x ->]] | [-> | ->]].
      * rewrite String.eqb_refl.
        apply then_ok with (E := E);
          [apply message_ok; assumption | | apply body_post_E].
        apply triple_ret. reflexivity.
      * rewrite eqb_OK_ERROR.
        apply then_ok with (E := E);
          [apply report_failure_ok; auto | | apply body_post_E].
        apply triple_ret. reflexivity.
      * rewrite eqb_OK_TIMEOUT.
        apply then_ok with (E := E);
          [apply report_failure_ok; auto | | apply body_post_E].
        apply triple_ret. reflexivity.
    + intros e He.
      destruct (interpreter_for h language) as [[| c p] |].
      * inversion He. right. split; reflexivity.
      * exact He.
      * inversion He. right. split; reflexivity.
  - intros text ->. right. split; reflexivity.
Qed.

Lemma Tools_fail_post code' error_message status :
  triple I (Tools._fail valves language code' error_message status)
    (fail_post E status error_message).
Proof.
  unfold Tools._fail.
  eapply triple_bind; [apply get_tracker_ok | | intros e []].
  intros t _.
  apply then_ok with (E := E).
  - destruct t as [t |]; [| apply ret_ok].
    apply seq_ok; [apply tracker_update_ok; assumption |].
    intros _. apply publish_tracker_ok; assumption.
  - apply then_ok with (E := E).
    + destruct (DEBUG valves); apply fail_ok; assumption.
    + apply triple_ret. reflexivity.
    + intros e HE. exact HE.
  - intros e HE. exact HE.
Qed.

Lemma Action_fail_post body error_message status :
  triple I (Action._fail h valves body error_message status)
    (fail_post E status error_message).
Proof.
  unfold Action._fail.
  apply then_ok with (E := E).
  - destruct (DEBUG valves); apply fail_ok; assumption.
  - apply triple_ret. reflexivity.
  - intros e HE. exact HE.
Qed.

Lemma handler_post target e r :
  E \/ (is_Exception e = true /\ sandbox_error (str_exn e) = target) ->
  fail_post E "SANDBOX_ERROR" ("Unhandled exception: " ++ str_exn e) r ->
  run_post E target r.
Proof.
  intros He Hr. destruct r as [x | e']; cbn in *; [| exact Hr].
  subst x. destruct He as [HE | [_ <-]]; [right | left]; auto.
Qed.

(** An exception that [except Exception] lets through was raised by a
    sink call. *)
Lemma uncaught_post target e :
  E \/ (is_Exception e = true /\ sandbox_error (str_exn e) = target) ->
  is_Exception e = false ->
  run_post E target (Exc e).
Proof.
  intros [HE | [He _]] Hno; [exact HE | congruence].
Qed.

Lemma Tools_run_core_post (f : option sink) :
  I (initial_state f (DEBUG valves)) ->
  run_post E (outcome h valves language code)
    (fst (Tools.run_core h valves language code f))
  /\ I (snd (Tools.run_core h valves language code f)).
Proof.
  intro HI. unfold Tools.run_core.
  apply (triple_try I _ _ (body_post E (outcome h valves language code)));
    [apply Tools_run_normalized_post | | | exact HI].
  - intros a ->. left. reflexivity.
  - intros e He. unfold except_Exception.
    destruct (is_Exception e) eqn:Hexc; [| exact (uncaught_post _ e He Hexc)].
    eapply triple_weaken; [apply Tools_fail_post |].
    intros r. apply handler_post, He.
Qed.

Lemma Action_run_core_post (body : Body) (f : option sink) :
  I (initial_state f (DEBUG valves)) ->
  run_post E (outcome h valves language code)
    (fst (Action.run_core h valves body (Some language) code f))
  /\ I (snd (Action.run_core h valves body (Some language) code f)).
Proof.
  intro HI. unfold Action.run_core.
  apply (triple_try I _ _ (body_post E (outcome h valves language code)));
    [apply Action_run_normalized_post | | | exact HI].
  - intros a ->. left. reflexivity.
  - intros e He. unfold except_Exception.
    destruct (is_Exception e) eqn:Hexc; [| exact (uncaught_post _ e He Hexc)].
    eapply triple_weaken; [apply Action_fail_post |].
    intros r. apply handler_post, He.
Qed.

End Runs.

(** *** The two instances: a sink that returns, and any sink *)

Lemma Tools_run_core_returns h valves language code f :
  sink_returns f ->
  fst (Tools.run_core h valves language code f)
  = Val (outcome h valves language code).
Proof.
  intro Hf.
  destruct (Tools_run_core_post h valves language code (quiet []) False
              (emit_quiet []) (flag_quiet []) (tracker_quiet [])
              (fun argv timeout st => run_quiet [] h argv _ timeout st)
              f (initial_quiet f _ Hf)) as [Hr _].
  destruct (fst (Tools.run_core h valves language code f)) as [x | e];
    cbn in Hr; [| destruct Hr].
  destruct Hr as [-> | [[] _]]. reflexivity.
Qed.

Lemma Action_run_core_returns h valves body language code f :
  sink_returns f ->
  fst (Action.run_core h valves body (Some language) code f)
  = Val (outcome h valves language code).
Proof.
  intro Hf.
  destruct (Action_run_core_post h valves language code (quiet []) False
              (emit_quiet []) (flag_quiet []) (tracker_quiet [])
              (fun argv timeout st => run_quiet [] h argv _ timeout st)
              body f (initial_quiet f _ Hf)) as [Hr _].
  destruct (fst (Action.run_core h valves body (Some language) code f))
    as [x | e]; cbn in Hr; [| destruct Hr].
  destruct Hr as [-> | [[] _]]. reflexivity.
Qed.

Lemma emit_loop_spawned n g ev result st :
  spawned (snd (Emitter._emit_loop n g ev result st)) = spawned st.
Proof.
  revert result st. induction n as [| n IH]; intros result st; [reflexivity |].
  cbn [Emitter._emit_loop]. unfold bind, call_sink.
  destruct (g (sink_calls st) ev); cbn [fst snd]; try rewrite IH; reflexivity.
Qed.

Lemma emit_fed input typ data twice :
  triple (fed input) (Emitter._emit typ data twice) (ok_or True).
Proof.
  intros st Hst. split.
  - destruct (fst _); exact Logic.I.
  - unfold fed, Emitter._emit, bind, get_emitter. cbn [fst snd].
    destruct (event_emitter (emitter st)); [rewrite emit_loop_spawned |];
      exact Hst.
Qed.

Lemma run_fed h argv input timeout st :
  fed input st -> fed input (snd (run_subprocess h argv input timeout st)).
Proof.
  intro Hst. unfold fed, run_subprocess.
  destruct (subprocess_run h argv input timeout); cbn [snd spawned];
    (apply Forall_app; split; [exact Hst | repeat constructor]).
Qed.

Lemma initial_fed input f debug : fed input (initial_state f debug).
Proof. constructor. Qed.

(** Whatever the sink does, a returned result is the classified outcome
    or the report of a failure, and the interpreter saw [code] only. *)
Lemma Tools_run_core_sound h valves language code f :
  match fst (Tools.run_core h valves language code f) with
  | Val x => x = outcome h valves language code
             \/ res_status x = "SANDBOX_ERROR"
  | Exc _ => True
  end
  /\ fed (code ++ LF) (snd (Tools.run_core h valves language code f)).
Proof.
  destruct (Tools_run_core_post h valves language code (fed (code ++ LF)) True
              (emit_fed _) (fun _ _ H => H) (fun _ _ H => H)
              (fun argv timeout st => run_fed h argv _ timeout st)
              f (initial_fed _ f _)) as [Hr Hs].
  split; [| exact Hs].
  destruct (fst (Tools.run_core h valves language code f)) as [x | e];
    cbn in Hr; [| exact Logic.I].
  destruct Hr as [-> | [_ Hx]]; auto.
Qed.

Lemma emit_any typ data twice :
  triple (fun _ => True) (Emitter._emit typ data twice) (ok_or True).
Proof.
  intros st _. split; [| exact Logic.I]. destruct (fst _); exact Logic.I.
Qed.

Lemma Action_run_core_sound h valves body language code f :
  match fst (Action.run_core h valves body language code f) with
  | Val x =>
      (exists l, language = Some l /\ x = outcome h valves l code)
      \/ res_status x = "SANDBOX_ERROR"
  | Exc _ => True
  end.
Proof.
  destruct language as [l |].
  - destruct (Action_run_core_post h valves l code (fun _ => True) True
                emit_any
                (fun _ _ H => H) (fun _ _ H => H) (fun _ _ _ H => H)
                body f Logic.I) as [Hr _].
    destruct (fst (Action.run_core h valves body (Some l) code f)) as [x | e];
      cbn in Hr; [| exact Logic.I].
    destruct Hr as [-> | [_ Hx]]; eauto.
  - unfold Action.run_core, try_except, raise. cbn [fst snd].
    set (st0 := initial_state f (DEBUG valves)).
    destruct (Action_fail_post h valves (fun _ => True) True
                emit_any
                (fun _ _ H => H) body
                ("Unhandled exception: " ++
                 str_exn (OtherException "'NoneType' object has no attribute 'title'"))
                "SANDBOX_ERROR" st0 Logic.I) as [Hr _].
    destruct (fst _) as [x | e]; [| exact Logic.I].
    cbn in Hr. subst x. right. reflexivity.
Qed.

(** ** Event notifier: delivery counts *)

Lemma emit_calls_once typ data g st :
  event_emitter (emitter st) = Some g ->
  sink_calls (snd (Emitter._emit typ data false st))
  = (sink_calls st ++ [{| ev_type := typ; ev_data := data |}])%list.
Proof.
  intro Hg. unfold Emitter._emit, bind, get_emitter. rewrite Hg.
  cbn [Emitter._emit_loop]. unfold bind, call_sink, ret.
  destruct (g (sink_calls st) _); reflexivity.
Qed.

Lemma emit_calls_twice typ data g st :
  event_emitter (emitter st) = Some g ->
  returns (g (sink_calls st) {| ev_type := typ; ev_data := data |}) ->
  sink_calls (snd (Emitter._emit typ data true st))
  = (sink_calls st ++ [{| ev_type := typ; ev_data := data |};
                       {| ev_type := typ; ev_data := data |}])%list.
Proof.
  intros Hg Hr. unfold Emitter._emit, bind, get_emitter. rewrite Hg.
  cbn [Emitter._emit_loop]. unfold bind, call_sink, ret.
  destruct (g (sink_calls st) _) as [| v | e]; cbn in Hr; try contradiction;
    cbn [sink_calls];
    destruct (g _ _); cbn [snd sink_calls]; rewrite <- app_assoc; reflexivity.
Qed.

Lemma then_ret_state {A} (c : M A) st :
  snd ((c ;; ret tt) st) = snd (c st).
Proof. unfold bind, ret. destruct (c st) as [[a | e] st']; reflexivity. Qed.



(** ** Final statuses *)

Lemma outcome_status h valves language code :
  In (res_status (outcome h valves language code))
    ["OK"; "ERROR"; "TIMEOUT"; "SANDBOX_ERROR"].
Proof.
  unfold outcome. destruct (mkdtemp h); [cbn; auto |].
  destruct (interpreter_for h language) as [[| c p] |]; [cbn; auto | | cbn; auto].
  destruct (subprocess_run _ _ _ _) as [rc out err | |]; cbn; auto.
  destruct (rc =? 0)%Z; cbn; auto.
Qed.

Lemma selector_failure_status body error_message status :
  Action.source_selector body = inl (error_message, status) ->
  status = "INVALID_INPUT" \/ status = "SANDBOX_ERROR".
Proof.
  unfold Action.source_selector.
  destruct (messages body) as [[| m ms] |].
  - intro H. inversion H. auto.
  - destruct (negb _); [intro H; inversion H; auto |].
    destruct (_ || _); [intro H; inversion H; auto |].
    destruct (Action.select _) as [[[| c b] |] language];
      intro H; inversion H; auto.
  - intro H. inversion H. auto.
Qed.

Lemma unexplained_status valves language_title s output st :
  ~ In s ["TIMEOUT"; "ERROR"] ->
  report_failure valves language_title s output st
  = (Exc (RuntimeError ("Unexplained status: " ++ s ++ " (output: "
                        ++ str_opt output ++ ")")), st).
Proof.
  intro Hs. unfold report_failure.
  destruct (String.eqb_spec s "TIMEOUT") as [-> | _];
    [exfalso; apply Hs; cbn; auto |].
  destruct (String.eqb_spec s "ERROR") as [-> | _];
    [exfalso; apply Hs; cbn; auto |].
  reflexivity.
Qed.

(** C2.  Whatever the host and the sink do, a result that either variant
    returns has a status among OK, ERROR, TIMEOUT, INVALID_INPUT and
    SANDBOX_ERROR, never UNKNOWN; and the final-message step of either
    variant, reached with a status other than OK, TIMEOUT and ERROR,
    raises the "Unexplained status" fault and sends nothing. *)
Theorem unknown_never_final :
  (forall h valves language code f r st,
     Tools._run_code h valves language code f = (Val r, st) ->
     In (res_status r) final_statuses /\ res_status r <> "UNKNOWN")
  /\ (forall h valves body f r st,
        Action.action h valves body f = (Val r, st) ->
        In (res_status r) final_statuses /\ res_status r <> "UNKNOWN")
  /\ (forall valves language language_title code s output st,
        ~ In s ["OK"; "TIMEOUT"; "ERROR"] ->
        Tools.final_message valves language language_title code s output st
        = (Exc (RuntimeError ("Unexplained status: " ++ s ++ " (output: "
                              ++ str_opt output ++ ")")), st)
        /\ report_failure valves language_title s output st
           = (Exc (RuntimeError ("Unexplained status: " ++ s ++ " (output: "
                                 ++ str_opt output ++ ")")), st)).
Proof.
  assert (Hfinal : forall s,
            In s ["OK"; "ERROR"; "TIMEOUT"; "SANDBOX_ERROR"] \/ s = "INVALID_INPUT" ->
            In s final_statuses /\ s <> "UNKNOWN").
  { intros s [Hs | ->]; [| split; [cbn; auto | discriminate]].
    cbn in Hs. destruct Hs as [<- | [<- | [<- | [<- | []]]]];
      (split; [cbn; auto 6 | discriminate]). }
  split; [| split].
  - intros h valves language code f r st Hrun. apply Hfinal. left.
    pose proof (Tools_run_core_sound h valves language
                  (normalize language code) f) as [Hr _].
    unfold Tools._run_code in Hrun. rewrite Hrun in Hr. cbn in Hr.
    destruct Hr as [-> | ->]; [apply outcome_status | cbn; auto].
  - intros h valves body f r st Hrun. apply Hfinal.
    unfold Action.action in Hrun.
    destruct (Action.source_selector body) as [[msg status] | [block language]]
      eqn:Hsel.
    + pose proof (Action_fail_post h valves (fun _ => True) True emit_any
                    (fun _ _ H => H) body msg status
                    (initial_state f (DEBUG valves)) Logic.I) as [Hr _].
      rewrite Hrun in Hr. cbn in Hr. subst r. cbn.
      destruct (selector_failure_status _ _ _ Hsel) as [-> | ->];
        [right; reflexivity | left; cbn; auto].
    + pose proof (Action_run_core_sound h valves body language
                    (Action.strip_marker language block) f) as Hr.
      rewrite Hrun in Hr. cbn in Hr. left.
      destruct Hr as [(l & _ & ->) | ->]; [apply outcome_status | cbn; auto].
  - intros valves language language_title code s output st Hs.
    assert (Hs' : ~ In s ["TIMEOUT"; "ERROR"]).
    { intro H. apply Hs. right. exact H. }
    split; [| apply unexplained_status, Hs'].
    unfold Tools.final_message.
    destruct (String.eqb_spec s "OK") as [-> | _];
      [exfalso; apply Hs; cbn; auto |].
    apply unexplained_status, Hs'.
Qed.

Lemma unknown_never_final_witness :
  res_status {| res_status := "OK"; res_output := Some (Str "hello") |}
  <> "UNKNOWN"
  /\ fst (report_failure default_valves "Python" "UNKNOWN" None
            (initial_state None false))
     = Exc (RuntimeError "Unexplained status: UNKNOWN (output: None)").
Proof.
  destruct unknown_never_final as (HT & _ & HF).
  split.
  - apply (HT hello_host default_valves "python" "print('hello')" None
             {| res_status := "OK"; res_output := Some (Str "hello") |}
             (snd (Tools._run_code hello_host default_valves "python"
                     "print('hello')" None))).
    reflexivity.
  - destruct (HF default_valves "python" "Python" "print(1)" "UNKNOWN" None
                (initial_state None false)) as [_ Hr].
    + cbn. intros [H | [H | [H | []]]]; discriminate.
    + rewrite Hr. reflexivity.
Defined.

(** ** Transcript invocation: rejected transcripts *)

(** C4, at the input where the code departs from it.  The transcript is
    well formed but its block is recognized neither as Python nor as
    Bash: the selector ends the request through [_fail] without a status
    argument, so the result carries SANDBOX_ERROR, not INVALID_INPUT. *)
Theorem unrecognized_block_is_sandbox_error (h : Host) (valves : Valves) :
  Action.source_selector unrecognized_transcript
  = inl ("Message does not contain code blocks detected as Python or Bash.",
         "SANDBOX_ERROR")
  /\ fst (Action.action h valves unrecognized_transcript None)
     = Val {| res_status := "SANDBOX_ERROR";
              res_output :=
                Some (Str "Message does not contain code blocks detected as Python or Bash.") |}.
Proof.
  assert (Hsel : Action.source_selector unrecognized_transcript
                 = inl ("Message does not contain code blocks detected as Python or Bash.",
                        "SANDBOX_ERROR")) by reflexivity.
  split; [exact Hsel |].
  unfold Action.action. rewrite Hsel.
  unfold Action._fail. destruct (DEBUG valves); reflexivity.
Qed.

(** The three rejections that do carry INVALID_INPUT, and no other path
    of the selector does. *)
Lemma selector_invalid_input body error_message :
  Action.source_selector body = inl (error_message, "INVALID_INPUT") <->
  (match messages body with
   | None | Some [] => error_message = "No messages in conversation."
   | Some (m :: ms) =>
       if negb (String.eqb (role (last (m :: ms) m)) "assistant")
       then error_message = "Last message was not from the AI model."
       else
         ((length (split "```" (content (last (m :: ms) m))) <? 3)%nat
          || negb (length (split "```" (content (last (m :: ms) m))) mod 2
                   =? 1)%nat) = true
         /\ error_message
            = "Last message did not contain well-formed code blocks."
   end).
Proof.
  unfold Action.source_selector.
  destruct (messages body) as [[| m ms] |].
  - split; intro H; [inversion H | subst]; reflexivity.
  - destruct (negb (String.eqb (role (last (m :: ms) m)) "assistant")).
    + split; intro H; [inversion H | subst]; reflexivity.
    + destruct (_ || _).
      * split; [intro H; inversion H; auto | intros [_ ->]; reflexivity].
      * split; [| intros [H _]; discriminate].
        destruct (Action.select _) as [[[| c b] |] language];
          intro H; inversion H.
  - split; intro H; [inversion H | subst]; reflexivity.
Qed.

(** ** Code normalizer *)

Section Stripping.

Context (p : ascii -> bool).

Lemma lstrip_by_first s : first_sat p (lstrip_by p s) = false.
Proof.
  induction s as [| c r IH]; [reflexivity |].
  cbn. destruct (p c) eqn:Hc; [exact IH | cbn; exact Hc].
Qed.

Lemma lstrip_by_id s : first_sat p s = false -> lstrip_by p s = s.
Proof. destruct s as [| c r]; cbn; [reflexivity | intros ->; reflexivity]. Qed.

Lemma rstrip_by_cons c r :
  rstrip_by p (String c r)
  = match rstrip_by p r with
    | EmptyString => if p c then EmptyString else String c EmptyString
    | String c' r' => String c (String c' r')
    end.
Proof. reflexivity. Qed.

Lemma rstrip_by_last s : last_sat p (rstrip_by p s) = false.
Proof.
  induction s as [| c r IH]; [reflexivity |].
  rewrite rstrip_by_cons. destruct (rstrip_by p r) as [| c' r'].
  - destruct (p c) eqn:Hc; [reflexivity | cbn; exact Hc].
  - exact IH.
Qed.

Lemma rstrip_by_id s : last_sat p s = false -> rstrip_by p s = s.
Proof.
  induction s as [| c r IH]; [reflexivity |].
  destruct r as [| c' r'].
  - cbn. intros ->. reflexivity.
  - intro H. rewrite rstrip_by_cons, IH by exact H. reflexivity.
Qed.

Lemma rstrip_by_first s :
  first_sat p s = false -> first_sat p (rstrip_by p s) = false.
Proof.
  destruct s as [| c r]; [reflexivity |]. rewrite rstrip_by_cons.
  cbn [first_sat]. intro Hc.
  destruct (rstrip_by p r); [rewrite Hc |]; cbn; exact Hc.
Qed.

Lemma strip_by_ends s :
  first_sat p (strip_by p s) = false /\ last_sat p (strip_by p s) = false.
Proof.
  unfold strip_by. split.
  - apply rstrip_by_first, lstrip_by_first.
  - apply rstrip_by_last.
Qed.

Lemma strip_by_id s :
  first_sat p s = false -> last_sat p s = false -> strip_by p s = s.
Proof.
  intros Hf Hl. unfold strip_by. rewrite lstrip_by_id by exact Hf.
  apply rstrip_by_id, Hl.
Qed.

End Stripping.

Lemma strip_chars_backtick s : strip_chars "`" s = strip_by (fun c => is_backtick c || false) s.
Proof. reflexivity. Qed.

Lemma startswith_backtick s :
  startswith "`" s = first_sat is_backtick s.
Proof.
  destruct s as [| c r]; [reflexivity |].
  cbn [startswith first_sat]. unfold is_backtick.
  rewrite andb_true_r. apply Ascii.eqb_sym.
Qed.

Lemma endswith_backtick s :
  endswith "`" s = last_sat is_backtick s.
Proof.
  induction s as [| c r IH]; [reflexivity |].
  cbn [endswith last_sat]. rewrite IH. destruct r as [| c' r'].
  - cbn. unfold is_backtick. rewrite orb_false_r.
    destruct (Ascii.eqb_spec c "`") as [-> | Hne]; [reflexivity |].
    destruct (String.eqb_spec (String c "") "`") as [Heq | _];
      [inversion Heq; contradiction | reflexivity].
  - replace (String.eqb (String c (String c' r')) "`") with false;
      [reflexivity |].
    symmetry. apply String.eqb_neq. discriminate.
Qed.

Lemma removeprefix_id c0 q s :
  first_sat (Ascii.eqb c0) s = false -> removeprefix (String c0 q) s = s.
Proof.
  unfold removeprefix. destruct s as [| c r]; [reflexivity |].
  cbn [startswith first_sat]. intros ->. reflexivity.
Qed.

Lemma endswith_fence s :
  endswith "```" s = true -> last_sat is_backtick s = true.
Proof.
  induction s as [| c r IH]; [discriminate |].
  cbn [endswith]. intro H. apply orb_true_iff in H. destruct H as [H | H].
  - apply String.eqb_eq in H. rewrite H. reflexivity.
  - specialize (IH H). destruct r; [discriminate | exact IH].
Qed.

Lemma removesuffix_id s :
  last_sat is_backtick s = false -> removesuffix "```" s = s.
Proof.
  intro Hl. destruct s as [| c r]; [reflexivity |].
  cbn [removesuffix].
  destruct (String.eqb_spec (String c r) "```") as [Heq | _].
  - rewrite Heq in Hl. discriminate.
  - destruct (endswith "```" r) eqn:He; [| reflexivity].
    apply endswith_fence in He. destruct r as [| c' r']; [discriminate |].
    change (last_sat is_backtick (String c' r') = false) in Hl. congruence.
Qed.

Lemma first_sat_ext (p q : ascii -> bool) s :
  (forall c, p c = q c) -> first_sat p s = first_sat q s.
Proof. intro H. destruct s; [reflexivity | apply H]. Qed.

Lemma last_sat_ext (p q : ascii -> bool) s :
  (forall c, p c = q c) -> last_sat p s = last_sat q s.
Proof.
  intro H. induction s as [| c r IH]; [reflexivity |].
  cbn. rewrite H, IH. reflexivity.
Qed.

(** A text that is trimmed and has no backtick at either end is left as
    it is. *)
Lemma normalize_fixed language y :
  first_sat is_space y = false -> last_sat is_space y = false ->
  first_sat is_backtick y = false -> last_sat is_backtick y = false ->
  normalize language y = y.
Proof.
  intros Hsf Hsl Hbf Hbl. unfold normalize, strip.
  assert (Hfirst : first_sat (Ascii.eqb "`") y = false).
  { rewrite (first_sat_ext _ is_backtick); [exact Hbf |].
    intro c. apply Ascii.eqb_sym. }
  rewrite (strip_by_id is_space y Hsf Hsl).
  change ("```" ++ language) with (String "`" ("``" ++ language)).
  rewrite (removeprefix_id "`" _ y Hfirst).
  rewrite (removeprefix_id "`" "``" y Hfirst).
  rewrite (removesuffix_id y Hbl).
  rewrite (strip_by_id is_space y Hsf Hsl).
  rewrite strip_chars_backtick.
  rewrite (strip_by_id (fun c => is_backtick c || false) y).
  - apply strip_by_id; assumption.
  - rewrite (first_sat_ext _ is_backtick); [exact Hbf |].
    intro c. apply orb_false_r.
  - rewrite (last_sat_ext _ is_backtick); [exact Hbl |].
    intro c. apply orb_false_r.
Qed.

Lemma normalize_trimmed language x :
  first_sat is_space (normalize language x) = false
  /\ last_sat is_space (normalize language x) = false.
Proof. unfold normalize, strip. apply strip_by_ends. Qed.

(** Normalizing [nested_backticks] leaves a backtick in front, which a
    second normalization removes. *)
Lemma normalize_not_idempotent :
  normalize "python" nested_backticks = "`a"
  /\ normalize "python" (normalize "python" nested_backticks) = "a"
  /\ normalize "python" (normalize "python" nested_backticks)
     <> normalize "python" nested_backticks.
Proof. repeat split. discriminate. Qed.

Section Shrinking.

Context (p : ascii -> bool).

Lemma lstrip_by_shrinks : shrinks (lstrip_by p).
Proof.
  intro s. induction s as [| c r [IHle IHeq]]; [split; reflexivity |].
  cbn [lstrip_by]. destruct (p c); [| split; reflexivity].
  cbn [String.length]. split; lia.
Qed.

Lemma rstrip_by_shrinks : shrinks (rstrip_by p).
Proof.
  intro s. induction s as [| c r [IHle IHeq]]; [split; reflexivity |].
  rewrite rstrip_by_cons. destruct (rstrip_by p r) as [| c' r'] eqn:Hr.
  - destruct (p c); cbn [String.length] in *; split; try lia.
    intro H. destruct r; [reflexivity | cbn in H; lia].
  - cbn [String.length] in *. split; [lia |].
    intro H. rewrite IHeq by lia. reflexivity.
Qed.

Lemma shrinks_compose (f g : string -> string) :
  shrinks f -> shrinks g -> shrinks (fun s => g (f s)).
Proof.
  intros Hf Hg s. destruct (Hf s) as [Hfle Hfeq].
  destruct (Hg (f s)) as [Hgle Hgeq]. split; [lia |].
  intro H. rewrite Hgeq by lia. apply Hfeq. lia.
Qed.

Lemma strip_by_shrinks : shrinks (strip_by p).
Proof.
  apply (shrinks_compose (lstrip_by p) (rstrip_by p));
    [apply lstrip_by_shrinks | apply rstrip_by_shrinks].
Qed.

End Shrinking.

Lemma length_drop n s : String.length (drop n s) = (String.length s - n)%nat.
Proof.
  revert s. induction n as [| n IH]; intros [| c r]; cbn [drop String.length];
    try lia. rewrite IH. lia.
Qed.

Lemma removeprefix_shrinks q : shrinks (removeprefix q).
Proof.
  intro s. unfold removeprefix. destruct (startswith q s); [| split; reflexivity].
  rewrite length_drop. split; [lia |].
  intro H. destruct s as [| c r]; [destruct (String.length q); reflexivity |].
  cbn [String.length] in H.
  assert (Hq : String.length q = 0%nat) by lia. rewrite Hq. reflexivity.
Qed.

Lemma removesuffix_shrinks q : shrinks (removesuffix q).
Proof.
  intro s. induction s as [| c r [IHle IHeq]]; [split; reflexivity |].
  cbn [removesuffix]. destruct (String.eqb (String c r) q).
  - cbn [String.length]. split; lia.
  - destruct (endswith q r); [| split; reflexivity].
    cbn [String.length]. split; [lia |].
    intro H. rewrite IHeq by lia. reflexivity.
Qed.

Lemma unfence_shrinks language : shrinks (unfence language).
Proof.
  unfold unfence, strip.
  apply (shrinks_compose
           (fun s => removesuffix "```"
                       (removeprefix "```"
                          (removeprefix ("```" ++ language) (strip_by is_space s))))
           (strip_by is_space)); [| apply strip_by_shrinks].
  apply (shrinks_compose
           (fun s => removeprefix "```"
                       (removeprefix ("```" ++ language) (strip_by is_space s)))
           (removesuffix "```")); [| apply removesuffix_shrinks].
  apply (shrinks_compose
           (fun s => removeprefix ("```" ++ language) (strip_by is_space s))
           (removeprefix "```")); [| apply removeprefix_shrinks].
  apply (shrinks_compose (strip_by is_space) (removeprefix ("```" ++ language)));
    [apply strip_by_shrinks | apply removeprefix_shrinks].
Qed.

Lemma normalize_unfence language x :
  normalize language x = strip (strip_chars "`" (unfence language x)).
Proof. reflexivity. Qed.

(** A text that normalization leaves as it is has no backtick at either
    end. *)
Lemma normalize_fixed_ends language y :
  normalize language y = y ->
  first_sat is_backtick y = false /\ last_sat is_backtick y = false.
Proof.
  intro Hfix. rewrite normalize_unfence, strip_chars_backtick in Hfix.
  set (bt := fun c => is_backtick c || false) in Hfix.
  destruct (unfence_shrinks language y) as [Hu Hueq].
  destruct (strip_by_shrinks bt (unfence language y)) as [Hb Hbeq].
  destruct (strip_by_shrinks is_space (strip_by bt (unfence language y)))
    as [Hs _].
  fold (strip (strip_by bt (unfence language y))) in Hs.
  rewrite Hfix in Hs.
  assert (Hy : strip_by bt y = y).
  { rewrite <- (Hueq ltac:(lia)) at 1. rewrite Hbeq by lia. apply Hueq. lia. }
  destruct (strip_by_ends bt y) as [Hf Hl]. rewrite Hy in Hf, Hl.
  split.
  - rewrite (first_sat_ext is_backtick bt); [exact Hf |].
    intro c. symmetry. apply orb_false_r.
  - rewrite (last_sat_ext is_backtick bt); [exact Hl |].
    intro c. symmetry. apply orb_false_r.
Qed.

(** C6, as the code has it.  Normalizing twice gives the same text as
    normalizing once exactly for the texts whose normalized form neither
    starts nor ends with a backtick; in particular it does for every such
    text. *)
Theorem normalize_idempotent_without_backtick_ends (language x : string) :
  (startswith "`" (normalize language x) = false ->
   endswith "`" (normalize language x) = false ->
   normalize language (normalize language x) = normalize language x)
  /\ (normalize language (normalize language x) = normalize language x ->
      startswith "`" (normalize language x) = false
      /\ endswith "`" (normalize language x) = false).
Proof.
  rewrite startswith_backtick, endswith_backtick. split.
  - intros Hs He. destruct (normalize_trimmed language x) as [Hf Hl].
    apply normalize_fixed; assumption.
  - apply normalize_fixed_ends.
Qed.

Lemma normalize_idempotent_without_backtick_ends_witness :
  normalize "python"
    (normalize "python" (fenced "python" "print('hello')"))
  = normalize "python" (fenced "python" "print('hello')").
Proof.
  destruct (normalize_idempotent_without_backtick_ends "python"
              (fenced "python" "print('hello')")) as [Hidem _].
  apply Hidem; reflexivity.
Defined.

(** ** Source selector *)

Lemma nth_code_blocks k l :
  nth (2 * k + 1) l "" = nth k (code_blocks l) "".
Proof.
  revert l. induction k as [| k IH]; intros [| a [| b r]]; try reflexivity.
  - destruct k; reflexivity.
  - replace (2 * S k + 1)%nat with (S (S (2 * k + 1))) by lia.
    cbn [nth code_blocks]. apply IH.
Qed.

Lemma length_code_blocks m l :
  length l = (2 * m + 1)%nat -> length (code_blocks l) = m.
Proof.
  revert l. induction m as [| m IH]; intros [| a [| b r]] H; cbn in H;
    try lia; try reflexivity.
  cbn [code_blocks length]. f_equal. apply IH. lia.
Qed.

Lemma firstn_snoc {A} (d : A) k (l : list A) :
  (k < length l)%nat -> firstn (S k) l = (firstn k l ++ [nth k l d])%list.
Proof.
  revert l. induction k as [| k IH]; intros [| a l] H; cbn in H; try lia.
  - reflexivity.
  - cbn [firstn nth app]. f_equal. apply IH. lia.
Qed.

Lemma slice_down_code_blocks k l :
  (k < length (code_blocks l))%nat ->
  Action.slice_down (2 * k + 1) l = rev (firstn (S k) (code_blocks l)).
Proof.
  induction k as [| k IH]; intro Hk.
  - change (Action.slice_down (2 * 0 + 1) l) with [nth (2 * 0 + 1) l ""].
    rewrite (nth_code_blocks 0 l).
    destruct (code_blocks l); [cbn in Hk; lia | reflexivity].
  - replace (2 * S k + 1)%nat with (S (S (2 * k + 1))) by lia.
    cbn [Action.slice_down].
    replace (S (S (2 * k + 1))) with (2 * S k + 1)%nat by lia.
    rewrite nth_code_blocks, IH by lia.
    rewrite (firstn_snoc "" (S k)) by exact Hk.
    rewrite rev_app_distr. destruct (2 * k + 1)%nat eqn:E; [lia |].
    reflexivity.
Qed.

(** On a message with balanced fences the loop visits the code blocks
    from the newest to the oldest. *)
Lemma candidates_newest_first l :
  (length l mod 2 = 1)%nat -> Action.candidates l = rev (code_blocks l).
Proof.
  intro Hodd.
  assert (Hm : exists m, length l = (2 * m + 1)%nat).
  { exists (length l / 2)%nat.
    pose proof (Nat.div_mod_eq (length l) 2). lia. }
  destruct Hm as [m Hm]. pose proof (length_code_blocks m l Hm) as Hcb.
  unfold Action.candidates. destruct m as [| m].
  - rewrite Hm. cbn.
    destruct (code_blocks l); [reflexivity | discriminate].
  - replace (length l <? 2)%nat with false
      by (symmetry; apply Nat.ltb_ge; lia).
    replace (length l - 2)%nat with (2 * m + 1)%nat by lia.
    rewrite slice_down_code_blocks by lia.
    rewrite <- Hcb, firstn_all. reflexivity.
Qed.

Lemma startswith_nonempty q c s :
  startswith (String c q) s = true -> exists r, s = String c r.
Proof.
  destruct s as [| c' r]; [discriminate |]. cbn [startswith].
  intro H. apply andb_true_iff in H. destruct H as [H _].
  apply Ascii.eqb_eq in H. subst c'. eauto.
Qed.

Lemma python_tagged_head b :
  Action.python_tagged b = true -> exists r, b = String "p" r.
Proof.
  unfold Action.python_tagged. intro H. apply orb_true_iff in H.
  destruct H as [H | H]; exact (startswith_nonempty _ _ _ H).
Qed.

(** No block carries both a Python marker and a shell marker. *)
Lemma shell_tagged_not_python b :
  Action.shell_tagged b = true -> Action.python_tagged b = false.
Proof.
  intro Hs. destruct (Action.python_tagged b) eqn:Hp; [| reflexivity].
  destruct (python_tagged_head b Hp) as [r ->]. discriminate.
Qed.

Lemma shell_tagged_truthy b :
  Action.shell_tagged b = true -> truthy (Some b) = true.
Proof. destruct b; [discriminate | reflexivity]. Qed.

Lemma python_tagged_truthy b :
  Action.python_tagged b = true -> truthy (Some b) = true.
Proof. destruct b; [discriminate | reflexivity]. Qed.

(** The loop stops at the first shell block it meets. *)
Lemma scan_stops_at_shell pre b post chosen :
  no_shell pre -> Action.shell_tagged b = true ->
  Action.scan (pre ++ b :: post) chosen = (Some b, Some "bash").
Proof.
  intros Hpre Hb. revert chosen.
  induction Hpre as [| x pre Hx _ IH]; intro chosen; cbn [app Action.scan].
  - rewrite (shell_tagged_not_python b Hb), Hb. reflexivity.
  - rewrite Hx. destruct (Action.python_tagged x); apply IH.
Qed.

Lemma scan_untagged l chosen :
  no_shell l -> no_python l -> Action.scan l chosen = chosen.
Proof.
  intros Hs Hp. induction Hs as [| x l Hx _ IH]; [reflexivity |].
  inversion Hp as [| ? ? Hpx Hpl]; subst. cbn [Action.scan].
  rewrite Hpx, Hx. apply IH, Hpl.
Qed.

(** With no shell block, the Python block the loop meets last wins. *)
Lemma scan_keeps_last_python pre b post chosen :
  no_shell (pre ++ b :: post) -> Action.python_tagged b = true ->
  no_python post ->
  Action.scan (pre ++ b :: post) chosen = (Some b, Some "python").
Proof.
  revert chosen. induction pre as [| x pre IH]; intros chosen Hs Hb Hpost.
  - cbn [app Action.scan]. rewrite Hb.
    inversion Hs; subst. apply scan_untagged; assumption.
  - cbn [app Action.scan]. inversion Hs as [| ? ? Hx Hrest]; subst.
    rewrite Hx. destruct (Action.python_tagged x); apply IH; assumption.
Qed.

Lemma selector_on_well_formed body segments b language :
  well_formed body segments ->
  Action.select segments = (Some b, language) ->
  truthy (Some b) = true ->
  Action.source_selector body = inr (b, language).
Proof.
  intros (m & ms & Hm & Hrole & Hseg & Hlen & Hodd) Hsel Hb.
  unfold Action.source_selector. rewrite Hm, Hrole, <- Hseg. cbn [negb].
  replace (String.eqb "assistant" "assistant") with true by reflexivity.
  cbn [negb].
  replace (length segments <? 3)%nat with false
    by (symmetry; apply Nat.ltb_ge; exact Hlen).
  rewrite Hodd. cbn [Nat.eqb negb orb]. rewrite Hsel.
  destruct b; [discriminate | reflexivity].
Qed.

(** C5, as the code has it.  On a well-formed transcript, with the code
    blocks of the last message listed oldest first: a shell-tagged block
    with no shell-tagged block after it is selected, whatever Python
    blocks there are; with no shell-tagged block at all, a Python-tagged
    block with no Python-tagged block before it, the oldest one, is
    selected. *)
Theorem selector_newest_shell_else_oldest_python
    (body : Body) (segments older newer : list string) (b : string) :
  well_formed body segments ->
  code_blocks segments = (older ++ b :: newer)%list ->
  (Action.shell_tagged b = true -> no_shell newer ->
   Action.source_selector body = inr (b, Some "bash"))
  /\ (Action.python_tagged b = true -> no_shell (code_blocks segments) ->
      no_python older ->
      Action.source_selector body = inr (b, Some "python")).
Proof.
  intros Hwf Hblocks.
  assert (Hcand : Action.candidates segments = (rev newer ++ b :: rev older)%list).
  { destruct Hwf as (m & ms & _ & _ & _ & _ & Hodd).
    rewrite candidates_newest_first, Hblocks by exact Hodd.
    rewrite rev_app_distr. cbn [rev]. rewrite <- app_assoc. reflexivity. }
  split.
  - intros Hb Hnewer.
    apply (selector_on_well_formed body segments b (Some "bash") Hwf);
      [| apply shell_tagged_truthy, Hb].
    unfold Action.select. rewrite Hcand, scan_stops_at_shell;
      [| apply Forall_rev, Hnewer | exact Hb].
    cbn [fst]. rewrite (shell_tagged_truthy b Hb). reflexivity.
  - intros Hb Hnone Holder.
    apply (selector_on_well_formed body segments b (Some "python") Hwf);
      [| apply python_tagged_truthy, Hb].
    unfold Action.select. rewrite Hcand, scan_keeps_last_python;
      [| | exact Hb | apply Forall_rev, Holder].
    + cbn [fst]. rewrite (python_tagged_truthy b Hb). reflexivity.
    + rewrite Hblocks in Hnone. apply Forall_app in Hnone.
      destruct Hnone as [Ho Hbn]. inversion Hbn as [| ? ? Hbs Hn]; subst.
      apply Forall_app. split; [apply Forall_rev, Hn |].
      constructor; [exact Hbs | apply Forall_rev, Ho].
Qed.

(** With two Python-tagged blocks and no shell block, the selector takes
    the older block, not the newest one. *)
Lemma selector_takes_older_python :
  code_blocks (split "```" ("First:" ++ "```" ++ block_A ++ "```" ++ "then:"
                            ++ "```" ++ block_B ++ "```"))
  = [block_A; block_B]
  /\ Action.source_selector two_python_blocks = inr (block_A, Some "python")
  /\ Action.source_selector two_python_blocks <> inr (block_B, Some "python").
Proof. repeat split. discriminate. Qed.

Lemma selector_newest_shell_else_oldest_python_witness :
  Action.source_selector shell_between_python = inr (block_sh, Some "bash")
  /\ Action.source_selector two_python_blocks = inr (block_A, Some "python").
Proof.
  split.
  - destruct (selector_newest_shell_else_oldest_python shell_between_python
                ["" ; block_A; "or"; block_sh; "or"; block_B; ""]
                [block_A] [block_B] block_sh) as [Hsh _].
    + exists {| role := "assistant";
                content := "```" ++ block_A ++ "```" ++ "or" ++ "```"
                           ++ block_sh ++ "```" ++ "or" ++ "```" ++ block_B
                           ++ "```" |}, [].
      repeat split. cbn. lia.
    + reflexivity.
    + apply Hsh; [reflexivity |]. repeat constructor.
  - destruct (selector_newest_shell_else_oldest_python two_python_blocks
                ["First:"; block_A; "then:"; block_B; ""]
                [] [block_B] block_A) as [_ Hpy].
    + exists {| role := "assistant";
                content := "First:" ++ "```" ++ block_A ++ "```" ++ "then:"
                           ++ "```" ++ block_B ++ "```" |}, [].
      repeat split. cbn. lia.
    + reflexivity.
    + apply Hpy; [reflexivity | repeat constructor | constructor].
Defined.

(** ** Execution tracker: the result entry *)

Lemma dict_get_set_same k v d : dict_get k (dict_set k v d) = Some v.
Proof.
  unfold dict_get. induction d as [| [k' v'] r IH]; cbn.
  - rewrite String.eqb_refl. reflexivity.
  - destruct (String.eqb k' k) eqn:Hk; cbn.
    + rewrite String.eqb_refl. reflexivity.
    + rewrite Hk. exact IH.
Qed.

Lemma dict_get_set_other k k' v d :
  k <> k' -> dict_get k' (dict_set k v d) = dict_get k' d.
Proof.
  intro Hne. unfold dict_get. induction d as [| [k0 v0] r IH]; cbn.
  - destruct (String.eqb_spec k k'); [contradiction | reflexivity].
  - destruct (String.eqb_spec k0 k) as [-> | Hk0]; cbn.
    + destruct (String.eqb_spec k k'); [contradiction | reflexivity].
    + destruct (String.eqb k0 k'); [reflexivity | exact IH].
Qed.

Lemma dict_has_set k v d : dict_has k (dict_set k v d) = true.
Proof.
  unfold dict_has. induction d as [| [k' v'] r IH]; cbn.
  - rewrite String.eqb_refl. reflexivity.
  - destruct (String.eqb k' k) eqn:Hk; cbn.
    + rewrite String.eqb_refl. reflexivity.
    + rewrite Hk. exact IH.
Qed.

(** X1.  The citation of a new tracker has no result entry.  After
    [set_error] or [set_output], on any tracker, the citation carries the
    result dict; the value just written is read back under its key and the
    value under the other key is as before. *)
Theorem tracker_citation_result (t : CodeExecutionTracker.t)
    (uuid name code language error : string) (output : option str_or_bytes) :
  citation_result
    (CodeExecutionTracker._citation_data
       (CodeExecutionTracker.init uuid name code language)) = None
  /\ (exists d,
        citation_result
          (CodeExecutionTracker._citation_data
             (CodeExecutionTracker.set_error error t)) = Some d
        /\ dict_get "error" d = Some (Some (Str error))
        /\ dict_get "output" d = dict_get "output" (CodeExecutionTracker._result t))
  /\ (exists d,
        citation_result
          (CodeExecutionTracker._citation_data
             (CodeExecutionTracker.set_output output t)) = Some d
        /\ dict_get "output" d = Some output
        /\ dict_get "error" d = dict_get "error" (CodeExecutionTracker._result t)).
Proof.
  split; [reflexivity | split].
  - exists (dict_set "error" (Some (Str error))
              (CodeExecutionTracker._result t)).
    split; [| split].
    + unfold CodeExecutionTracker._citation_data, CodeExecutionTracker.set_error.
      cbn [citation_result CodeExecutionTracker._result].
      rewrite dict_has_set, orb_true_r. reflexivity.
    + apply dict_get_set_same.
    + apply dict_get_set_other. discriminate.
  - exists (dict_set "output" output (CodeExecutionTracker._result t)).
    split; [| split].
    + unfold CodeExecutionTracker._citation_data, CodeExecutionTracker.set_output.
      cbn [citation_result CodeExecutionTracker._result].
      rewrite dict_has_set. reflexivity.
    + apply dict_get_set_same.
    + apply dict_get_set_other. discriminate.
Qed.

(** ** Event notifier: status notifications *)

Lemma emit_loop_emitter n g ev result st :
  emitter (snd (Emitter._emit_loop n g ev result st)) = emitter st.
Proof.
  revert result st. induction n as [| n IH]; intros result st; [reflexivity |].
  cbn [Emitter._emit_loop]. unfold bind, call_sink.
  destruct (g (sink_calls st) ev); cbn [fst snd]; try rewrite IH; reflexivity.
Qed.

Lemma emit_emitter typ data twice st :
  emitter (snd (Emitter._emit typ data twice st)) = emitter st.
Proof.
  unfold Emitter._emit, bind, get_emitter.
  destruct (event_emitter (emitter st)); [apply emit_loop_emitter | reflexivity].
Qed.

Lemma status_state description status_ done st :
  snd (Emitter.status description status_ done st)
  = snd (Emitter._emit "status"
           (StatusData status_ (prefixed st description) done)
           (negb done && (String.length (prefixed st description) <=? 1024)%nat)
           (snd (set_emitted_status true st))).
Proof.
  unfold Emitter.status, bind at 1. cbn [set_emitted_status].
  unfold bind at 1, get_emitter. apply then_ret_state.
Qed.

(** X2.  [status] sets the emitted-status flag, with or without a sink.
    With a sink present, the event carries the description after the
    prefix; it is sent once when [done] is set or the prefixed description
    is longer than 1024 characters, and otherwise twice as soon as the
    first call returns.  [fail] is sent exactly once, as an "error" status
    with [done] set. *)
Theorem status_delivery (st : state) (description status_ : string)
    (done : bool) :
  _emitted_status (emitter (snd (Emitter.status description status_ done st)))
  = true
  /\ forall g : sink,
       event_emitter (emitter st) = Some g ->
       (if negb done && (String.length (prefixed st description) <=? 1024)%nat
        then
          returns (g (sink_calls st)
                     (status_event status_ (prefixed st description) done)) ->
          sink_calls (snd (Emitter.status description status_ done st))
          = (sink_calls st
             ++ [status_event status_ (prefixed st description) done;
                 status_event status_ (prefixed st description) done])%list
        else
          sink_calls (snd (Emitter.status description status_ done st))
          = (sink_calls st
             ++ [status_event status_ (prefixed st description) done])%list)
       /\ sink_calls (snd (Emitter.fail description st))
          = (sink_calls st
             ++ [status_event "error" (prefixed st description) true])%list.
Proof.
  split; [rewrite status_state, emit_emitter; reflexivity |].
  intros g Hg. split.
  - rewrite status_state.
    destruct (negb done && _).
    + intro Hr.
      apply (emit_calls_twice "status" _ g (snd (set_emitted_status true st)));
        assumption.
    + apply (emit_calls_once "status" _ g (snd (set_emitted_status true st))).
      exact Hg.
  - unfold Emitter.fail. rewrite status_state. cbn [negb andb].
    apply (emit_calls_once "status" _ g (snd (set_emitted_status true st))).
    exact Hg.
Qed.

Lemma status_delivery_witness :
  sink_calls (snd (Emitter.status "Running" "in_progress" false
                     (snd (Emitter.set_status_prefix (Some "Sandbox: ")
                             (initial_state (Some plain_sink) false)))))
  = [status_event "in_progress" "Sandbox: Running" false;
     status_event "in_progress" "Sandbox: Running" false]
  /\ sink_calls (snd (Emitter.fail "No messages in conversation."
                        (initial_state (Some plain_sink) false)))
     = [status_event "error" "No messages in conversation." true].
Proof.
  destruct (proj2 (status_delivery
                     (snd (Emitter.set_status_prefix (Some "Sandbox: ")
                             (initial_state (Some plain_sink) false)))
                     "Running" "in_progress" false)
              plain_sink eq_refl) as (Htwice & _).
  destruct (proj2 (status_delivery (initial_state (Some plain_sink) false)
                     "No messages in conversation." "error" true)
              plain_sink eq_refl) as (_ & Hfail).
  split; [exact (Htwice Logic.I) | exact Hfail].
Defined.

(** X3.  The two files write the prefix test of [status] differently
    (truth of the prefix in one, [is not None] in the other); the two
    methods do the same on every notifier state and every argument. *)
Theorem status_same_in_both_files (description status_ : string) (done : bool)
    (st : state) :
  Emitter.status_if_prefix description status_ done st
  = Emitter.status description status_ done st.
Proof.
  unfold Emitter.status_if_prefix, Emitter.status, bind, get_emitter,
    set_emitted_status.
  cbn [emitter _status_prefix].
  destruct (_status_prefix (emitter st)) as [[| c p] |]; reflexivity.
Qed.

(** X4.  After [clear_status] the emitted-status flag is unset, whatever
    the sink did, so a second [clear_status] returns at once and changes
    nothing. *)
Theorem clear_status_idempotent (st : state) :
  _emitted_status (emitter (snd (Emitter.clear_status st))) = false
  /\ Emitter.clear_status (snd (Emitter.clear_status st))
     = (Val tt, snd (Emitter.clear_status st)).
Proof.
  assert (Hflag : _emitted_status (emitter (snd (Emitter.clear_status st)))
                  = false).
  { unfold Emitter.clear_status, bind at 1, get_emitter.
    destruct (_emitted_status (emitter st)) eqn:Hf; cbn [negb].
    - unfold bind at 1. cbn [set_emitted_status].
      rewrite then_ret_state, emit_emitter. reflexivity.
    - exact Hf. }
  split; [exact Hflag |].
  unfold Emitter.clear_status at 1, bind at 1, get_emitter.
  rewrite Hflag. reflexivity.
Qed.

(** ** Results as functions of the host *)

Lemma Action_action_returns h valves body f :
  sink_returns f ->
  fst (Action.action h valves body f) = Val (action_outcome h valves body).
Proof.
  intro Hf. unfold Action.action, action_outcome.
  destruct (Action.source_selector body) as [[msg status] | [block language]].
  - destruct (Action_fail_post h valves (quiet []) False
                (emit_quiet _) (flag_quiet _) body msg status
                (initial_state f (DEBUG valves))
                (initial_quiet f _ Hf)) as [Hr _].
    destruct (fst _) as [x | e']; cbn in Hr; [subst x; reflexivity | destruct Hr].
  - destruct language as [l |].
    + apply Action_run_core_returns, Hf.
    + unfold Action.run_core, try_except, raise.
      destruct (Action_fail_post h valves (quiet []) False
                  (emit_quiet _) (flag_quiet _) body
                  ("Unhandled exception: " ++
                   str_exn (OtherException
                              "'NoneType' object has no attribute 'title'"))
                  "SANDBOX_ERROR"
                  (initial_state f (DEBUG valves))
                  (initial_quiet f _ Hf)) as [Hr _].
      destruct (fst _) as [x | e']; cbn in Hr; [subst x; reflexivity | destruct Hr].
Qed.

Lemma outcome_timeout_only h valves valves' language code :
  MAX_RUNTIME_SECONDS valves = MAX_RUNTIME_SECONDS valves' ->
  outcome h valves language code = outcome h valves' language code.
Proof. intro H. unfold outcome. rewrite H. reflexivity. Qed.



Lemma outcome_output_none h valves language code :
  res_output (outcome h valves language code) = None ->
  res_status (outcome h valves language code) = "TIMEOUT".
Proof.
  unfold outcome. destruct (mkdtemp h); [discriminate |].
  destruct (interpreter_for h language) as [[| c p] |]; try discriminate.
  destruct (subprocess_run _ _ _ _) as [rc out err | err text | text];
    cbn; try discriminate; [| reflexivity].
  destruct (rc =? 0)%Z; cbn.
  - destruct (trim_output_some (Str out)) as [y ->]. discriminate.
  - destruct (trim_output_some (Str err)) as [y ->]. discriminate.
Qed.

Lemma trim_output_str s : exists y, trim_output (Some (Str s)) = Some (Str y).
Proof. unfold trim_output. destruct (truthy_value (Some (Str s))); cbn; eauto. Qed.

Lemma outcome_output_bytes h valves language code b :
  res_output (outcome h valves language code) = Some (Bytes b) ->
  res_status (outcome h valves language code) = "TIMEOUT".
Proof.
  unfold outcome. destruct (mkdtemp h); [discriminate |].
  destruct (interpreter_for h language) as [[| c p] |]; try discriminate.
  destruct (subprocess_run _ _ _ _) as [rc out err | err text | text];
    cbn; try discriminate; [| reflexivity].
  destruct (rc =? 0)%Z; cbn.
  - destruct (trim_output_str out) as [y ->]. discriminate.
  - destruct (trim_output_str err) as [y ->]. discriminate.
Qed.

(** X6.  With a sink that returns from every call (or no sink), a result
    whose output is [None] has status TIMEOUT, in both variants: every
    other status comes with a text, possibly empty. *)
Theorem output_none_only_on_timeout (h : Host) (valves : Valves)
    (f : option sink) :
  sink_returns f ->
  (forall language code x,
     fst (Tools._run_code h valves language code f) = Val x ->
     res_output x = None -> res_status x = "TIMEOUT")
  /\ (forall body x,
        fst (Action.action h valves body f) = Val x ->
        res_output x = None -> res_status x = "TIMEOUT").
Proof.
  intro Hf. split.
  - intros language code x. unfold Tools._run_code.
    rewrite Tools_run_core_returns by exact Hf.
    intro H. inversion H. apply outcome_output_none.
  - intros body x. rewrite Action_action_returns by exact Hf.
    intro H. inversion H. unfold action_outcome.
    destruct (Action.source_selector body) as [[msg status] | [block [l |]]];
      try discriminate.
    apply outcome_output_none.
Qed.

Lemma output_none_only_on_timeout_witness :
  fst (Tools._run_code slow_host default_valves "python" "while True: pass"
         None)
  = Val {| res_status := "TIMEOUT"; res_output := None |}
  /\ res_status {| res_status := "TIMEOUT"; res_output := None |} = "TIMEOUT".
Proof.
  destruct (output_none_only_on_timeout slow_host default_valves None Logic.I)
    as [HT _].
  split; [reflexivity |].
  apply (HT "python" "while True: pass"
           {| res_status := "TIMEOUT"; res_output := None |});
    reflexivity.
Defined.


(** ** Rejected transcripts and interpreter runs *)

Lemma bind_ret_state {A B} (c : M A) (b : B) st :
  snd ((c ;; ret b) st) = snd (c st).
Proof. unfold bind, ret. destruct (c st) as [[a | e] st']; reflexivity. Qed.

Lemma emit_loop_tracker n g ev result st :
  execution_tracker (snd (Emitter._emit_loop n g ev result st))
  = execution_tracker st.
Proof.
  revert result st. induction n as [| n IH]; intros result st; [reflexivity |].
  cbn [Emitter._emit_loop]. unfold bind, call_sink.
  destruct (g (sink_calls st) ev); cbn [fst snd]; try rewrite IH; reflexivity.
Qed.

Lemma emit_frame typ data twice st :
  execution_tracker (snd (Emitter._emit typ data twice st)) = execution_tracker st
  /\ spawned (snd (Emitter._emit typ data twice st)) = spawned st.
Proof.
  unfold Emitter._emit, bind, get_emitter.
  destruct (event_emitter (emitter st));
    [rewrite emit_loop_tracker, emit_loop_spawned |]; split; reflexivity.
Qed.

(** X8.  A transcript that the selector rejects makes [action] send
    exactly one notification to a present sink, whether that call returns
    or raises: an "error" status with [done] set that carries the
    rejection text (inside the debug text when DEBUG is set).  No tracker
    is created and the interpreter is not run; when the call returns, the
    result carries the status and the text of the rejection. *)
Theorem rejected_transcript_one_status (h : Host) (valves : Valves)
    (body : Body) (g : sink) (error_message status : string) :
  Action.source_selector body = inl (error_message, status) ->
  sink_calls (snd (Action.action h valves body (Some g)))
  = [status_event "error" (rejection_text h valves body error_message) true]
  /\ spawned (snd (Action.action h valves body (Some g))) = []
  /\ execution_tracker (snd (Action.action h valves body (Some g))) = None
  /\ (returns (g [] (status_event "error"
                       (rejection_text h valves body error_message) true)) ->
      fst (Action.action h valves body (Some g))
      = Val {| res_status := status;
               res_output := Some (Str error_message) |}).
Proof.
  intro Hsel. unfold Action.action. rewrite Hsel.
  set (st0 := initial_state (Some g) (DEBUG valves)).
  assert (Hfail : Action._fail h valves body error_message status
                  = (Emitter.fail (rejection_text h valves body error_message) ;;
                     ret {| res_status := status;
                            res_output := Some (Str error_message) |})).
  { unfold Action._fail, rejection_text. destruct (DEBUG valves); reflexivity. }
  rewrite Hfail. set (text := rejection_text h valves body error_message).
  repeat split.
  - rewrite bind_ret_state. unfold Emitter.fail. rewrite status_state.
    apply (emit_calls_once "status" _ g (snd (set_emitted_status true st0))).
    reflexivity.
  - rewrite bind_ret_state. unfold Emitter.fail. rewrite status_state.
    apply emit_frame.
  - rewrite bind_ret_state. unfold Emitter.fail. rewrite status_state.
    apply emit_frame.
  - intro Hr. unfold bind at 1, Emitter.fail, Emitter.status, bind,
      set_emitted_status, get_emitter, Emitter._emit, bind, get_emitter.
    cbn [emitter event_emitter _status_prefix st0 initial_state negb andb
         Emitter._emit_loop sink_calls].
    unfold bind, call_sink. cbn [sink_calls].
    fold (status_event "error" text true).
    destruct (g [] (status_event "error" text true)); cbn in Hr;
      [reflexivity | reflexivity | destruct Hr].
Qed.

Lemma rejected_transcript_one_status_witness :
  sink_calls (snd (Action.action hello_host default_valves
                     {| messages := Some [] |} (Some broken_sink)))
  = [status_event "error" "No messages in conversation." true]
  /\ spawned (snd (Action.action hello_host default_valves
                     {| messages := Some [] |} (Some broken_sink))) = [].
Proof.
  destruct (rejected_transcript_one_status hello_host default_valves
              {| messages := Some [] |} broken_sink
              "No messages in conversation." "INVALID_INPUT" eq_refl)
    as (Hcalls & Hspawned & _).
  split; [exact Hcalls | exact Hspawned].
Defined.

Section Spawns.

Lemma spawns_ret {A} (a : A) : spawns 0 (ret a).
Proof. intro st. exists []. split; [symmetry; apply app_nil_r | reflexivity]. Qed.

Lemma spawns_raise {A} (e : exn) : spawns 0 (@raise A e).
Proof. intro st. exists []. split; [symmetry; apply app_nil_r | reflexivity]. Qed.

Lemma spawns_weaken {A} n m (c : M A) :
  (n <= m)%nat -> spawns n c -> spawns m c.
Proof.
  intros Hle Hc st. destruct (Hc st) as (l & Hl & Hn).
  exists l. split; [exact Hl | lia].
Qed.

Lemma spawns_bind {A B} n m (c : M A) (k : A -> M B) :
  spawns n c -> (forall a, spawns m (k a)) -> spawns (n + m) (bind c k).
Proof.
  intros Hc Hk st. unfold bind. destruct (Hc st) as (l & Hl & Hn).
  destruct (c st) as [[a | e] st']; cbn [snd] in *.
  - destruct (Hk a st') as (l' & Hl' & Hm). exists (l ++ l')%list.
    rewrite Hl', Hl, app_assoc, length_app. split; [reflexivity | lia].
  - exists l. split; [exact Hl | lia].
Qed.

Lemma spawns_try {A} n m (c : M A) (handler : exn -> option (M A)) :
  spawns n c ->
  (forall e hd, handler e = Some hd -> spawns m hd) ->
  spawns (n + m) (try_except c handler).
Proof.
  intros Hc Hh st. unfold try_except. destruct (Hc st) as (l & Hl & Hn).
  destruct (c st) as [[a | e] st']; cbn [snd] in *.
  - exists l. split; [exact Hl | lia].
  - destruct (handler e) as [hd |] eqn:He.
    + destruct (Hh e hd He st') as (l' & Hl' & Hm). exists (l ++ l')%list.
      rewrite Hl', Hl, app_assoc, length_app. split; [reflexivity | lia].
    + exists l. split; [exact Hl | lia].
Qed.

Lemma spawns_frame {A} (c : M A) :
  (forall st, spawned (snd (c st)) = spawned st) -> spawns 0 c.
Proof.
  intros H st. exists []. rewrite H, app_nil_r. split; reflexivity.
Qed.

Lemma spawns_seq0 {A B} (c : M A) (k : A -> M B) :
  spawns 0 c -> (forall a, spawns 0 (k a)) -> spawns 0 (bind c k).
Proof. intros Hc Hk. apply (spawns_bind 0 0); assumption. Qed.

Lemma spawns_emit_unit typ data twice :
  spawns 0 (Emitter._emit typ data twice ;; ret tt).
Proof.
  apply spawns_seq0; [| intro; apply spawns_ret].
  apply spawns_frame. intro st. apply emit_frame.
Qed.

Lemma spawns_status description status_ done :
  spawns 0 (Emitter.status description status_ done).
Proof.
  unfold Emitter.status.
  apply spawns_seq0; [apply spawns_frame; reflexivity |].
  intros _. apply spawns_seq0; [apply spawns_frame; reflexivity |].
  intros self. apply spawns_emit_unit.
Qed.

Lemma spawns_clear_status : spawns 0 Emitter.clear_status.
Proof.
  unfold Emitter.clear_status.
  apply spawns_seq0; [apply spawns_frame; reflexivity |].
  intros self. destruct (negb _); [apply spawns_ret |].
  apply spawns_seq0; [apply spawns_frame; reflexivity |].
  intros _. apply spawns_emit_unit.
Qed.

Lemma spawns_tracker_update f : spawns 0 (tracker_update f).
Proof.
  unfold tracker_update.
  apply spawns_seq0; [apply spawns_frame; reflexivity |].
  intros t. apply spawns_frame. reflexivity.
Qed.

Lemma spawns_publish : spawns 0 publish_tracker.
Proof.
  unfold publish_tracker.
  apply spawns_seq0; [apply spawns_frame; reflexivity |].
  intros [t |]; [apply spawns_emit_unit | apply spawns_ret].
Qed.

Lemma spawns_debug_status valves status output :
  spawns 0 (debug_status valves status output).
Proof.
  unfold debug_status. destruct (DEBUG valves);
    [apply spawns_status | apply spawns_ret].
Qed.

Lemma spawns_report_failure valves language_title status output :
  spawns 0 (report_failure valves language_title status output).
Proof.
  unfold report_failure, Emitter.message.
  repeat match goal with
         | |- spawns 0 (if ?b then _ else _) => destruct b
         end; try apply spawns_emit_unit.
  apply spawns_raise.
Qed.

Lemma spawns_run h argv input timeout :
  spawns 1 (run_subprocess h argv input timeout).
Proof.
  intro st. exists [(argv, input, timeout)]. unfold run_subprocess.
  destruct (subprocess_run h argv input timeout); split; reflexivity.
Qed.

Lemma spawns_with_tmpdir {A} n h (body : M A) :
  spawns n body -> spawns n (with_tmpdir h body).
Proof.
  intro Hb. unfold with_tmpdir. destruct (mkdtemp h); [| exact Hb].
  apply (spawns_weaken 0); [lia | apply spawns_raise].
Qed.

Lemma spawns_timeout_handler {A} valves (a : A) :
  spawns 0 (Emitter.fail (timed_out_text valves) ;;
            tracker_update
              (CodeExecutionTracker.set_error (timed_out_text valves)) ;;
            ret a).
Proof.
  apply spawns_seq0; [apply spawns_status |].
  intros _. apply spawns_seq0; [apply spawns_tracker_update |].
  intros _. apply spawns_ret.
Qed.

Lemma spawns_Tools_execute h valves interpreter_path code :
  spawns 1 (Tools.execute h valves interpreter_path code).
Proof.
  unfold Tools.execute. apply (spawns_try 1 0).
  - apply (spawns_bind 1 0); [apply spawns_run |].
    intros [[rc out] err]. destruct (negb _); apply spawns_ret.
  - intros e hd He. destruct e; inversion He; subst hd.
    apply spawns_timeout_handler.
Qed.

Lemma spawns_Action_execute h valves language language_title code :
  spawns 1 (Action.execute h valves language language_title code).
Proof.
  unfold Action.execute. apply (spawns_try 1 0).
  - destruct (interpreter_for h language) as [[| c p] |];
      try (apply (spawns_weaken 0); [lia | apply spawns_raise]).
    apply (spawns_bind 1 0); [apply spawns_run |].
    intros [[rc out] err].
    destruct (negb _); [apply spawns_raise | apply spawns_ret].
  - intros e hd He. destruct e; inversion He; subst hd.
    + apply spawns_timeout_handler.
    + apply spawns_seq0; [apply spawns_status |].
      intros _. apply spawns_seq0; [apply spawns_tracker_update |].
      intros _. apply spawns_ret.
Qed.

Lemma spawns_Tools_final_message valves language language_title code s output :
  spawns 0 (Tools.final_message valves language language_title code s output).
Proof.
  unfold Tools.final_message. destruct (String.eqb s "OK").
  - destruct output; [apply spawns_emit_unit | apply spawns_raise].
  - apply spawns_report_failure.
Qed.

Lemma spawns_Tools_run_normalized h valves language language_title code :
  spawns 1 (Tools.run_normalized h valves language language_title code).
Proof.
  unfold Tools.run_normalized.
  apply (spawns_bind 0 1); [apply spawns_frame; reflexivity |].
  intros _. apply (spawns_bind 0 1); [apply spawns_clear_status |].
  intros _. apply (spawns_bind 0 1); [apply spawns_publish |].
  intros _. apply spawns_with_tmpdir.
  destruct (interpreter_for h language) as [[| c p] |];
    try (apply (spawns_weaken 0); [lia | apply spawns_raise]).
  apply (spawns_bind 1 0); [apply spawns_Tools_execute |].
  intros [s out].
  apply spawns_seq0; [apply spawns_tracker_update |].
  intros _. apply spawns_seq0; [apply spawns_publish |].
  intros _. apply spawns_seq0; [apply spawns_debug_status |].
  intros _. apply spawns_seq0; [apply spawns_Tools_final_message |].
  intros _. apply spawns_seq0; [apply spawns_publish |].
  intros _. apply spawns_ret.
Qed.

Lemma spawns_Action_tail valves language_title s out :
  spawns 0
    (tracker_update (CodeExecutionTracker.set_output (trim_output out)) ;;
     publish_tracker ;;
     debug_status valves s (trim_output out) ;;
     if String.eqb s "OK" then
       Emitter.message
         (LF ++ LF ++ "---" ++ LF ++ "I executed this " ++ language_title
          ++ " code and got:" ++ LF ++ "```Output" ++ LF
          ++ str_opt (trim_output out) ++ LF ++ "```" ++ LF) ;;
       ret {| res_status := s; res_output := trim_output out |}
     else
       report_failure valves language_title s (trim_output out) ;;
       ret {| res_status := s; res_output := trim_output out |}).
Proof.
  apply spawns_seq0; [apply spawns_tracker_update |].
  intros _. apply spawns_seq0; [apply spawns_publish |].
  intros _. apply spawns_seq0; [apply spawns_debug_status |].
  intros _. destruct (String.eqb s "OK").
  - apply spawns_seq0; [apply spawns_emit_unit |].
    intros _. apply spawns_ret.
  - apply spawns_seq0; [apply spawns_report_failure |].
    intros _. apply spawns_ret.
Qed.

Lemma spawns_Action_run_normalized h valves language language_title code :
  spawns 1 (Action.run_normalized h valves language language_title code).
Proof.
  unfold Action.run_normalized.
  apply (spawns_bind 0 1); [apply spawns_frame; reflexivity |].
  intros _. apply (spawns_bind 0 1); [apply spawns_clear_status |].
  intros _. apply (spawns_bind 0 1); [apply spawns_publish |].
  intros _. apply spawns_with_tmpdir.
  apply (spawns_bind 1 0); [apply spawns_Action_execute |].
  intros [s out]. apply spawns_Action_tail.
Qed.

Lemma spawns_Tools_fail valves language code error_message status :
  spawns 0 (Tools._fail valves language code error_message status).
Proof.
  unfold Tools._fail.
  apply spawns_seq0; [apply spawns_frame; reflexivity |].
  intros t. apply spawns_seq0.
  - destruct t; [| apply spawns_ret].
    apply spawns_seq0; [apply spawns_tracker_update |].
    intros _. apply spawns_publish.
  - intros _. apply spawns_seq0; [| intros _; apply spawns_ret].
    destruct (DEBUG valves); apply spawns_status.
Qed.

Lemma spawns_Action_fail h valves body error_message status :
  spawns 0 (Action._fail h valves body error_message status).
Proof.
  unfold Action._fail.
  apply spawns_seq0; [| intros _; apply spawns_ret].
  destruct (DEBUG valves); apply spawns_status.
Qed.

(** The body of the [try] runs no interpreter when the directory cannot
    be made or no interpreter is found. *)
Lemma spawns_Tools_setup_failure h valves language language_title code :
  mkdtemp h <> None \/ no_interpreter h language ->
  spawns 0 (Tools.run_normalized h valves language language_title code).
Proof.
  intro Hfail. unfold Tools.run_normalized.
  apply spawns_seq0; [apply spawns_frame; reflexivity |].
  intros _. apply spawns_seq0; [apply spawns_clear_status |].
  intros _. apply spawns_seq0; [apply spawns_publish |].
  intros _. unfold with_tmpdir.
  destruct (mkdtemp h) as [text |]; [apply spawns_raise |].
  destruct Hfail as [Hd | [Hi | Hi]]; [contradiction | |];
    rewrite Hi; apply spawns_raise.
Qed.

Lemma spawns_Action_setup_failure h valves language language_title code :
  mkdtemp h <> None \/ no_interpreter h language ->
  spawns 0 (Action.run_normalized h valves language language_title code).
Proof.
  intro Hfail. unfold Action.run_normalized.
  apply spawns_seq0; [apply spawns_frame; reflexivity |].
  intros _. apply spawns_seq0; [apply spawns_clear_status |].
  intros _. apply spawns_seq0; [apply spawns_publish |].
  intros _. unfold with_tmpdir.
  destruct (mkdtemp h) as [text |]; [apply spawns_raise |].
  destruct Hfail as [Hd | Hi]; [contradiction |].
  apply spawns_seq0; [| intros [s out]; apply spawns_Action_tail].
  unfold Action.execute. apply (spawns_try 0 0).
  - destruct Hi as [Hi | Hi]; rewrite Hi; apply spawns_raise.
  - intros e hd He. destruct e; inversion He; subst hd.
    + apply spawns_timeout_handler.
    + apply spawns_seq0; [apply spawns_status |].
      intros _. apply spawns_seq0; [apply spawns_tracker_update |].
      intros _. apply spawns_ret.
Qed.

End Spawns.

Lemma spawned_from_initial {A} n (c : M A) f debug :
  spawns n c -> (length (spawned (snd (c (initial_state f debug)))) <= n)%nat.
Proof.
  intro Hc. destruct (Hc (initial_state f debug)) as (l & Hl & Hn).
  rewrite Hl. exact Hn.
Qed.

Lemma spawns_handled {A} n (c : M A) (handler : exn -> M A) :
  spawns n c -> (forall e, spawns 0 (handler e)) ->
  spawns n (try_except c (except_Exception handler)).
Proof.
  intros Hc Hh. replace n with (n + 0)%nat by lia.
  apply spawns_try; [exact Hc |].
  intros e hd He. unfold except_Exception in He.
  destruct (is_Exception e); inversion He. apply Hh.
Qed.

(** X9.  Whatever the host and the sink do, a request of either variant
    runs the interpreter at most once; it does not run it at all when the
    temporary directory cannot be made, when no interpreter is found for
    the language, or when the transcript is rejected. *)
Theorem interpreter_run_at_most_once (h : Host) (valves : Valves)
    (f : option sink) :
  (forall language code,
     (length (spawned (snd (Tools._run_code h valves language code f))) <= 1)%nat)
  /\ (forall body,
        (length (spawned (snd (Action.action h valves body f))) <= 1)%nat)
  /\ (forall language code,
        mkdtemp h <> None \/ no_interpreter h language ->
        spawned (snd (Tools._run_code h valves language code f)) = [])
  /\ (forall body block language,
        Action.source_selector body = inr (block, Some language) ->
        mkdtemp h <> None \/ no_interpreter h language ->
        spawned (snd (Action.action h valves body f)) = [])
  /\ (forall body error_message status,
        Action.source_selector body = inl (error_message, status) ->
        spawned (snd (Action.action h valves body f)) = []).
Proof.
  assert (Hnil : forall l : list (list string * string * Z),
            (length l <= 0)%nat -> l = []).
  { intros [| x l] H; [reflexivity | cbn in H; lia]. }
  split; [| split; [| split; [| split]]].
  - intros language code. unfold Tools._run_code, Tools.run_core.
    apply spawned_from_initial, spawns_handled.
    + apply spawns_Tools_run_normalized.
    + intro e. apply spawns_Tools_fail.
  - intro body. unfold Action.action.
    destruct (Action.source_selector body) as [[msg status] | [block language]].
    + apply (Nat.le_trans _ 0); [| lia].
      apply spawned_from_initial, spawns_Action_fail.
    + unfold Action.run_core. apply spawned_from_initial, spawns_handled.
      * destruct language; [apply spawns_Action_run_normalized |].
        apply (spawns_weaken 0); [lia | apply spawns_raise].
      * intro e. apply spawns_Action_fail.
  - intros language code Hfail. apply Hnil.
    unfold Tools._run_code, Tools.run_core.
    apply spawned_from_initial, spawns_handled.
    + apply spawns_Tools_setup_failure, Hfail.
    + intro e. apply spawns_Tools_fail.
  - intros body block language Hsel Hfail. apply Hnil.
    unfold Action.action. rewrite Hsel. unfold Action.run_core.
    apply spawned_from_initial, spawns_handled.
    + apply spawns_Action_setup_failure, Hfail.
    + intro e. apply spawns_Action_fail.
  - intros body msg status Hsel. apply Hnil.
    unfold Action.action. rewrite Hsel.
    apply spawned_from_initial, spawns_Action_fail.
Qed.

Lemma interpreter_run_at_most_once_witness :
  spawned (snd (Tools._run_code hello_host default_valves "ruby" "puts 1"
                  (Some broken_sink))) = []
  /\ spawned (snd (Action.action hello_host default_valves
                     unrecognized_transcript (Some plain_sink))) = [].
Proof.
  destruct (interpreter_run_at_most_once hello_host default_valves
              (Some broken_sink)) as (_ & _ & HT & _).
  destruct (interpreter_run_at_most_once hello_host default_valves
              (Some plain_sink)) as (_ & _ & _ & _ & HA).
  split.
  - apply HT. right. left. reflexivity.
  - apply (HA unrecognized_transcript
             "Message does not contain code blocks detected as Python or Bash."
             "SANDBOX_ERROR").
    reflexivity.
Defined.

(** ** Requests step by step, with a sink that returns *)

Lemma bind_val {A B} (c : M A) (k : A -> M B) st a st' r :
  c st = (Val a, st') -> k a st' = r -> bind c k st = r.
Proof. intros Hc Hk. unfold bind. rewrite Hc. exact Hk. Qed.

Section Symbolic.

Context (g : sink) (Hg : always_returns g).

Lemma call_sink_St ev d fl t calls sp :
  exists v,
    call_sink g ev (St g d fl t calls sp)
    = (Val v, St g d fl t (calls ++ [ev]) sp).
Proof.
  unfold call_sink. cbn [St sink_calls]. pose proof (Hg calls ev) as Hr.
  destruct (g calls ev); cbn in Hr; [eexists; reflexivity .. | destruct Hr].
Qed.

Lemma emit_loop_St n ev result d fl t calls sp :
  exists v,
    Emitter._emit_loop n g ev result (St g d fl t calls sp)
    = (Val v, St g d fl t (calls ++ repeat ev n) sp).
Proof.
  revert result calls. induction n as [| n IH]; intros result calls.
  - exists result. cbn. rewrite app_nil_r. reflexivity.
  - cbn [Emitter._emit_loop repeat].
    destruct (call_sink_St ev d fl t calls sp) as [v Hv].
    destruct (IH (match v with Some r => r | None => result end)
                 (calls ++ [ev])%list) as [v' Hv'].
    exists v'. apply (bind_val _ _ _ _ _ _ Hv).
    rewrite Hv', <- app_assoc. reflexivity.
Qed.

Lemma emit_unit_St typ data twice d fl t calls sp :
  (Emitter._emit typ data twice ;; ret tt) (St g d fl t calls sp)
  = (Val tt,
     St g d fl t
       (calls ++ repeat {| ev_type := typ; ev_data := data |}
                   (if twice then 2 else 1)) sp).
Proof.
  destruct (emit_loop_St (if twice then 2 else 1)
              {| ev_type := typ; ev_data := data |} None d fl t calls sp)
    as [v Hv].
  apply (bind_val _ _ _ v (St g d fl t
           (calls ++ repeat {| ev_type := typ; ev_data := data |}
                       (if twice then 2 else 1)) sp)); [| reflexivity].
  unfold Emitter._emit, bind, get_emitter. exact Hv.
Qed.

Lemma code_execution_St x d fl t calls sp :
  Emitter.code_execution x (St g d fl t calls sp)
  = (Val tt, St g d fl t (calls ++ [citation_event x; citation_event x]) sp).
Proof. apply emit_unit_St. Qed.

Lemma message_St content d fl t calls sp :
  Emitter.message content (St g d fl t calls sp)
  = (Val tt, St g d fl t (calls ++ [message_event content]) sp).
Proof. apply emit_unit_St. Qed.

Lemma status_St description status_ done d fl t calls sp :
  Emitter.status description status_ done (St g d fl t calls sp)
  = (Val tt,
     St g d true t
       (calls ++ repeat (status_event status_ description done)
                   (if negb done && (String.length description <=? 1024)%nat
                    then 2 else 1)) sp).
Proof.
  unfold Emitter.status.
  apply (bind_val _ _ _ tt (St g d true t calls sp)); [reflexivity |].
  apply (bind_val _ _ _ (emitter (St g d true t calls sp))
           (St g d true t calls sp)); [reflexivity |].
  cbn [St emitter _status_prefix].
  apply (emit_unit_St "status" (StatusData status_ description done)).
Qed.

Lemma fail_St description d fl t calls sp :
  Emitter.fail description (St g d fl t calls sp)
  = (Val tt,
     St g d true t (calls ++ [status_event "error" description true]) sp).
Proof. unfold Emitter.fail. rewrite status_St. reflexivity. Qed.

Lemma publish_tracker_St x d fl calls sp :
  publish_tracker (St g d fl (Some x) calls sp)
  = (Val tt,
     St g d fl (Some x) (calls ++ [citation_event x; citation_event x]) sp).
Proof.
  unfold publish_tracker.
  apply (bind_val _ _ _ (Some x) (St g d fl (Some x) calls sp));
    [reflexivity |].
  apply code_execution_St.
Qed.

Lemma tracker_update_St f x d fl calls sp :
  tracker_update f (St g d fl (Some x) calls sp)
  = (Val tt, St g d fl (Some (f x)) calls sp).
Proof. reflexivity. Qed.

Lemma clear_status_fresh_St d t calls sp :
  Emitter.clear_status (St g d false t calls sp)
  = (Val tt, St g d false t calls sp).
Proof. reflexivity. Qed.

Lemma debug_status_St valves s output d fl t calls sp :
  exists text,
    debug_status valves s output (St g d fl t calls sp)
    = (Val tt,
       St g d (fl || DEBUG valves) t
         (calls ++ if DEBUG valves
                   then [status_event
                           (if String.eqb s "OK" then "complete" else "error")
                           text true]
                   else []) sp).
Proof.
  unfold debug_status. destruct (DEBUG valves).
  - eexists. rewrite orb_true_r, status_St. reflexivity.
  - exists "". rewrite orb_false_r, app_nil_r. reflexivity.
Qed.

Lemma report_failure_St valves language_title s output d fl t calls sp :
  s = "ERROR" \/ s = "TIMEOUT" ->
  exists content,
    report_failure valves language_title s output (St g d fl t calls sp)
    = (Val tt, St g d fl t (calls ++ [message_event content]) sp).
Proof.
  intros [-> | ->]; unfold report_failure.
  - rewrite eqb_TIMEOUT_ERROR, String.eqb_refl. cbn [andb].
    destruct (truthy_value output); eexists; apply message_St.
  - rewrite String.eqb_refl.
    destruct (truthy_value output); eexists; apply message_St.
Qed.

Lemma Tools_final_message_St valves language language_title code o s out
    d fl t calls sp :
  exec_value o = Some (s, out) ->
  exists content,
    Tools.final_message valves language language_title code s
      (trim_output out) (St g d fl t calls sp)
    = (Val tt, St g d fl t (calls ++ [message_event content]) sp).
Proof.
  intro Hv. unfold Tools.final_message.
  destruct (exec_value_status _ _ _ Hv) as [[-> [x ->]] | [-> | ->]].
  - rewrite String.eqb_refl. destruct (trim_output_some x) as [y ->].
    eexists. apply message_St.
  - rewrite eqb_OK_ERROR. apply report_failure_St. auto.
  - rewrite eqb_OK_TIMEOUT. apply report_failure_St. auto.
Qed.

(** The run of the interpreter in the direct variant. *)
Lemma Tools_execute_St h valves interpreter_path code s out x d fl calls sp :
  exec_value (subprocess_run h [interpreter_path; "/dev/stdin"] (code ++ LF)
                (MAX_RUNTIME_SECONDS valves)) = Some (s, out) ->
  Tools.execute h valves interpreter_path code (St g d fl (Some x) calls sp)
  = (Val (s, out),
     if timed_out (subprocess_run h [interpreter_path; "/dev/stdin"]
                     (code ++ LF) (MAX_RUNTIME_SECONDS valves))
     then St g d true
            (Some (CodeExecutionTracker.set_error (timed_out_text valves) x))
            (calls ++ [status_event "error" (timed_out_text valves) true])
            (sp ++ [([interpreter_path; "/dev/stdin"], code ++ LF,
                     MAX_RUNTIME_SECONDS valves)])
     else St g d fl (Some x) calls
            (sp ++ [([interpreter_path; "/dev/stdin"], code ++ LF,
                     MAX_RUNTIME_SECONDS valves)])).
Proof.
  intro Hv. unfold Tools.execute, try_except, bind at 1, run_subprocess.
  destruct (subprocess_run _ _ _ _) as [rc o1 e1 | err text | text];
    cbn in Hv; try discriminate; cbn [timed_out].
  - inversion Hv as [Hso]. destruct (rc =? 0)%Z; reflexivity.
  - inversion Hv; subst s out.
    apply (bind_val _ _ _ tt _ _ (fail_St _ _ _ _ _ _)).
    reflexivity.
Qed.

End Symbolic.

Lemma exec_value_run_output o s out :
  exec_value o = Some (s, out) -> trim_output out = run_output o.
Proof.
  destruct o as [rc o1 e1 | err t | t]; cbn; intro H; try discriminate.
  - destruct (rc =? 0)%Z; inversion H; reflexivity.
  - inversion H; reflexivity.
Qed.

Lemma debug_status_St' g (Hg : always_returns g) valves s output d fl t calls sp :
  debug_status valves s output (St g d fl t calls sp)
  = (Val tt,
     St g d (fl || DEBUG valves) t
       (calls ++ if DEBUG valves
                 then [status_event
                         (if String.eqb s "OK" then "complete" else "error")
                         (debug_text valves s output) true]
                 else []) sp).
Proof.
  unfold debug_status. destruct (DEBUG valves).
  - rewrite orb_true_r, (status_St g Hg). reflexivity.
  - rewrite orb_false_r, app_nil_r. reflexivity.
Qed.

(** The body of the [try] of the direct variant, from the first state to
    the last. *)
Lemma Tools_run_normalized_St g h valves language code c p s out d :
  always_returns g ->
  mkdtemp h = None ->
  interpreter_for h language = Some (String c p) ->
  exec_value (subprocess_run h [String c p; "/dev/stdin"] (code ++ LF)
                (MAX_RUNTIME_SECONDS valves)) = Some (s, out) ->
  exists content,
    Tools.run_normalized h valves language (title language) code
      (St g d false None [] [])
    = (Val {| res_status := s; res_output := trim_output out |},
       St g d
         (timed_out (subprocess_run h [String c p; "/dev/stdin"] (code ++ LF)
                       (MAX_RUNTIME_SECONDS valves)) || DEBUG valves)
         (Some (tools_recorded valves
                  (subprocess_run h [String c p; "/dev/stdin"] (code ++ LF)
                     (MAX_RUNTIME_SECONDS valves))
                  (tools_tracker h language code)))
         (tools_notifications h valves language code
            (subprocess_run h [String c p; "/dev/stdin"] (code ++ LF)
               (MAX_RUNTIME_SECONDS valves)) s content)
         [([String c p; "/dev/stdin"], code ++ LF, MAX_RUNTIME_SECONDS valves)]).
Proof.
  intros Hg Htmp Hint Hv.
  set (o := subprocess_run h [String c p; "/dev/stdin"] (code ++ LF)
              (MAX_RUNTIME_SECONDS valves)) in *.
  pose proof (exec_value_run_output o s out Hv) as Hout.
  unfold tools_notifications, tools_recorded. rewrite <- Hout.
  set (t0 := tools_tracker h language code).
  destruct (timed_out o) eqn:Hto.
  - edestruct (Tools_final_message_St g Hg valves language (title language)
                 code o s out) as [content Hm]; [exact Hv |].
    exists content. unfold Tools.run_normalized.
    eapply bind_val; [reflexivity |].
    eapply bind_val; [apply clear_status_fresh_St |].
    eapply bind_val; [apply (publish_tracker_St g Hg) |].
    unfold with_tmpdir. rewrite Htmp, Hint.
    eapply bind_val; [apply (Tools_execute_St g Hg); exact Hv |].
    fold o. rewrite Hto. cbv beta iota.
    eapply bind_val; [apply tracker_update_St |].
    eapply bind_val; [apply (publish_tracker_St g Hg) |].
    eapply bind_val; [apply (debug_status_St' g Hg) |].
    eapply bind_val; [exact Hm |].
    eapply bind_val; [apply (publish_tracker_St g Hg) |].
    destruct (DEBUG valves); reflexivity.
  - edestruct (Tools_final_message_St g Hg valves language (title language)
                 code o s out) as [content Hm]; [exact Hv |].
    exists content. unfold Tools.run_normalized.
    eapply bind_val; [reflexivity |].
    eapply bind_val; [apply clear_status_fresh_St |].
    eapply bind_val; [apply (publish_tracker_St g Hg) |].
    unfold with_tmpdir. rewrite Htmp, Hint.
    eapply bind_val; [apply (Tools_execute_St g Hg); exact Hv |].
    fold o. rewrite Hto. cbv beta iota.
    eapply bind_val; [apply tracker_update_St |].
    eapply bind_val; [apply (publish_tracker_St g Hg) |].
    eapply bind_val; [apply (debug_status_St' g Hg) |].
    eapply bind_val; [exact Hm |].
    eapply bind_val; [apply (publish_tracker_St g Hg) |].
    destruct (DEBUG valves); reflexivity.
Qed.



(** ** The transcript variant step by step *)

Lemma Action_execute_St g (Hg : always_returns g) h valves language
    language_title code c p s out x d fl calls sp :
  interpreter_for h language = Some (String c p) ->
  exec_value (subprocess_run h [String c p; "/dev/stdin"] (code ++ LF)
                (MAX_RUNTIME_SECONDS valves)) = Some (s, out) ->
  Action.execute h valves language language_title code
    (St g d fl (Some x) calls sp)
  = (Val (s, out),
     match action_failure_text h valves language_title (String c p)
             (subprocess_run h [String c p; "/dev/stdin"] (code ++ LF)
                (MAX_RUNTIME_SECONDS valves)) with
     | Some e =>
         St g d true (Some (CodeExecutionTracker.set_error e x))
           (calls ++ [status_event "error" e true])
           (sp ++ [([String c p; "/dev/stdin"], code ++ LF,
                    MAX_RUNTIME_SECONDS valves)])
     | None =>
         St g d fl (Some x) calls
           (sp ++ [([String c p; "/dev/stdin"], code ++ LF,
                    MAX_RUNTIME_SECONDS valves)])
     end).
Proof.
  intros Hint Hv. unfold Action.execute, try_except. rewrite Hint.
  unfold bind at 1, run_subprocess.
  destruct (subprocess_run _ _ _ _) as [rc o1 e1 | err text | text];
    cbn in Hv; try discriminate; cbn [action_failure_text].
  - destruct (rc =? 0)%Z; inversion Hv; subst s out; cbn [negb].
    + reflexivity.
    + unfold raise.
      apply (bind_val _ _ _ tt _ _ (fail_St g Hg _ _ _ _ _ _)).
      reflexivity.
  - inversion Hv; subst s out.
    apply (bind_val _ _ _ tt _ _ (fail_St g Hg _ _ _ _ _ _)).
    reflexivity.
Qed.

Lemma Action_final_message_St g (Hg : always_returns g) valves language_title
    o s out (r : Result) d fl t calls sp :
  exec_value o = Some (s, out) ->
  exists content,
    (if String.eqb s "OK" then
       Emitter.message
         (LF ++ LF ++ "---" ++ LF ++ "I executed this " ++ language_title
          ++ " code and got:" ++ LF ++ "```Output" ++ LF
          ++ str_opt (trim_output out) ++ LF ++ "```" ++ LF) ;;
       ret r
     else
       report_failure valves language_title s (trim_output out) ;;
       ret r) (St g d fl t calls sp)
    = (Val r, St g d fl t (calls ++ [message_event content]) sp).
Proof.
  intro Hv.
  destruct (exec_value_status _ _ _ Hv) as [[-> [x ->]] | [-> | ->]].
  - rewrite String.eqb_refl. eexists.
    eapply bind_val; [apply (message_St g Hg) | reflexivity].
  - rewrite eqb_OK_ERROR.
    destruct (report_failure_St g Hg valves language_title "ERROR"
                (trim_output out) d fl t calls sp) as [content Hm]; [auto |].
    exists content. eapply bind_val; [exact Hm | reflexivity].
  - rewrite eqb_OK_TIMEOUT.
    destruct (report_failure_St g Hg valves language_title "TIMEOUT"
                (trim_output out) d fl t calls sp) as [content Hm]; [auto |].
    exists content. eapply bind_val; [exact Hm | reflexivity].
Qed.

Lemma Action_run_normalized_St g h valves language code c p s out d :
  always_returns g ->
  mkdtemp h = None ->
  interpreter_for h language = Some (String c p) ->
  exec_value (subprocess_run h [String c p; "/dev/stdin"] (code ++ LF)
                (MAX_RUNTIME_SECONDS valves)) = Some (s, out) ->
  exists content,
    Action.run_normalized h valves language (title language) code
      (St g d false None [] [])
    = (Val {| res_status := s; res_output := trim_output out |},
       St g d
         (match action_failure_text h valves (title language) (String c p)
                  (subprocess_run h [String c p; "/dev/stdin"]
                     (code ++ LF) (MAX_RUNTIME_SECONDS valves)) with
          | Some _ => true
          | None => false
          end || DEBUG valves)
         (Some (action_recorded
                  (action_failure_text h valves (title language) (String c p)
                     (subprocess_run h [String c p; "/dev/stdin"]
                        (code ++ LF) (MAX_RUNTIME_SECONDS valves)))
                  (subprocess_run h [String c p; "/dev/stdin"] (code ++ LF)
                     (MAX_RUNTIME_SECONDS valves))
                  (action_tracker h language code)))
         (action_notifications h valves language code (String c p)
            (subprocess_run h [String c p; "/dev/stdin"] (code ++ LF)
               (MAX_RUNTIME_SECONDS valves)) s content)
         [([String c p; "/dev/stdin"], code ++ LF, MAX_RUNTIME_SECONDS valves)]).
Proof.
  intros Hg Htmp Hint Hv.
  set (o := subprocess_run h [String c p; "/dev/stdin"] (code ++ LF)
              (MAX_RUNTIME_SECONDS valves)) in *.
  pose proof (exec_value_run_output o s out Hv) as Hout.
  unfold action_notifications, action_recorded. rewrite <- Hout.
  set (t0 := action_tracker h language code).
  destruct (action_failure_text h valves (title language) (String c p) o)
    as [e |] eqn:Hfail.
  - edestruct (Action_final_message_St g Hg valves (title language) o s out
                 {| res_status := s; res_output := trim_output out |})
      as [content Hm]; [exact Hv |].
    exists content. unfold Action.run_normalized.
    eapply bind_val; [reflexivity |].
    eapply bind_val; [apply clear_status_fresh_St |].
    eapply bind_val; [apply (publish_tracker_St g Hg) |].
    unfold with_tmpdir. rewrite Htmp.
    eapply bind_val; [apply (Action_execute_St g Hg); [exact Hint | exact Hv] |].
    fold o. rewrite Hfail. cbv beta iota.
    eapply bind_val; [apply tracker_update_St |].
    eapply bind_val; [apply (publish_tracker_St g Hg) |].
    eapply bind_val; [apply (debug_status_St' g Hg) |].
    rewrite Hm. destruct (DEBUG valves); reflexivity.
  - edestruct (Action_final_message_St g Hg valves (title language) o s out
                 {| res_status := s; res_output := trim_output out |})
      as [content Hm]; [exact Hv |].
    exists content. unfold Action.run_normalized.
    eapply bind_val; [reflexivity |].
    eapply bind_val; [apply clear_status_fresh_St |].
    eapply bind_val; [apply (publish_tracker_St g Hg) |].
    unfold with_tmpdir. rewrite Htmp.
    eapply bind_val; [apply (Action_execute_St g Hg); [exact Hint | exact Hv] |].
    fold o. rewrite Hfail. cbv beta iota.
    eapply bind_val; [apply tracker_update_St |].
    eapply bind_val; [apply (publish_tracker_St g Hg) |].
    eapply bind_val; [apply (debug_status_St' g Hg) |].
    rewrite Hm. destruct (DEBUG valves); reflexivity.
Qed.



(** ** Source selector: what it can return *)

Lemma scan_result blocks chosen :
  Action.scan blocks chosen = chosen
  \/ exists x l,
       In x blocks
       /\ (Action.python_tagged x = true \/ Action.shell_tagged x = true)
       /\ (l = "python" \/ l = "bash")
       /\ Action.scan blocks chosen = (Some x, Some l).
Proof.
  revert chosen. induction blocks as [| b rest IH]; intro chosen; [left; reflexivity |].
  cbn [Action.scan]. destruct (Action.python_tagged b) eqn:Hp.
  - right. destruct (IH (Some b, Some "python")) as [-> | (x & l & Hin & Ht & Hl & ->)].
    + exists b, "python". cbn; auto 6.
    + exists x, l. cbn; auto 6.
  - destruct (Action.shell_tagged b) eqn:Hs.
    + right. exists b, "bash". cbn; auto 6.
    + destruct (IH chosen) as [-> | (x & l & Hin & Ht & Hl & ->)]; [left; reflexivity |].
      right. exists x, l. cbn; auto 6.
Qed.

Lemma fallback_result b chosen :
  Action.fallback b chosen = chosen
  \/ exists l, (l = "python" \/ l = "bash")
               /\ Action.fallback b chosen = (Some b, Some l).
Proof.
  unfold Action.fallback.
  repeat match goal with
         | |- context [if ?x then _ else _] => destruct x
         end; eauto.
Qed.

Lemma last_code_block l :
  (length l mod 2 = 1)%nat -> (3 <= length l)%nat ->
  nth (length l - 2) l "" = last (code_blocks l) ""
  /\ In (nth (length l - 2) l "") (code_blocks l).
Proof.
  intros Hodd Hlen.
  assert (Hm : exists m, length l = (2 * m + 1)%nat).
  { exists (length l / 2)%nat.
    pose proof (Nat.div_mod_eq (length l) 2). lia. }
  destruct Hm as [m Hm]. pose proof (length_code_blocks m l Hm) as Hcb.
  destruct m as [| m]; [lia |].
  replace (length l - 2)%nat with (2 * m + 1)%nat by lia.
  rewrite nth_code_blocks. split.
  - clear Hm Hodd Hlen. revert m Hcb.
    induction (code_blocks l) as [| a r IH]; intros m Hcb; [discriminate |].
    destruct r as [| a' r'].
    + cbn in Hcb. assert (m = 0)%nat by lia. subst m. reflexivity.
    + destruct m as [| m]; [cbn in Hcb; lia |].
      change (nth (S m) (a :: a' :: r') "") with (nth m (a' :: r') "").
      change (last (a :: a' :: r') "") with (last (a' :: r') "").
      apply IH. cbn in Hcb. cbn. lia.
  - apply nth_In. lia.
Qed.

Lemma truthy_some b : truthy (Some b) = true -> b <> "".
Proof. destruct b; [discriminate | discriminate]. Qed.

Lemma select_result l b language :
  (length l mod 2 = 1)%nat -> (3 <= length l)%nat ->
  Action.select l = (Some b, language) ->
  In b (code_blocks l) /\ (language = Some "python" \/ language = Some "bash").
Proof.
  intros Hodd Hlen. unfold Action.select.
  rewrite candidates_newest_first by exact Hodd.
  destruct (scan_result (rev (code_blocks l)) (None, None))
    as [-> | (x & lang & Hin & Ht & Hl & ->)].
  - cbn [fst truthy negb].
    destruct (fallback_result (nth (length l - 2) l "") (None, None))
      as [-> | (lang & Hl & ->)]; [discriminate |].
    intro H. inversion H; subst. split.
    + apply last_code_block; assumption.
    + destruct Hl as [-> | ->]; auto.
  - cbn [fst].
    assert (Htr : truthy (Some x) = true).
    { destruct Ht as [Ht | Ht];
        [apply python_tagged_truthy | apply shell_tagged_truthy]; exact Ht. }
    rewrite Htr. cbn [negb]. intro H. inversion H; subst. split.
    + apply in_rev. exact Hin.
    + destruct Hl as [-> | ->]; auto.
Qed.

(** X12.  When the selector chooses a block, the transcript is well
    formed (a last message from the assistant with balanced fences), the
    block is one of the fenced code blocks of that message, never the
    text between them, it is not empty, and its language is ["python"] or
    ["bash"]. *)
Theorem selected_block_is_code_block (body : Body) (b : string)
    (language : option string) :
  Action.source_selector body = inr (b, language) ->
  exists segments,
    well_formed body segments
    /\ In b (code_blocks segments)
    /\ b <> ""
    /\ (language = Some "python" \/ language = Some "bash").
Proof.
  unfold Action.source_selector.
  destruct (messages body) as [[| m ms] |] eqn:Hm; try discriminate.
  destruct (String.eqb_spec (role (last (m :: ms) m)) "assistant")
    as [Hrole | _]; cbn [negb]; [| discriminate].
  set (segments := split "```" (content (last (m :: ms) m))).
  destruct ((length segments <? 3)%nat
            || negb (length segments mod 2 =? 1)%nat) eqn:Hbad;
    [discriminate |].
  apply orb_false_iff in Hbad. destruct Hbad as [Hlen Hodd].
  apply Nat.ltb_ge in Hlen. apply negb_false_iff, Nat.eqb_eq in Hodd.
  destruct (Action.select segments) as [[[| c r] |] l] eqn:Hsel;
    try discriminate.
  intro H. inversion H; subst b language.
  destruct (select_result segments (String c r) l Hodd Hlen Hsel) as [Hin Hl].
  exists segments. repeat split; try assumption.
  - exists m, ms. repeat split; assumption.
  - discriminate.
Qed.

Lemma selected_block_is_code_block_witness :
  exists segments,
    well_formed shell_between_python segments
    /\ In block_sh (code_blocks segments)
    /\ block_sh <> ""
    /\ (Some "bash" = Some "python" \/ Some "bash" = Some "bash").
Proof.
  apply (selected_block_is_code_block shell_between_python block_sh
           (Some "bash")).
  reflexivity.
Defined.

(** X13.  In a message with balanced fences none of whose blocks starts
    with a language marker, only the last code block is looked at: the
    selector returns what the heuristics say of that block, whatever the
    earlier blocks hold. *)
Theorem untagged_blocks_last_only (segments : list string) :
  (length segments mod 2 = 1)%nat -> (3 <= length segments)%nat ->
  no_shell (code_blocks segments) -> no_python (code_blocks segments) ->
  Action.select segments
  = Action.fallback (last (code_blocks segments) "") (None, None).
Proof.
  intros Hodd Hlen Hs Hp. unfold Action.select.
  rewrite candidates_newest_first by exact Hodd.
  rewrite scan_untagged by (apply Forall_rev; assumption).
  cbn [fst truthy negb].
  destruct (last_code_block segments Hodd Hlen) as [-> _]. reflexivity.
Qed.

Lemma untagged_blocks_last_only_witness :
  Action.select ["See:"; LF ++ "print(1)" ++ LF; "and"; LF ++ "hello" ++ LF; ""]
  = (None, None).
Proof.
  rewrite (untagged_blocks_last_only
             ["See:"; LF ++ "print(1)" ++ LF; "and"; LF ++ "hello" ++ LF; ""]).
  - reflexivity.
  - reflexivity.
  - cbn. lia.
  - repeat constructor.
  - repeat constructor.
Defined.

(** ** Texts built by concatenation *)

Lemma append_assoc (a b c : string) : (a ++ b) ++ c = a ++ (b ++ c).
Proof. induction a as [| x a IH]; [reflexivity | cbn; rewrite IH; reflexivity]. Qed.

Lemma append_empty_r (a : string) : a ++ "" = a.
Proof. induction a as [| x a IH]; [reflexivity | cbn; rewrite IH; reflexivity]. Qed.

Lemma length_append (a b : string) :
  String.length (a ++ b) = (String.length a + String.length b)%nat.
Proof. induction a as [| x a IH]; [reflexivity | cbn; rewrite IH; reflexivity]. Qed.

Lemma startswith_app (q s : string) : startswith q (q ++ s) = true.
Proof.
  induction q as [| c q IH]; [reflexivity |].
  cbn. rewrite Ascii.eqb_refl, IH. reflexivity.
Qed.

Lemma drop_app (q s : string) : drop (String.length q) (q ++ s) = s.
Proof. induction q as [| c q IH]; [reflexivity | exact IH]. Qed.

Lemma removeprefix_app (q s : string) : removeprefix q (q ++ s) = s.
Proof. unfold removeprefix. rewrite startswith_app. apply drop_app. Qed.

Lemma endswith_app (q s : string) : endswith q (s ++ q) = true.
Proof.
  induction s as [| c s IH].
  - cbn. destruct q as [| c q]; [reflexivity |].
    cbn [endswith]. rewrite String.eqb_refl. reflexivity.
  - cbn [append endswith]. rewrite IH. apply orb_true_r.
Qed.

Lemma removesuffix_app (q s : string) : removesuffix q (s ++ q) = s.
Proof.
  induction s as [| c s IH].
  - cbn. destruct q as [| c q]; [reflexivity |].
    cbn [removesuffix]. rewrite String.eqb_refl. reflexivity.
  - cbn [append removesuffix].
    destruct (String.eqb_spec (String c (s ++ q)) q) as [Heq | _].
    + apply (f_equal String.length) in Heq. cbn in Heq.
      rewrite length_append in Heq. lia.
    + rewrite endswith_app, IH. reflexivity.
Qed.

Section StrippingEnds.

Context (p : ascii -> bool).

Lemma rstrip_by_snoc c s :
  p c = true -> rstrip_by p (s ++ String c "") = rstrip_by p s.
Proof.
  intro Hc. induction s as [| a r IH].
  - cbn. rewrite Hc. reflexivity.
  - cbn [append]. rewrite !rstrip_by_cons, IH. reflexivity.
Qed.

Lemma strip_by_snoc c s :
  p c = true -> strip_by p (s ++ String c "") = strip_by p s.
Proof.
  intro Hc. unfold strip_by. induction s as [| a r IH].
  - cbn. rewrite Hc. reflexivity.
  - cbn [append lstrip_by]. destruct (p a); [exact IH |].
    apply (rstrip_by_snoc c (String a r) Hc).
Qed.

Lemma strip_by_cons c s : p c = true -> strip_by p (String c s) = strip_by p s.
Proof. intro Hc. unfold strip_by. cbn [lstrip_by]. rewrite Hc. reflexivity. Qed.

Lemma strip_by_idempotent s : strip_by p (strip_by p s) = strip_by p s.
Proof. destruct (strip_by_ends p s) as [Hf Hl]. apply strip_by_id; assumption. Qed.

Lemma last_sat_app c t s : last_sat p (s ++ String c t) = last_sat p (String c t).
Proof.
  induction s as [| a r IH]; [reflexivity |].
  cbn [append]. rewrite <- IH. destruct r; reflexivity.
Qed.

End StrippingEnds.

Lemma is_space_LF : is_space "010" = true.
Proof. reflexivity. Qed.

Lemma strip_between_line_feeds code : strip (LF ++ code ++ LF) = strip code.
Proof.
  unfold strip. change (LF ++ code ++ LF) with (String "010" (code ++ LF)).
  rewrite strip_by_cons by exact is_space_LF.
  apply strip_by_snoc. exact is_space_LF.
Qed.

Lemma backtick_ends y :
  startswith "`" y = false -> endswith "`" y = false ->
  strip (strip_chars "`" y) = strip y.
Proof.
  intros Hs He. rewrite startswith_backtick in Hs.
  rewrite endswith_backtick in He.
  rewrite strip_chars_backtick, strip_by_id; [reflexivity | |].
  - rewrite (first_sat_ext _ is_backtick); [exact Hs |].
    intro c. apply orb_false_r.
  - rewrite (last_sat_ext _ is_backtick); [exact He |].
    intro c. apply orb_false_r.
Qed.

Lemma fenced_split tag code :
  fenced tag code = ("```" ++ tag) ++ ((LF ++ code ++ LF) ++ "```").
Proof. unfold fenced. rewrite !append_assoc. reflexivity. Qed.

Lemma fenced_trimmed tag code : strip (fenced tag code) = fenced tag code.
Proof.
  unfold strip. apply strip_by_id; [reflexivity |].
  unfold fenced. rewrite <- !append_assoc.
  apply (last_sat_app is_space "`" "``").
Qed.

(** X14.  The normalizer recovers the code of a fenced block.  When the
    trimmed code neither starts nor ends with a backtick, normalizing the
    code inside a fence tagged with the language, inside a bare fence
    (for a language name that does not start with white space), or with
    no fence at all gives the trimmed code. *)
Theorem normalize_recovers_code (language code : string) :
  startswith "`" (strip code) = false ->
  endswith "`" (strip code) = false ->
  normalize language (fenced language code) = strip code
  /\ (first_sat is_space language = false ->
      normalize language (fenced "" code) = strip code)
  /\ normalize language code = strip code.
Proof.
  intros Hs He.
  assert (Htail : strip (strip_chars "`"
                           (strip (removesuffix "```"
                                     ((LF ++ code ++ LF) ++ "```"))))
                  = strip code).
  { rewrite removesuffix_app, strip_between_line_feeds.
    rewrite (backtick_ends _ Hs He). apply strip_by_idempotent. }
  assert (Hbare : removeprefix "```" ((LF ++ code ++ LF) ++ "```")
                  = (LF ++ code ++ LF) ++ "```") by reflexivity.
  split; [| split].
  - unfold normalize. rewrite fenced_trimmed, fenced_split.
    rewrite removeprefix_app, Hbare. exact Htail.
  - intro Hlang. unfold normalize. rewrite fenced_trimmed, fenced_split.
    destruct language as [| c l].
    + change ("```" ++ "") with "```".
      rewrite removeprefix_app, Hbare. exact Htail.
    + assert (Hno : removeprefix ("```" ++ String c l)
                      (("```" ++ "") ++ (LF ++ code ++ LF) ++ "```")
                    = ("```" ++ "") ++ (LF ++ code ++ LF) ++ "```").
      { unfold removeprefix, LF. cbn [append startswith].
        rewrite !Ascii.eqb_refl. cbn [andb].
        replace (Ascii.eqb c "010") with false; [reflexivity |].
        symmetry. apply Ascii.eqb_neq. intros ->.
        cbn in Hlang. discriminate. }
      rewrite Hno. change ("```" ++ "") with "```".
      rewrite removeprefix_app. exact Htail.
  - assert (Hsame : normalize language code = normalize language (strip code)).
    { unfold normalize, strip. rewrite strip_by_idempotent. reflexivity. }
    rewrite Hsame. rewrite startswith_backtick in Hs.
    rewrite endswith_backtick in He.
    destruct (strip_by_ends is_space code) as [Hf Hl].
    apply normalize_fixed; assumption.
Qed.

Lemma normalize_recovers_code_witness :
  normalize "bash" (fenced "bash" ("  echo hi" ++ LF)) = "echo hi"
  /\ normalize "bash" (fenced "" ("  echo hi" ++ LF)) = "echo hi"
  /\ normalize "bash" ("  echo hi" ++ LF) = "echo hi".
Proof.
  destruct (normalize_recovers_code "bash" ("  echo hi" ++ LF)
              eq_refl eq_refl) as (Htag & Hbare & Hplain).
  split; [exact Htag | split; [exact (Hbare eq_refl) | exact Hplain]].
Defined.

(** ** Messages with one fenced block *)

Lemma string_of_list_ascii_app (a b : list ascii) :
  string_of_list_ascii (a ++ b)%list
  = string_of_list_ascii a ++ string_of_list_ascii b.
Proof. induction a as [| x a IH]; [reflexivity | cbn; rewrite IH; reflexivity]. Qed.

Lemma of_rev_cons c cur r : of_rev (c :: cur) ++ r = of_rev cur ++ String c r.
Proof.
  unfold of_rev. cbn [rev]. rewrite string_of_list_ascii_app, append_assoc.
  reflexivity.
Qed.

Lemma split_scan_clean cur s :
  contains "```" s = false -> split_scan "```" 0 cur s = [of_rev cur ++ s].
Proof.
  revert cur. induction s as [| c r IH]; intros cur Hno.
  - cbn. rewrite append_empty_r. reflexivity.
  - cbn [contains] in Hno. apply orb_false_iff in Hno.
    destruct Hno as [Hstart Hrest].
    cbn [split_scan]. rewrite Hstart, (IH _ Hrest), of_rev_cons. reflexivity.
Qed.

Lemma fence_free_cons c r :
  fence_free (String c r) = true ->
  fence_free r = true
  /\ forall t, startswith "```" (String c r ++ "```" ++ t) = false.
Proof.
  unfold fence_free. intro H. apply andb_true_iff in H.
  destruct H as [Hno Hlast]. apply negb_true_iff in Hno, Hlast.
  cbn [contains] in Hno. apply orb_false_iff in Hno.
  destruct Hno as [Hstart Hrest]. split.
  - rewrite Hrest. destruct r as [| c2 r2]; [reflexivity |]. exact
      (f_equal (fun b => true && negb b) Hlast).
  - intro t. cbn [append startswith].
    destruct (Ascii.eqb "`" c) eqn:Hc; [| reflexivity]. cbn [andb].
    apply Ascii.eqb_eq in Hc. subst c.
    destruct r as [| c2 r2]; [discriminate |]. cbn [append].
    destruct (Ascii.eqb "`" c2) eqn:Hc2; [| reflexivity]. cbn [andb].
    apply Ascii.eqb_eq in Hc2. subst c2.
    destruct r2 as [| c3 r3]; [discriminate |]. cbn [append].
    destruct (Ascii.eqb "`" c3) eqn:Hc3; [| reflexivity].
    cbn [startswith] in Hstart. rewrite Hc3 in Hstart. discriminate.
Qed.

Lemma split_scan_fence cur s t :
  fence_free s = true ->
  split_scan "```" 0 cur (s ++ "```" ++ t)
  = (of_rev cur ++ s) :: split_scan "```" 0 [] t.
Proof.
  revert cur. induction s as [| c r IH]; intros cur Hfree.
  - cbn. rewrite append_empty_r. reflexivity.
  - destruct (fence_free_cons c r Hfree) as [Hr Hstart].
    specialize (Hstart t). cbn [append] in Hstart |- *.
    cbn [split_scan]. rewrite Hstart, (IH _ Hr), of_rev_cons. reflexivity.
Qed.

Lemma split_one_block pre block post :
  fence_free pre = true -> fence_free block = true ->
  contains "```" post = false ->
  split "```" (one_block pre block post) = [pre; block; post].
Proof.
  intros Hpre Hblock Hpost. unfold split, one_block.
  rewrite (split_scan_fence [] pre _ Hpre).
  rewrite (split_scan_fence [] block _ Hblock).
  rewrite (split_scan_clean [] post Hpost). reflexivity.
Qed.

Lemma selector_on_reply earlier text :
  Action.source_selector (reply earlier text)
  = let split_three_backticks := split "```" text in
    if (length split_three_backticks <? 3)%nat
       || negb (length split_three_backticks mod 2 =? 1)%nat
    then inl ("Last message did not contain well-formed code blocks.",
              "INVALID_INPUT")
    else
      let '(chosen_code_block, language) :=
        Action.select split_three_backticks in
      match chosen_code_block with
      | Some (String c b) => inr (String c b, language)
      | _ => inl ("Message does not contain code blocks detected as Python or Bash.",
                  "SANDBOX_ERROR")
      end.
Proof.
  unfold Action.source_selector, reply. cbn [messages].
  set (m := {| role := "assistant"; content := text |}).
  destruct (earlier ++ [m])%list as [| m0 ms] eqn:Hall.
  - destruct earlier; discriminate.
  - assert (Hlast : last (m0 :: ms) m0 = m).
    { rewrite <- Hall. apply last_last. }
    rewrite Hlast. reflexivity.
Qed.

Lemma selector_one_block earlier pre block post :
  fence_free pre = true -> fence_free block = true ->
  contains "```" post = false ->
  Action.source_selector (reply earlier (one_block pre block post))
  = let '(chosen_code_block, language) := Action.select [pre; block; post] in
    match chosen_code_block with
    | Some (String c b) => inr (String c b, language)
    | _ => inl ("Message does not contain code blocks detected as Python or Bash.",
                "SANDBOX_ERROR")
    end.
Proof.
  intros Hpre Hblock Hpost. rewrite selector_on_reply.
  cbv zeta. rewrite (split_one_block pre block post Hpre Hblock Hpost).
  reflexivity.
Qed.

(** X15.  A message of the assistant with one fenced block that opens
    with a language marker: whatever precedes it in the conversation and
    surrounds it in the message, the request runs the trimmed lines under
    the marker, as Python for [python] and [python3] and as Bash for
    [bash], [sh] and [shell]. *)
Theorem tagged_block_runs_its_code (h : Host) (valves : Valves)
    (event_emitter : option sink) (earlier : list message)
    (pre tag code post language : string) :
  In (tag, language) fence_tags ->
  fence_free pre = true ->
  fence_free (tag ++ LF ++ code) = true ->
  contains "```" post = false ->
  Action.action h valves
    (reply earlier (one_block pre (tag ++ LF ++ code) post)) event_emitter
  = Action.run_core h valves
      (reply earlier (one_block pre (tag ++ LF ++ code) post))
      (Some language) (strip code) event_emitter.
Proof.
  intros Htag Hpre Hblock Hpost. unfold Action.action.
  rewrite (selector_one_block earlier pre _ post Hpre Hblock Hpost).
  unfold fence_tags in Htag. cbn [In] in Htag.
  destruct Htag as [H | [H | [H | [H | [H | []]]]]]; inversion H; subst;
    cbn; rewrite is_space_LF; reflexivity.
Qed.

Lemma tagged_block_runs_its_code_witness :
  Action.action hello_host default_valves
    (reply [{| role := "user"; content := "list the files" |}]
       (one_block ("Try this:" ++ LF) ("sh" ++ LF ++ ("ls -l" ++ LF))
          (LF ++ "Done.")))
    None
  = Action.run_core hello_host default_valves
      (reply [{| role := "user"; content := "list the files" |}]
         (one_block ("Try this:" ++ LF) ("sh" ++ LF ++ ("ls -l" ++ LF))
            (LF ++ "Done.")))
      (Some "bash") "ls -l" None.
Proof.
  exact (tagged_block_runs_its_code hello_host default_valves None
           [{| role := "user"; content := "list the files" |}]
           ("Try this:" ++ LF) "sh" ("ls -l" ++ LF) (LF ++ "Done.") "bash"
           (or_intror (or_intror (or_intror (or_introl eq_refl))))
           eq_refl eq_refl eq_refl).
Defined.

Lemma shebang_first_char block :
  startswith "#!" (first_line (strip block)) = true ->
  exists c r, block = String c r /\ (is_space c = true \/ c = "#"%char).
Proof.
  destruct block as [| c r]; [discriminate |].
  intro Hfl. exists c, r. split; [reflexivity |].
  destruct (is_space c) eqn:Hc; [left; reflexivity | right].
  unfold strip, strip_by in Hfl. cbn [lstrip_by] in Hfl.
  rewrite Hc, rstrip_by_cons, Hc in Hfl.
  assert (Hhead : forall x, startswith "#!" (first_line (String c x)) = true ->
                            c = "#"%char).
  { intros x Hx. cbn [first_line] in Hx.
    destruct (Ascii.eqb c "010"); [discriminate |].
    cbn [startswith] in Hx. apply andb_true_iff in Hx.
    destruct Hx as [Hx _]. apply Ascii.eqb_eq in Hx. symmetry. exact Hx. }
  destruct (rstrip_by is_space r); exact (Hhead _ Hfl).
Qed.

Lemma shebang_block_untagged block :
  startswith "#!" (first_line (strip block)) = true ->
  Action.python_tagged block = false /\ Action.shell_tagged block = false
  /\ (forall l, Action.strip_marker l block = strip block)
  /\ exists c r, block = String c r.
Proof.
  intro Hfl. destruct (shebang_first_char block Hfl) as (c & r & -> & Hc).
  assert (Hp : Ascii.eqb "p" c = false).
  { destruct Hc as [Hc | ->]; [| reflexivity].
    destruct (Ascii.eqb_spec "p" c) as [<- |]; [discriminate | reflexivity]. }
  assert (Hb : Ascii.eqb "b" c = false).
  { destruct Hc as [Hc | ->]; [| reflexivity].
    destruct (Ascii.eqb_spec "b" c) as [<- |]; [discriminate | reflexivity]. }
  assert (Hs : Ascii.eqb "s" c = false).
  { destruct Hc as [Hc | ->]; [| reflexivity].
    destruct (Ascii.eqb_spec "s" c) as [<- |]; [discriminate | reflexivity]. }
  split; [| split; [| split]].
  - unfold Action.python_tagged. cbn [append startswith]. rewrite Hp. reflexivity.
  - unfold Action.shell_tagged. cbn [append startswith]. rewrite Hb, Hs.
    reflexivity.
  - intro l. unfold Action.strip_marker, removeprefix.
    destruct l as [l |]; [| reflexivity].
    destruct (String.eqb l "python").
    + cbn [startswith]. rewrite Hp. cbn [andb]. cbn [startswith].
      rewrite Hp. reflexivity.
    + destruct (String.eqb l "bash"); [| reflexivity].
      cbn [startswith]. rewrite Hs. cbn [andb]. cbn [startswith].
      rewrite Hb. cbn [andb]. cbn [startswith]. rewrite Hs. reflexivity.
  - exists c, r. reflexivity.
Qed.

(** X16.  A message of the assistant with one fenced block whose first
    line, white space around the block aside, is a [#!] line: when that
    line ends in [python] or [python3] the block is run as Python, when it
    ends otherwise in [sh] as Bash, and in both cases the code run is the
    whole trimmed block, the [#!] line included: no language marker is
    taken off it. *)
Theorem shebang_block_runs_whole (h : Host) (valves : Valves)
    (event_emitter : option sink) (earlier : list message)
    (pre block post : string) :
  fence_free pre = true -> fence_free block = true ->
  contains "```" post = false ->
  startswith "#!" (first_line (strip block)) = true ->
  (endswith "python" (first_line (strip block))
   || endswith "python3" (first_line (strip block)) = true ->
   Action.action h valves (reply earlier (one_block pre block post))
     event_emitter
   = Action.run_core h valves (reply earlier (one_block pre block post))
       (Some "python") (strip block) event_emitter)
  /\ (endswith "python" (first_line (strip block))
      || endswith "python3" (first_line (strip block)) = false ->
      endswith "sh" (first_line (strip block)) = true ->
      Action.action h valves (reply earlier (one_block pre block post))
        event_emitter
      = Action.run_core h valves (reply earlier (one_block pre block post))
          (Some "bash") (strip block) event_emitter).
Proof.
  intros Hpre Hblock Hpost Hfl.
  destruct (shebang_block_untagged block Hfl)
    as (Hpy & Hsh & Hmarker & c & r & Hcr).
  assert (Hsel : Action.select [pre; block; post]
                 = Action.fallback block (None, None)).
  { unfold Action.select. cbn [length Nat.sub Action.candidates Nat.ltb
      Nat.leb Action.slice_down nth Action.scan].
    rewrite Hpy, Hsh. reflexivity. }
  unfold Action.action.
  rewrite (selector_one_block earlier pre block post Hpre Hblock Hpost), Hsel.
  unfold Action.fallback. rewrite Hfl. cbn [andb]. split.
  - intros ->. rewrite Hcr at 1 2. rewrite <- Hcr, Hmarker. reflexivity.
  - intros -> ->. rewrite Hcr at 1 2. rewrite <- Hcr, Hmarker. reflexivity.
Qed.

Lemma shebang_block_runs_whole_witness :
  Action.action hello_host default_valves
    (reply [] (one_block "" (LF ++ "#!/bin/sh" ++ LF ++ "ls" ++ LF) ""))
    None
  = Action.run_core hello_host default_valves
      (reply [] (one_block "" (LF ++ "#!/bin/sh" ++ LF ++ "ls" ++ LF) ""))
      (Some "bash") ("#!/bin/sh" ++ LF ++ "ls") None.
Proof.
  exact (proj2 (shebang_block_runs_whole hello_host default_valves None []
                  "" (LF ++ "#!/bin/sh" ++ LF ++ "ls" ++ LF) ""
                  eq_refl eq_refl eq_refl eq_refl)
           eq_refl eq_refl).
Defined.

(** ** Segments and fences *)

Lemma startswith_before_fence q r :
  startswith q (before_fence r) = true -> startswith q r = true.
Proof.
  revert q. induction r as [| c r IH]; intros q Hq; [exact Hq |].
  destruct q as [| a q]; [reflexivity |].
  cbn [before_fence] in Hq.
  destruct (startswith "```" (String c r)); [discriminate |].
  cbn [startswith] in Hq |- *. apply andb_true_iff in Hq.
  destruct Hq as [Ha Hq]. rewrite Ha, (IH _ Hq). reflexivity.
Qed.

Lemma before_fence_clean s : contains "```" (before_fence s) = false.
Proof.
  induction s as [| c r IH]; [reflexivity |].
  cbn [before_fence]. destruct (startswith "```" (String c r)) eqn:Hs;
    [reflexivity |].
  cbn [contains]. rewrite IH, orb_false_r.
  destruct (startswith "```" (String c (before_fence r))) eqn:Hb;
    [| reflexivity].
  rewrite <- Hs.
  change (Ascii.eqb "`" c && startswith "``" (before_fence r) = true) in Hb.
  change (true = Ascii.eqb "`" c && startswith "``" r).
  apply andb_true_iff in Hb. destruct Hb as [Ha Hb].
  rewrite Ha, (startswith_before_fence _ _ Hb). reflexivity.
Qed.

(** Every segment that [split] cuts at the fences is free of fences. *)
Lemma split_scan_segments s :
  (forall cur, exists rest,
      split_scan "```" 0 cur s = (of_rev cur ++ before_fence s) :: rest
      /\ Forall (fun seg => contains "```" seg = false) rest)
  /\ (forall k, Forall (fun seg => contains "```" seg = false)
                  (split_scan "```" k [] s)).
Proof.
  induction s as [| c r [IHcur IHskip]].
  - split.
    + intro cur. exists []. cbn. rewrite append_empty_r. split; constructor.
    + intro k. destruct k; cbn; repeat constructor.
  - assert (Hcur : forall cur, exists rest,
               split_scan "```" 0 cur (String c r)
               = (of_rev cur ++ before_fence (String c r)) :: rest
               /\ Forall (fun seg => contains "```" seg = false) rest).
    { intro cur. cbn [split_scan before_fence].
      destruct (startswith "```" (String c r)).
      - exists (split_scan "```" (String.length "```" - 1) [] r).
        rewrite append_empty_r. split; [reflexivity | apply IHskip].
      - destruct (IHcur (c :: cur)) as (rest & Heq & Hrest).
        exists rest. rewrite Heq, of_rev_cons. split; [reflexivity | exact Hrest]. }
    split; [exact Hcur |].
    intros [| k].
    + destruct (Hcur []) as (rest & Heq & Hrest). rewrite Heq.
      constructor; [apply before_fence_clean | exact Hrest].
    + cbn [split_scan]. apply IHskip.
Qed.

Lemma split_segments_clean s :
  Forall (fun seg => contains "```" seg = false) (split "```" s).
Proof. apply (proj2 (split_scan_segments s) 0%nat). Qed.

Lemma code_blocks_incl l b : In b (code_blocks l) -> In b l.
Proof.
  revert b.
  assert (H : (forall b, In b (code_blocks l) -> In b l)
              /\ (forall x b, In b (code_blocks (x :: l)) -> In b (x :: l))).
  { induction l as [| y l [IH1 IH2]].
    - split; [intros b [] | intros x b []].
    - split.
      + intros b Hb. apply IH2, Hb.
      + intros x b Hb. cbn [code_blocks] in Hb. destruct Hb as [-> | Hb].
        * right. left. reflexivity.
        * right. right. apply IH1, Hb. }
  exact (proj1 H).
Qed.

Lemma chosen_block_segment body b language :
  Action.source_selector body = inr (b, language) ->
  exists m ms,
    messages body = Some (m :: ms)
    /\ In b (split "```" (content (last (m :: ms) m))).
Proof.
  unfold Action.source_selector.
  destruct (messages body) as [[| m ms] |] eqn:Hm; try discriminate.
  destruct (negb (String.eqb (role (last (m :: ms) m)) "assistant"));
    [discriminate |].
  set (segments := split "```" (content (last (m :: ms) m))).
  destruct ((length segments <? 3)%nat
            || negb (length segments mod 2 =? 1)%nat) eqn:Hbad;
    [discriminate |].
  apply orb_false_iff in Hbad. destruct Hbad as [Hlen Hodd].
  apply Nat.ltb_ge in Hlen. apply negb_false_iff, Nat.eqb_eq in Hodd.
  destruct (Action.select segments) as [[[| c r] |] l] eqn:Hsel;
    try discriminate.
  intro H. inversion H; subst b language.
  destruct (select_result segments (String c r) l Hodd Hlen Hsel) as [Hin _].
  exists m, ms. split; [reflexivity | apply code_blocks_incl, Hin].
Qed.

(** *** Parts of a text without fences *)

Lemma contains_nonempty q s : contains q s = false -> String.eqb q "" = false.
Proof.
  destruct q as [| a q]; [| reflexivity].
  destruct s; discriminate.
Qed.

Lemma contains_tail q c r : contains q (String c r) = false -> contains q r = false.
Proof. cbn [contains]. intro H. apply orb_false_iff in H. apply H. Qed.

Lemma contains_drop q n s : contains q s = false -> contains q (drop n s) = false.
Proof.
  revert s. induction n as [| n IH]; intros s H; [destruct s; exact H |].
  destruct s as [| c r]; [exact H |]. cbn [drop]. apply IH, (contains_tail q c r H).
Qed.

Lemma contains_removeprefix q p s :
  contains q s = false -> contains q (removeprefix p s) = false.
Proof.
  intro H. unfold removeprefix. destruct (startswith p s); [| exact H].
  apply contains_drop, H.
Qed.

Section FencesAndStripping.

Context (p : ascii -> bool).

Lemma contains_lstrip_by q s :
  contains q s = false -> contains q (lstrip_by p s) = false.
Proof.
  induction s as [| c r IH]; intro H; [exact H |].
  cbn [lstrip_by]. destruct (p c); [apply IH, (contains_tail q c r H) | exact H].
Qed.

Lemma rstrip_by_tail c r :
  rstrip_by p (String c r) = ""
  \/ rstrip_by p (String c r) = String c (rstrip_by p r).
Proof.
  rewrite rstrip_by_cons. destruct (rstrip_by p r); [| right; reflexivity].
  destruct (p c); [left | right]; reflexivity.
Qed.

Lemma startswith_rstrip_by q s :
  startswith q (rstrip_by p s) = true -> startswith q s = true.
Proof.
  revert q. induction s as [| c r IH]; intros q Hq; [exact Hq |].
  destruct q as [| a q]; [reflexivity |].
  destruct (rstrip_by_tail c r) as [Heq | Heq]; rewrite Heq in Hq;
    [discriminate |].
  cbn [startswith] in Hq |- *. apply andb_true_iff in Hq.
  destruct Hq as [Ha Hq]. rewrite Ha, (IH _ Hq). reflexivity.
Qed.

Lemma contains_rstrip_by q s :
  contains q s = false -> contains q (rstrip_by p s) = false.
Proof.
  intro H. pose proof (contains_nonempty q s H) as Hq.
  induction s as [| c r IH]; [exact H |].
  destruct (rstrip_by_tail c r) as [Heq | Heq].
  - rewrite Heq. exact Hq.
  - pose proof (startswith_rstrip_by q (String c r)) as Hpre.
    rewrite Heq in Hpre |- *. cbn [contains] in H |- *.
    apply orb_false_iff in H. destruct H as [Hs Hr].
    rewrite (IH Hr), orb_false_r.
    destruct (startswith q (String c (rstrip_by p r))); [| reflexivity].
    rewrite <- Hs. symmetry. apply Hpre. reflexivity.
Qed.

Lemma contains_strip_by q s :
  contains q s = false -> contains q (strip_by p s) = false.
Proof. intro H. apply contains_rstrip_by, contains_lstrip_by, H. Qed.

End FencesAndStripping.

(** X17.  The block the selector chooses holds no fence, and neither does
    the code the request runs: taking the language marker off the block
    and trimming it cannot bring three backticks in a row together. *)
Theorem chosen_code_has_no_fence (body : Body) (b : string)
    (language : option string) :
  Action.source_selector body = inr (b, language) ->
  contains "```" b = false
  /\ contains "```" (Action.strip_marker language b) = false.
Proof.
  intro Hsel.
  destruct (chosen_block_segment body b language Hsel) as (m & ms & _ & Hin).
  pose proof (split_segments_clean (content (last (m :: ms) m))) as Hclean.
  rewrite Forall_forall in Hclean. pose proof (Hclean b Hin) as Hb.
  split; [exact Hb |].
  unfold Action.strip_marker, strip. apply contains_strip_by.
  destruct language as [l |]; [| exact Hb].
  destruct (String.eqb l "python");
    [| destruct (String.eqb l "bash")];
    repeat apply contains_removeprefix; exact Hb.
Qed.

Lemma chosen_code_has_no_fence_witness :
  contains "```" block_sh = false
  /\ contains "```" (Action.strip_marker (Some "bash") block_sh) = false.
Proof.
  apply (chosen_code_has_no_fence shell_between_python block_sh (Some "bash")).
  reflexivity.
Defined.

(** ** Event notifier: how often the sink is called *)

(** A sink whose transport is closed gets one citation, not two. *)
Lemma code_execution_once_when_sink_raises :
  sink_calls (snd (Emitter.code_execution fresh_tracker
                     (initial_state (Some broken_sink) false)))
  = [citation_event fresh_tracker]
  /\ fst (Emitter.code_execution fresh_tracker
            (initial_state (Some broken_sink) false))
     = Exc (OtherException "connection closed").
Proof. split; reflexivity. Qed.

(** C7, as the code has it.  With a sink present, [code_execution] calls
    the sink with the citation of the tracker, whatever the tracker
    holds: exactly twice when the first call returns, and exactly once
    when the first call raises, the exception then leaving
    [code_execution].  [message] calls the sink exactly once. *)
Theorem code_execution_twice_message_once
    (g : sink) (st : state) (t : CodeExecutionTracker.t) (content : string) :
  event_emitter (emitter st) = Some g ->
  match g (sink_calls st) (citation_event t) with
  | Raised e =>
      sink_calls (snd (Emitter.code_execution t st))
      = (sink_calls st ++ [citation_event t])%list
      /\ fst (Emitter.code_execution t st) = Exc e
  | _ =>
      sink_calls (snd (Emitter.code_execution t st))
      = (sink_calls st ++ [citation_event t; citation_event t])%list
  end
  /\ sink_calls (snd (Emitter.message content st))
     = (sink_calls st ++ [message_event content])%list.
Proof.
  intro Hg. split.
  - destruct (g (sink_calls st) (citation_event t)) as [| v | e] eqn:Hr.
    + unfold Emitter.code_execution. rewrite then_ret_state.
      apply emit_calls_twice with (g := g); [exact Hg |].
      fold (citation_event t). rewrite Hr. exact Logic.I.
    + unfold Emitter.code_execution. rewrite then_ret_state.
      apply emit_calls_twice with (g := g); [exact Hg |].
      fold (citation_event t). rewrite Hr. exact Logic.I.
    + unfold Emitter.code_execution, Emitter._emit, bind, get_emitter.
      rewrite Hg. cbn [Emitter._emit_loop]. unfold bind, call_sink.
      fold (citation_event t). rewrite Hr. split; reflexivity.
  - unfold Emitter.message. rewrite then_ret_state.
    apply emit_calls_once with (g := g); assumption.
Qed.

Lemma code_execution_twice_message_once_witness :
  sink_calls (snd (Emitter.code_execution fresh_tracker
                     (initial_state (Some plain_sink) false)))
  = [citation_event fresh_tracker; citation_event fresh_tracker]
  /\ sink_calls (snd (Emitter.message "done"
                        (initial_state (Some plain_sink) false)))
     = [message_event "done"].
Proof.
  exact (code_execution_twice_message_once plain_sink
           (initial_state (Some plain_sink) false) fresh_tracker "done"
           eq_refl).
Defined.

(** ** The two variants side by side *)




(** ** Trimming, by character code *)

Lemma is_space_codes c :
  is_space c = existsb (Nat.eqb (nat_of_ascii c)) str_blanks.
Proof.
  destruct c as [b0 b1 b2 b3 b4 b5 b6 b7].
  destruct b0, b1, b2, b3, b4, b5, b6, b7; reflexivity.
Qed.

Lemma is_bytes_space_codes c :
  is_bytes_space c = existsb (Nat.eqb (nat_of_ascii c)) bytes_blanks.
Proof.
  destruct c as [b0 b1 b2 b3 b4 b5 b6 b7].
  destruct b0, b1, b2, b3, b4, b5, b6, b7; reflexivity.
Qed.

Lemma existsb_code n blanks :
  existsb (Nat.eqb n) blanks = true <-> In n blanks.
Proof.
  rewrite existsb_exists. split.
  - intros (x & Hin & Heq). apply Nat.eqb_eq in Heq. subst x. exact Hin.
  - intro Hin. exists n. split; [exact Hin | apply Nat.eqb_refl].
Qed.

Section Trimming.

Context (p : ascii -> bool) (blanks : list nat).
Hypothesis p_codes : forall c, p c = existsb (Nat.eqb (nat_of_ascii c)) blanks.

Lemma blank_iff c : p c = true <-> In (nat_of_ascii c) blanks.
Proof. rewrite p_codes. apply existsb_code. Qed.

Lemma lstrip_by_cut s :
  exists before,
    s = before ++ lstrip_by p s
    /\ Forall (fun c => In (nat_of_ascii c) blanks) (list_ascii_of_string before).
Proof.
  induction s as [| c r (before & Hr & Hb)].
  - exists "". split; [reflexivity | constructor].
  - cbn [lstrip_by]. destruct (p c) eqn:Hc.
    + exists (String c before). split.
      * cbn [append]. rewrite <- Hr. reflexivity.
      * constructor; [apply blank_iff, Hc | exact Hb].
    + exists "". split; [reflexivity | constructor].
Qed.

Lemma rstrip_by_cut s :
  exists after,
    s = rstrip_by p s ++ after
    /\ Forall (fun c => In (nat_of_ascii c) blanks) (list_ascii_of_string after).
Proof.
  induction s as [| c r (after & Hr & Ha)].
  - exists "". split; [reflexivity | constructor].
  - rewrite rstrip_by_cons. destruct (rstrip_by p r) as [| c' r'].
    + cbn [append] in Hr. subst after. destruct (p c) eqn:Hc.
      * exists (String c r). split; [reflexivity |].
        constructor; [apply blank_iff, Hc | exact Ha].
      * exists r. split; [reflexivity | exact Ha].
    + exists after. split; [| exact Ha].
      cbn [append] in Hr |- *. rewrite <- Hr. reflexivity.
Qed.

Lemma strip_by_trimmed s : trimmed_of blanks s (strip_by p s).
Proof.
  destruct (lstrip_by_cut s) as (before & Hs & Hb).
  destruct (rstrip_by_cut (lstrip_by p s)) as (after & Hl & Ha).
  destruct (strip_by_ends p s) as [Hfirst Hlast].
  exists before, after. fold (strip_by p s) in Hl.
  split; [rewrite <- Hl; exact Hs |].
  split; [exact Hb |]. split; [exact Ha |]. split.
  - intros c r Hout. rewrite Hout in Hfirst. cbn in Hfirst.
    intro Hin. apply blank_iff in Hin. congruence.
  - intros r c Hout. rewrite Hout, (last_sat_app p c "" r) in Hlast.
    cbn in Hlast. intro Hin. apply blank_iff in Hin. congruence.
Qed.

End Trimming.

Lemma trimmed_of_empty blanks : trimmed_of blanks "" "".
Proof.
  exists "", "". split; [reflexivity |].
  split; [constructor |]. split; [constructor |]. split.
  - intros c r H. discriminate.
  - intros [| a r] c H; discriminate.
Qed.

(** [if output: output = output.strip()] leaves [None] as it is and
    trims a [str] or a [bytes], each of its own white space. *)
Lemma trim_output_trimmed o : trimmed_output o (trim_output o).
Proof.
  destruct o as [[s | b] |]; [| | exact Logic.I].
  - destruct s as [| c r]; [apply trimmed_of_empty |].
    apply (strip_by_trimmed is_space str_blanks is_space_codes).
  - destruct b as [| x b]; [apply trimmed_of_empty |].
    unfold trim_output, truthy_value, option_map, strip_value, bytes_strip,
      trimmed_output.
    rewrite string_of_list_byte_of_string.
    apply (strip_by_trimmed is_bytes_space bytes_blanks is_bytes_space_codes).
Qed.

(** ** Classification of a request that reaches the interpreter *)

Lemma outcome_classified h valves language code o :
  reaches_subprocess h valves language code o ->
  classified_as o (Val (outcome h valves language code)).
Proof.
  intros (Htmp & c & p & Hint & Hrun).
  exists (outcome h valves language code). split; [reflexivity |].
  unfold outcome. rewrite Htmp, Hint, Hrun.
  destruct o as [rc out err | err text | text]; cbn [classify].
  - destruct (rc =? 0)%Z eqn:Hrc; cbn [res_status res_output]; split.
    + split; [| reflexivity]. intros _. apply Z.eqb_eq in Hrc. subst rc. eauto.
    + split; [reflexivity | apply trim_output_trimmed].
    + split; [discriminate |]. intros (out' & err' & Heq).
      inversion Heq; subst. discriminate.
    + split; [reflexivity | apply trim_output_trimmed].
  - cbn [res_status res_output]. split.
    + split; [discriminate |]. intros (out' & err' & Heq). discriminate.
    + split; [reflexivity | apply trim_output_trimmed].
  - split; [| reflexivity]. split; [discriminate |].
    intros (out' & err' & Heq). discriminate.
Qed.




(** ** Direct invocation: the echoed argument and the code that runs *)

Lemma spawns_none {A} (c : M A) st :
  spawns 0 c -> spawned (snd (c st)) = spawned st.
Proof.
  intro Hc. destruct (Hc st) as ([| x l] & Hl & Hn); [| cbn in Hn; lia].
  rewrite Hl. apply app_nil_r.
Qed.

Section RunsOnce.

Context {A B : Type} (l : list (list string * string * Z)).

(** A step that returns and runs nothing, then the rest. *)
Lemma runs_after (c : M A) (k : A -> M B) :
  triple (quiet []) c (ok_or False) -> spawns 0 c ->
  (forall a, runs l (k a)) -> runs l (bind c k).
Proof.
  intros Hc H0 Hk st Hq. destruct (Hc st Hq) as [Hr Hq'].
  pose proof (spawns_none c st H0) as Hsame. unfold bind.
  destruct (c st) as [[a | e] st']; cbn [fst snd] in *; [| destruct Hr].
  rewrite (Hk a st' Hq'), Hsame. reflexivity.
Qed.

(** The runs of a step are those of the request when the rest runs
    nothing, whether the step returns or raises. *)
Lemma runs_before (c : M A) (k : A -> M B) :
  runs l c -> (forall a, spawns 0 (k a)) -> runs l (bind c k).
Proof.
  intros Hc Hk st Hq. specialize (Hc st Hq). unfold bind.
  destruct (c st) as [[a | e] st']; cbn [snd] in *; [| exact Hc].
  rewrite (spawns_none (k a) st' (Hk a)). exact Hc.
Qed.

Lemma runs_try (c : M A) (handler : exn -> option (M A)) :
  runs l c -> (forall e hd, handler e = Some hd -> spawns 0 hd) ->
  runs l (try_except c handler).
Proof.
  intros Hc Hh st Hq. specialize (Hc st Hq). unfold try_except.
  destruct (c st) as [[a | e] st']; cbn [snd] in *; [exact Hc |].
  destruct (handler e) as [hd |] eqn:He; [| exact Hc].
  rewrite (spawns_none hd st' (Hh e hd He)). exact Hc.
Qed.

End RunsOnce.

Lemma runs_run_subprocess h argv input timeout :
  runs [(argv, input, timeout)] (run_subprocess h argv input timeout).
Proof.
  intros st _. unfold run_subprocess.
  destruct (subprocess_run h argv input timeout); reflexivity.
Qed.

Lemma runs_Tools_execute h valves interpreter_path code :
  runs [([interpreter_path; "/dev/stdin"], code ++ LF, MAX_RUNTIME_SECONDS valves)]
    (Tools.execute h valves interpreter_path code).
Proof.
  unfold Tools.execute. apply runs_try.
  - apply runs_before; [apply runs_run_subprocess |].
    intros [[rc out] err]. destruct (negb _); apply spawns_ret.
  - intros e hd He. destruct e; inversion He; subst hd.
    apply spawns_timeout_handler.
Qed.

(** With a sink that returns, a directory and an interpreter, the [try]
    statement of the direct variant runs the interpreter exactly once, on
    the code it was given and a line feed. *)
Lemma Tools_run_core_runs h valves language code f c p :
  sink_returns f ->
  mkdtemp h = None ->
  interpreter_for h language = Some (String c p) ->
  spawned (snd (Tools.run_core h valves language code f))
  = [([String c p; "/dev/stdin"], code ++ LF, MAX_RUNTIME_SECONDS valves)].
Proof.
  intros Hf Htmp Hint. unfold Tools.run_core.
  apply (runs_try _ _ _) with (st := initial_state f (DEBUG valves));
    [| | apply initial_quiet, Hf].
  - unfold Tools.run_normalized.
    apply runs_after;
      [apply set_tracker_ok, tracker_quiet | apply spawns_frame; reflexivity |].
    intros _. apply runs_after;
      [apply clear_status_ok; [apply emit_quiet | apply flag_quiet]
      | apply spawns_clear_status |].
    intros _. apply runs_after;
      [apply publish_tracker_ok, emit_quiet | apply spawns_publish |].
    intros _. unfold with_tmpdir. rewrite Htmp, Hint.
    apply runs_before; [apply runs_Tools_execute |].
    intros [s out].
    apply spawns_seq0; [apply spawns_tracker_update |].
    intros _. apply spawns_seq0; [apply spawns_publish |].
    intros _. apply spawns_seq0; [apply spawns_debug_status |].
    intros _. apply spawns_seq0; [apply spawns_Tools_final_message |].
    intros _. apply spawns_seq0; [apply spawns_publish |].
    intros _. apply spawns_ret.
  - intros e hd He. unfold except_Exception in He.
    destruct (is_Exception e); inversion He. apply spawns_Tools_fail.
Qed.

(** [json.dumps] on the object of the two entry points: the object with
    the same strings, or [TypeError] for an output that is a [bytes]. *)
Lemma json_dumps_result key c r :
  Tools.json_dumps [(key, Some (Str c)); ("status", Some (Str (res_status r)));
                    ("output", res_output r)]
  = match res_output r with
    | Some (Bytes _) =>
        Exc (OtherException "Object of type bytes is not JSON serializable")
    | Some (Str s) =>
        Val [(key, Some c); ("status", Some (res_status r)); ("output", Some s)]
    | None =>
        Val [(key, Some c); ("status", Some (res_status r)); ("output", None)]
    end.
Proof. destruct (res_output r) as [[s | b] |]; reflexivity. Qed.

Lemma outcome_bytes_timed_out h valves language code b :
  res_output (outcome h valves language code) = Some (Bytes b) ->
  exists b' text,
    reaches_subprocess h valves language code (TimedOut (Some (Bytes b')) text).
Proof.
  unfold outcome, reaches_subprocess.
  destruct (mkdtemp h); [discriminate |].
  destruct (interpreter_for h language) as [[| c p] |]; try discriminate.
  destruct (subprocess_run _ _ _ _) as [rc out err | err text | text] eqn:Hrun;
    cbn [classify]; try discriminate.
  - destruct (rc =? 0)%Z; cbn [res_output].
    + destruct (trim_output_str out) as [y ->]. discriminate.
    + destruct (trim_output_str err) as [y ->]. discriminate.
  - cbn [res_output]. destruct err as [[s | b'] |].
    + destruct (trim_output_str s) as [y ->]. discriminate.
    + intros _. exists b', text. split; [reflexivity |].
      exists c, p. split; [reflexivity | exact Hrun].
    + discriminate.
Qed.

Section Echo.

Context (h : Host) (valves : Valves) (f : option sink).

(** What the two entry points have in common: [entry] is either of them,
    [key] the name of its argument in the object and [language] the
    language it passes on. *)
Context (entry : string -> res Tools.json_object * state)
  (key language : string).

Hypothesis entry_eq : forall c,
  entry c
  = match Tools._run_code h valves language c f with
    | (Val result, st) =>
        (Tools.json_dumps [(key, Some (Str c));
                           ("status", Some (Str (res_status result)));
                           ("output", res_output result)], st)
    | (Exc e, st) => (Exc e, st)
    end.

Lemma entry_echoes c j st :
  entry c = (Val j, st) ->
  (exists status output,
     j = [(key, Some c); ("status", Some status); ("output", output)])
  /\ fed (normalize language c ++ LF) st.
Proof.
  rewrite entry_eq. unfold Tools._run_code.
  pose proof (Tools_run_core_sound h valves language
                (normalize language c) f) as [_ Hfed].
  destruct (Tools.run_core _ _ _ _ _) as [[r | e] st']; [| discriminate].
  rewrite json_dumps_result. cbn [snd] in Hfed.
  destruct (res_output r) as [[s | b] |]; intro H; inversion H; subst;
    (split; [eauto | exact Hfed]).
Qed.

Lemma entry_runs c ch p :
  sink_returns f -> mkdtemp h = None ->
  interpreter_for h language = Some (String ch p) ->
  spawned (snd (entry c))
  = [([String ch p; "/dev/stdin"], normalize language c ++ LF,
      MAX_RUNTIME_SECONDS valves)].
Proof.
  intros Hf Htmp Hint. rewrite entry_eq. unfold Tools._run_code.
  pose proof (Tools_run_core_runs h valves language (normalize language c)
                f ch p Hf Htmp Hint) as Hruns.
  destruct (Tools.run_core _ _ _ _ _) as [[r | e] st']; exact Hruns.
Qed.

Lemma entry_returns c :
  sink_returns f ->
  (exists j, fst (entry c) = Val j)
  \/ (exists b text,
        reaches_subprocess h valves language (normalize language c)
          (TimedOut (Some (Bytes b)) text))
     /\ fst (entry c)
        = Exc (OtherException "Object of type bytes is not JSON serializable").
Proof.
  intro Hf. rewrite entry_eq. unfold Tools._run_code.
  pose proof (Tools_run_core_returns h valves language
                (normalize language c) f Hf) as Hr.
  pose proof (outcome_bytes_timed_out h valves language
                (normalize language c)) as Hb.
  destruct (Tools.run_core _ _ _ _ _) as [[r | e] st']; cbn [fst] in Hr;
    [| discriminate].
  injection Hr as ->. cbn [fst]. rewrite json_dumps_result.
  destruct (res_output (outcome _ _ _ _)) as [[s | b] |];
    [left; eauto | right | left; eauto].
  split; [exact (Hb b eq_refl) | reflexivity].
Qed.

End Echo.

(** C10.  Whenever [run_python_code] or [run_bash_command] returns, the
    object it returns carries the argument as it was passed, followed by
    the status and the output, while every interpreter run of the request
    was fed the normalized code and a line feed.  With a sink that
    returns (or no sink), a temporary directory and an interpreter, the
    interpreter is run, exactly once, on the normalized code and a line
    feed; and the object is returned, except when the run timed out with
    some standard error captured as [bytes], for which [json.dumps]
    raises [TypeError]. *)
Theorem raw_argument_echoed (h : Host) (valves : Valves) (c : string)
    (f : option sink) :
  (forall j st,
     Tools.run_python_code h valves c f = (Val j, st) ->
     (exists status output,
        j = [("python_code", Some c); ("status", Some status);
             ("output", output)])
     /\ fed (normalize "python" c ++ LF) st)
  /\ (forall j st,
        Tools.run_bash_command h valves c f = (Val j, st) ->
        (exists status output,
           j = [("bash_command", Some c); ("status", Some status);
                ("output", output)])
        /\ fed (normalize "bash" c ++ LF) st)
  /\ (sink_returns f -> mkdtemp h = None ->
      (forall ch p,
         sys_executable h = Some (String ch p) ->
         spawned (snd (Tools.run_python_code h valves c f))
         = [([String ch p; "/dev/stdin"], normalize "python" c ++ LF,
             MAX_RUNTIME_SECONDS valves)])
      /\ spawned (snd (Tools.run_bash_command h valves c f))
         = [(["/bin/bash"; "/dev/stdin"], normalize "bash" c ++ LF,
             MAX_RUNTIME_SECONDS valves)])
  /\ (sink_returns f ->
      ((exists j, fst (Tools.run_python_code h valves c f) = Val j)
       \/ (exists b text,
             reaches_subprocess h valves "python" (normalize "python" c)
               (TimedOut (Some (Bytes b)) text))
          /\ fst (Tools.run_python_code h valves c f)
             = Exc (OtherException
                      "Object of type bytes is not JSON serializable"))
      /\ ((exists j, fst (Tools.run_bash_command h valves c f) = Val j)
          \/ (exists b text,
                reaches_subprocess h valves "bash" (normalize "bash" c)
                  (TimedOut (Some (Bytes b)) text))
             /\ fst (Tools.run_bash_command h valves c f)
                = Exc (OtherException
                         "Object of type bytes is not JSON serializable"))).
Proof.
  assert (Hpy : forall c,
            Tools.run_python_code h valves c f
            = match Tools._run_code h valves "python" c f with
              | (Val result, st) =>
                  (Tools.json_dumps
                     [("python_code", Some (Str c));
                      ("status", Some (Str (res_status result)));
                      ("output", res_output result)], st)
              | (Exc e, st) => (Exc e, st)
              end) by reflexivity.
  assert (Hsh : forall c,
            Tools.run_bash_command h valves c f
            = match Tools._run_code h valves "bash" c f with
              | (Val result, st) =>
                  (Tools.json_dumps
                     [("bash_command", Some (Str c));
                      ("status", Some (Str (res_status result)));
                      ("output", res_output result)], st)
              | (Exc e, st) => (Exc e, st)
              end) by reflexivity.
  split; [| split; [| split]].
  - intros j st. apply (entry_echoes h valves f _ _ _ Hpy).
  - intros j st. apply (entry_echoes h valves f _ _ _ Hsh).
  - intros Hf Htmp. split.
    + intros ch p Hexe.
      apply (entry_runs h valves f _ _ _ Hpy c ch p Hf Htmp).
      unfold interpreter_for. cbn. exact Hexe.
    + apply (entry_runs h valves f _ _ _ Hsh c "/" "bin/bash" Hf Htmp).
      reflexivity.
  - intro Hf. split.
    + apply (entry_returns h valves f _ _ _ Hpy c Hf).
    + apply (entry_returns h valves f _ _ _ Hsh c Hf).
Qed.

Lemma raw_argument_echoed_witness :
  (exists status output,
     [("python_code", Some (fenced "python" "print('hello')"));
      ("status", Some "OK"); ("output", Some "hello")]
     = [("python_code", Some (fenced "python" "print('hello')"));
        ("status", Some status); ("output", output)])
  /\ spawned (snd (Tools.run_python_code hello_host default_valves
                     (fenced "python" "print('hello')") None))
     = [(["/usr/bin/python3"; "/dev/stdin"], "print('hello')" ++ LF, 30%Z)]
  /\ fst (Tools.run_bash_command stalled_host default_valves "sleep 60" None)
     = Exc (OtherException "Object of type bytes is not JSON serializable").
Proof.
  destruct (raw_argument_echoed hello_host default_valves
              (fenced "python" "print('hello')") None)
    as (HP & _ & Hruns & _).
  split; [| split].
  - apply (HP [("python_code", Some (fenced "python" "print('hello')"));
               ("status", Some "OK"); ("output", Some "hello")]
              (snd (Tools.run_python_code hello_host default_valves
                      (fenced "python" "print('hello')") None))
              eq_refl).
  - apply (proj1 (Hruns Logic.I eq_refl) "/"%char "usr/bin/python3" eq_refl).
  - reflexivity.
Defined.

(** ** The outermost handler *)

Lemma first_raise_app f log a b :
  first_raise f log (a ++ b)
  = match first_raise f log a with
    | Some e => Some e
    | None => first_raise f (log ++ a) b
    end.
Proof.
  revert log. induction a as [| ev a IH]; intro log.
  - cbn [app]. rewrite app_nil_r. destruct f; reflexivity.
  - destruct f as [g |]; [| destruct b; reflexivity].
    cbn [app first_raise].
    destruct (g log ev); [| | reflexivity];
      rewrite IH, <- app_assoc; reflexivity.
Qed.

Lemma state_of_eta st :
  st = state_of (event_emitter (emitter st)) (_debug (emitter st))
         (_status_prefix (emitter st)) (_emitted_status (emitter st))
         (execution_tracker st) (sink_calls st) (spawned st).
Proof. destruct st as [[f d pre fl] t calls sp]. reflexivity. Qed.

Lemma bind_exc {A B} (c : M A) (k : A -> M B) st e :
  fst (c st) = Exc e -> fst (bind c k st) = Exc e.
Proof.
  unfold bind. destruct (c st) as [[a | e'] st']; cbn [fst]; intro H;
    [discriminate | inversion H; reflexivity].
Qed.

Section Reporting.

Context (f : option sink) (d : bool) (pre : option string).

(** [_emit] from a state given by its fields: it raises what the first
    failing call raises, or returns with the calls recorded. *)
Lemma emit_state_of typ data (twice : bool) fl t calls sp :
  match first_raise f calls
          (repeat (Event typ data)
             (if twice then 2 else 1)) with
  | Some e =>
      fst (Emitter._emit typ data twice (state_of f d pre fl t calls sp))
      = Exc e
  | None =>
      exists v,
        Emitter._emit typ data twice (state_of f d pre fl t calls sp)
        = (Val v,
           state_of f d pre fl t
             (sent f calls
                (repeat (Event typ data)
                   (if twice then 2 else 1))) sp)
  end.
Proof.
  unfold Emitter._emit, bind, get_emitter, state_of, sent.
  cbn [emitter event_emitter].
  destruct f as [g |]; [| destruct twice; eexists; reflexivity].
  set (ev := Event typ data).
  destruct twice; cbn [repeat first_raise Emitter._emit_loop];
    unfold bind, call_sink, ret; cbn [sink_calls emitter execution_tracker
                                      spawned fst snd].
  - destruct (g calls ev) as [| v | e]; [| | reflexivity];
      cbn [sink_calls emitter execution_tracker spawned fst snd];
      (destruct (g (calls ++ [ev])%list ev) as [| v' | e'];
       [eexists; rewrite <- app_assoc; reflexivity
       | eexists; rewrite <- app_assoc; reflexivity
       | reflexivity]).
  - destruct (g calls ev) as [| v | e]; [| | reflexivity];
      eexists; reflexivity.
Qed.

Lemma fail_state_of description fl t calls sp :
  fst (Emitter.fail description (state_of f d pre fl t calls sp))
  = match first_raise f calls
            [status_event "error"
               (match pre with Some p => p ++ description | None => description end)
               true] with
    | Some e => Exc e
    | None => Val tt
    end.
Proof.
  set (text := match pre with Some p => p ++ description
                            | None => description end).
  assert (Hfail : Emitter.fail description (state_of f d pre fl t calls sp)
                  = (Emitter._emit "status" (StatusData "error" text true)
                       false ;; ret tt)
                      (state_of f d pre true t calls sp)) by reflexivity.
  rewrite Hfail.
  pose proof (emit_state_of "status" (StatusData "error" text true)
                false true t calls sp) as Hemit.
  cbn [repeat] in Hemit. fold (status_event "error" text true) in Hemit.
  destruct (first_raise f calls _) as [e |].
  - apply bind_exc. exact Hemit.
  - destruct Hemit as [v Hv]. unfold bind. rewrite Hv. reflexivity.
Qed.

Lemma publish_state_of x fl calls sp :
  match first_raise f calls [citation_event x; citation_event x] with
  | Some e =>
      fst (publish_tracker (state_of f d pre fl (Some x) calls sp)) = Exc e
  | None =>
      publish_tracker (state_of f d pre fl (Some x) calls sp)
      = (Val tt,
         state_of f d pre fl (Some x)
           (sent f calls [citation_event x; citation_event x]) sp)
  end.
Proof.
  assert (Hpub : publish_tracker (state_of f d pre fl (Some x) calls sp)
                 = (Emitter._emit "citation"
                      (CodeExecutionTracker._citation_data x) true ;; ret tt)
                     (state_of f d pre fl (Some x) calls sp)) by reflexivity.
  rewrite Hpub.
  pose proof (emit_state_of "citation"
                (CodeExecutionTracker._citation_data x) true fl (Some x)
                calls sp) as Hemit.
  cbn [repeat] in Hemit. fold (citation_event x) in Hemit.
  destruct (first_raise f calls _) as [e |].
  - apply bind_exc. exact Hemit.
  - destruct Hemit as [v Hv]. unfold bind. rewrite Hv. reflexivity.
Qed.

End Reporting.

(** What the two [_fail] helpers give from any state: their arguments as
    a result when the sink lets them report, and otherwise the exception
    of the first call that raised. *)
Lemma Tools_fail_result valves language code error_message status st :
  fst (Tools._fail valves language code error_message status st)
  = match first_raise (event_emitter (emitter st)) (sink_calls st)
            (Tools_report valves language code error_message st) with
    | None => Val {| res_status := status;
                     res_output := Some (Str error_message) |}
    | Some e => Exc e
    end.
Proof.
  rewrite (state_of_eta st) at 1.
  set (f := event_emitter (emitter st)). set (d := _debug (emitter st)).
  set (pre := _status_prefix (emitter st)).
  set (fl := _emitted_status (emitter st)).
  set (calls := sink_calls st). set (sp := spawned st).
  unfold Tools_report, prefixed. fold pre.
  set (text := if DEBUG valves then _ else error_message).
  assert (Hlast : forall fl' t' calls',
            fst (((if DEBUG valves then Emitter.fail text
                   else Emitter.fail text) ;;
                  ret {| res_status := status;
                         res_output := Some (Str error_message) |})
                   (state_of f d pre fl' t' calls' sp))
            = match first_raise f calls'
                      [status_event "error"
                         (match pre with Some p => p ++ text | None => text end)
                         true] with
              | Some e => Exc e
              | None => Val {| res_status := status;
                               res_output := Some (Str error_message) |}
              end).
  { intros fl' t' calls'.
    pose proof (fail_state_of f d pre text fl' t' calls' sp) as Hfail.
    replace (if DEBUG valves then Emitter.fail text else Emitter.fail text)
      with (Emitter.fail text) by (destruct (DEBUG valves); reflexivity).
    unfold bind.
    destruct (Emitter.fail text _) as [[[] | e] st'] eqn:Hrun;
      cbn [fst] in Hfail; destruct (first_raise f calls' _);
      try discriminate; [reflexivity | inversion Hfail; reflexivity]. }
  assert (Htext : (if DEBUG valves
                   then Emitter.fail
                          ("[DEBUG MODE] " ++ error_message ++ "; language="
                           ++ language ++ "; code=" ++ code ++ "; valves=["
                           ++ str_valves valves ++ "]")
                   else Emitter.fail error_message)
                  = (if DEBUG valves then Emitter.fail text
                     else Emitter.fail text)).
  { unfold text. destruct (DEBUG valves); reflexivity. }
  set (rest := (if DEBUG valves then Emitter.fail text else Emitter.fail text) ;;
               ret {| res_status := status;
                      res_output := Some (Str error_message) |}) in *.
  destruct (execution_tracker st) as [t |] eqn:Ht.
  - set (t1 := CodeExecutionTracker.set_error error_message t).
    assert (Hrun : Tools._fail valves language code error_message status
                     (state_of f d pre fl (Some t) calls sp)
                   = (publish_tracker ;; rest)
                       (state_of f d pre fl (Some t1) calls sp)).
    { unfold Tools._fail. rewrite Htext. reflexivity. }
    rewrite Hrun, first_raise_app.
    pose proof (publish_state_of f d pre t1 fl calls sp) as Hpub.
    destruct (first_raise f calls [citation_event t1; citation_event t1])
      as [e |].
    + apply bind_exc. exact Hpub.
    + unfold bind. rewrite Hpub.
      rewrite (Hlast fl (Some t1)
                 (sent f calls [citation_event t1; citation_event t1])).
      unfold sent. destruct f; reflexivity.
  - assert (Hrun : Tools._fail valves language code error_message status
                     (state_of f d pre fl None calls sp)
                   = rest (state_of f d pre fl None calls sp)).
    { unfold Tools._fail. rewrite Htext. reflexivity. }
    rewrite Hrun. cbn [app]. apply (Hlast fl None calls).
Qed.

Lemma Action_fail_result h valves body error_message status st :
  fst (Action._fail h valves body error_message status st)
  = match first_raise (event_emitter (emitter st)) (sink_calls st)
            (Action_report h valves body error_message st) with
    | None => Val {| res_status := status;
                     res_output := Some (Str error_message) |}
    | Some e => Exc e
    end.
Proof.
  rewrite (state_of_eta st) at 1.
  unfold Action_report, prefixed.
  set (text := rejection_text h valves body error_message).
  assert (Htext : Action._fail h valves body error_message status
                  = (Emitter.fail text ;;
                     ret {| res_status := status;
                            res_output := Some (Str error_message) |})).
  { unfold Action._fail, text, rejection_text.
    destruct (DEBUG valves); reflexivity. }
  rewrite Htext.
  pose proof (fail_state_of (event_emitter (emitter st)) (_debug (emitter st))
                (_status_prefix (emitter st)) text
                (_emitted_status (emitter st)) (execution_tracker st)
                (sink_calls st) (spawned st)) as Hfail.
  unfold bind.
  destruct (Emitter.fail text _) as [[[] | e] st'] eqn:Hrun;
    cbn [fst] in Hfail; destruct (first_raise _ _ _);
    try discriminate; [reflexivity | inversion Hfail; reflexivity].
Qed.

(** The body of the [try] leaves the notifier's sink and prefix as they
    were. *)
Section BodyKeepsSink.

Context (f : option sink).

Lemma emit_keeps typ data twice :
  triple (keeps_sink f) (Emitter._emit typ data twice) (ok_or True).
Proof.
  intros st Hst. split; [destruct (fst _); exact Logic.I |].
  unfold keeps_sink. rewrite emit_emitter. exact Hst.
Qed.

Lemma run_keeps h argv input timeout st :
  keeps_sink f st -> keeps_sink f (snd (run_subprocess h argv input timeout st)).
Proof.
  intro Hst. unfold run_subprocess.
  destruct (subprocess_run h argv input timeout); exact Hst.
Qed.

Lemma Tools_body_keeps h valves language code debug r st :
  Tools.run_normalized h valves language (title language) code
    (initial_state f debug) = (r, st) ->
  event_emitter (emitter st) = f.
Proof.
  intro Hrun.
  destruct (Tools_run_normalized_post h valves language code (keeps_sink f)
              True emit_keeps (fun _ _ H => H) (fun _ _ H => H)
              (fun argv timeout st0 => run_keeps h argv _ timeout st0)
              (title language) (initial_state f debug)
              (conj eq_refl eq_refl)) as [_ Hk].
  rewrite Hrun in Hk. exact (proj1 Hk).
Qed.

Lemma Action_body_keeps h valves language code debug r st :
  Action.run_normalized h valves language (title language) code
    (initial_state f debug) = (r, st) ->
  event_emitter (emitter st) = f.
Proof.
  intro Hrun.
  destruct (Action_run_normalized_post h valves language code (keeps_sink f)
              True emit_keeps (fun _ _ H => H) (fun _ _ H => H)
              (fun argv timeout st0 => run_keeps h argv _ timeout st0)
              (title language) (initial_state f debug)
              (conj eq_refl eq_refl)) as [_ Hk].
  rewrite Hrun in Hk. exact (proj1 Hk).
Qed.

End BodyKeepsSink.



